(** * Verification of the juju API server and meter-status state code

    Shallow embedding of
      - [state/apiserver/apiserver.go]: the connection server (start-up,
        request identifiers, tenant-scope validation, the mongo pinger and
        the tomb / wait-group shutdown protocol);
      - the [state] package files for requested networks and meter status.

    Go values are modelled as follows: [string] as [string], [int64] as [Z]
    with explicit wrap-around, [error] as the inductive [error] (with
    [option error] for a possibly-nil error), mongo documents as finite
    maps from field names to values, and goroutines as the threads of an
    interleaving transition system. *)

From Stdlib Require Import ZArith NArith String List Lia Bool.
From stdpp Require Import base option gmap strings list.
Import ListNotations.

Local Open Scope Z_scope.
Local Open Scope string_scope.
Local Open Scope list_scope.

(* ===================================================================== *)
(** ** Errors *)
(* ===================================================================== *)

(** The Go [error] values that occur in the modelled code.  Formatted
    errors keep their format string and arguments apart, so that no
    model of [%q] or [%v] quoting is needed. *)
Inductive error : Type :=
| ErrNotFound                                   (* mgo.ErrNotFound *)
| ErrAborted                                    (* txn.ErrAborted *)
| ErrNoOperations                               (* jujutxn.ErrNoOperations *)
| ErrExcessiveContention                        (* jujutxn.ErrExcessiveContention *)
| ErrStillAlive                                 (* tomb.ErrStillAlive *)
| ErrDying                                      (* tomb.ErrDying *)
| ErrPerm                                       (* common.ErrPerm *)
| ErrBadCreds                                   (* common.ErrBadCreds *)
| UnknownEnvironmentError (uuid : string)       (* common.UnknownEnvironmentError *)
| Errorf (format : string) (args : list string) (* errors.Errorf, fmt.Errorf *)
| ErrorfV (format : string) (cause : error)     (* fmt.Errorf("...%v", err) *)
| Annotatef (cause : error) (format : string) (args : list string)
| Trace (cause : error)                         (* errors.Trace *)
| ExternalError (msg : string).                 (* net, tls, mgo failures *)

#[global] Instance error_eq_dec : EqDecision error.
Proof.
  unfold EqDecision, Decision.
  fix IH 1.
  intros x y.
  decide equality;
    solve [ apply string_dec
          | apply (Stdlib.Lists.List.list_eq_dec string_dec) ].
Defined.

(** [errors.Annotatef(err, ...)] and [errors.Trace(err)] return nil when
    [err] is nil. *)
Definition annotatef (e : option error) (format : string) (args : list string)
  : option error :=
  match e with
  | None => None
  | Some c => Some (Annotatef c format args)
  end.

Definition trace (e : option error) : option error :=
  match e with
  | None => None
  | Some c => Some (Trace c)
  end.

(** A Go result pair [(value, error)]. *)
Inductive result (A : Type) : Type :=
| Ok (a : A)
| Err (e : error).
Arguments Ok {A} a.
Arguments Err {A} e.

(** A log line: level, format string and arguments ([loggo]). *)
Inductive LogLevel := TRACE | DEBUG | INFO | ERROR.
Record LogEntry := { level : LogLevel; logFormat : string; logArgs : list string }.

(* ===================================================================== *)
(** ** Request identifiers: [globalCounter] and [newRequestNotifier] *)
(* ===================================================================== *)

Module Notifier.

(** Two's-complement wrap-around of Go's [int64]. *)
Definition wrap64 (z : Z) : Z := (z + 2^63) mod 2^64 - 2^63.

Definition minInt64 : Z := - 2^63.
Definition maxInt64 : Z := 2^63 - 1.

(** [atomic.AddInt64(addr, delta)]: adds atomically and returns the new
    value; the pair is (returned value, new content of [*addr]). *)
Definition AddInt64 (addr delta : Z) : Z * Z :=
  let new := wrap64 (addr + delta) in (new, new).

Record requestNotifier := {
  id : Z;          (* int64 *)
  start : Z;       (* time.Time, as an abstract clock reading *)
  tag_ : string
}.

(** [newRequestNotifier]: the state is the package variable
    [globalCounter]; [now] is the reading of [time.Now()]. *)
Definition newRequestNotifier (now : Z) (globalCounter : Z)
  : requestNotifier * Z :=
  let '(v, globalCounter') := AddInt64 globalCounter 1 in
  ({| id := v; tag_ := "<unknown>"; start := now |}, globalCounter').

(** The value of [globalCounter] after [n] calls, starting from [c]. *)
Definition counterAfter (n : N) (c : Z) : Z :=
  N.iter n (fun g => snd (newRequestNotifier 0 g)) c.

(** The identifier handed out by call number [n] (the first call is
    call number 1) of a process whose counter starts at 0, as Go
    initialises it. *)
Definition nthId (n : N) : Z :=
  id (fst (newRequestNotifier 0 (counterAfter (N.pred n) 0))).

Definition login (n : requestNotifier) (tag : string) : requestNotifier :=
  {| id := id n; start := start n; tag_ := tag |}.

Definition tag (n : requestNotifier) : string := tag_ n.

End Notifier.

(* ===================================================================== *)
(** ** [NewServer], [validateEnvironUUID] and [serveConn] *)
(* ===================================================================== *)

Module ApiServer.

(** [loginRateLimit] defines how many concurrent Login requests are
    accepted. *)
Definition loginRateLimit : nat := 10.

Section Server.

(** The collaborators of the server as its code sees them:
    [net.Listen("tcp", addr)] yields a listener or an error,
    [tls.X509KeyPair(cert, key)] a certificate or an error,
    [state.Environment()] followed by [env.UUID()] the UUID of the
    environment or an error, and [common.ServerError] translates an
    error for the wire. *)
Variable Listener : Type.
Variable Certificate : Type.
Variable State : Type.
Variable netListen : string -> result Listener.
Variable lisAddr : Listener -> string.
Variable X509KeyPair : list Byte.byte -> list Byte.byte -> result Certificate.
Variable stateEnvironment : State -> result string.
Variable commonServerError : error -> option error.

Record Server := {
  state : State;
  environUUID : string;
  addr : string;
  dataDir : string;
  logDir : string;
  limiter : nat                 (* capacity given to utils.NewLimiter *)
}.

(** What [NewServer] leaves behind besides its results: the log lines
    and the goroutine started with [go srv.run(lis)], if any. *)
Record Started := {
  logged : list LogEntry;
  running : option (Server * Listener * Certificate)
}.

Definition NewServer (s : State) (address : string) (cert key : list Byte.byte)
    (datadir logdir : string) : option Server * option error * Started :=
  match netListen address with
  | Err err => (None, Some err, {| logged := []; running := None |})
  | Ok lis =>
      let log := [ {| level := INFO; logFormat := "listening on %q";
                      logArgs := [lisAddr lis] |} ] in
      match X509KeyPair cert key with
      | Err err => (None, Some err, {| logged := log; running := None |})
      | Ok tlsCert =>
          let srv := {| state := s; environUUID := ""; addr := lisAddr lis;
                        dataDir := datadir; logDir := logdir;
                        limiter := loginRateLimit |} in
          (Some srv, None, {| logged := log; running := Some (srv, lis, tlsCert) |})
      end
  end.

Definition bindable (address : string) : Prop :=
  exists lis, netListen address = Ok lis.

Definition validKeyPair (cert key : list Byte.byte) : Prop :=
  exists c, X509KeyPair cert key = Ok c.

Definition setEnvironUUID (srv : Server) (uuid : string) : Server :=
  {| state := state srv; environUUID := uuid; addr := addr srv;
     dataDir := dataDir srv; logDir := logDir srv; limiter := limiter srv |}.

(** [validateEnvironUUID]: the server is passed and returned, since
    the method caches the resolved UUID in [srv.environUUID]. *)
Definition validateEnvironUUID (srv : Server) (envUUID : string)
  : option error * Server :=
  if String.eqb envUUID "" then (None, srv)
  else
    let resolved :=
      if String.eqb (environUUID srv) "" then
        match stateEnvironment (state srv) with
        | Err err => Err err
        | Ok uuid => Ok (setEnvironUUID srv uuid)
        end
      else Ok srv in
    match resolved with
    | Err err => (Some err, srv)
    | Ok srv' =>
        if negb (String.eqb envUUID (environUUID srv'))
        then (Some (UnknownEnvironmentError envUUID), srv')
        else (None, srv')
    end.

(** The scope the server resolves to: the cached UUID, or the one the
    state reports when none is cached yet. *)
Definition resolvedScope (srv : Server) : option string :=
  if String.eqb (environUUID srv) "" then
    match stateEnvironment (state srv) with
    | Ok uuid => Some uuid
    | Err _ => None
    end
  else Some (environUUID srv).

(** The root object a connection serves: [&errRoot{err}] or the value
    of [newStateServer(srv, conn, reqNotifier, srv.limiter)], of which
    only the shared limiter is recorded. *)
Inductive Root :=
| errRoot (err : error)
| stateServer (limiter : nat).

(** [serverError] *)
Definition serverError (err : error) : option error :=
  match commonServerError err with
  | Some err' => Some err'
  | None => None
  end.

(** [serveConn] up to [conn.Start()]: the root the connection serves
    and the server with its cache.  The wait for [conn.Dead()] or
    [tomb.Dying()] and [conn.Close()] are part of [Lifecycle]. *)
Definition serveConn (srv : Server) (envUUID : string) : Root * Server :=
  match validateEnvironUUID srv envUUID with
  | (Some err, srv') => (errRoot err, srv')
  | (None, srv') => (stateServer (limiter srv'), srv')
  end.

(** Modelled from the spec: the type [errRoot] is not among the sources;
    a request that fails is reported to the client with its error, so
    every call on an [errRoot] yields the root's error, translated by
    [serverError]; calls on a state server go to the facades. *)
Definition rootCall {Req Reply : Type} (facade : Req -> result Reply)
    (root : Root) (req : Req) : Reply + option error :=
  match root with
  | errRoot err => inr (serverError err)
  | stateServer _ =>
      match facade req with
      | Ok r => inl r
      | Err err => inr (serverError err)
      end
  end.

End Server.

Arguments Server State : clear implicits.
Arguments state {State} _.
Arguments environUUID {State} _.
Arguments addr {State} _.
Arguments dataDir {State} _.
Arguments logDir {State} _.
Arguments limiter {State} _.
Arguments NewServer {Listener Certificate State} _ _ _ _ _ _ _ _ _.
Arguments bindable {Listener} _ _.
Arguments validKeyPair {Certificate} _ _ _.
Arguments setEnvironUUID {State} _ _.
Arguments validateEnvironUUID {State} _ _ _.
Arguments resolvedScope {State} _ _.
Arguments serveConn {State} _ _ _.
Arguments rootCall _ {Req Reply} _ _ _.

End ApiServer.

(* ===================================================================== *)
(** ** The document store and transactions ([mgo], [mgo/txn]) *)
(* ===================================================================== *)

Module Txn.

(** Field values of a stored document. *)
Inductive Value :=
| VStr (s : string)
| VInt (z : Z)
| VStrs (l : list string).

#[global] Instance Value_eq_dec : EqDecision Value.
Proof. solve_decision. Defined.

(** A document maps field names to values; the store maps a collection
    name and a document id to the document. *)
Abbreviation Doc := (gmap string Value).
Abbreviation Store := (gmap (string * string) (gmap string Value)).

(** [txn.DocExists], [txn.DocMissing], or a query document such as
    [bson.D{{"life", Alive}}], which the document has to match. *)
Inductive Assertion :=
| DocExists
| DocMissing
| Query (q : list (string * Value)).

(** An update document [bson.D{{"$set", fields}}]. *)
Inductive UpdateDoc :=
| Set_ (fields : list (string * Value)).

(** [txn.Op] *)
Record Op := {
  C : string;
  Id : string;
  Assert : option Assertion;
  Insert : option Doc;
  Update : option UpdateDoc;
  Remove : bool
}.

Definition getStr (d : Doc) (k : string) : string :=
  match d !! k with Some (VStr s) => s | _ => "" end.

Definition getInt (d : Doc) (k : string) : Z :=
  match d !! k with Some (VInt z) => z | _ => 0%Z end.

Definition getStrs (d : Doc) (k : string) : list string :=
  match d !! k with Some (VStrs l) => l | _ => [] end.

Definition matches (q : list (string * Value)) (d : Doc) : bool :=
  forallb (fun kv => bool_decide (d !! fst kv = Some (snd kv))) q.

Definition checkAssert (s : Store) (op : Op) : bool :=
  match Assert op with
  | None => true
  | Some DocExists => bool_decide (is_Some (s !! (C op, Id op)))
  | Some DocMissing => bool_decide (s !! (C op, Id op) = None)
  | Some (Query q) =>
      match s !! (C op, Id op) with
      | Some d => matches q d
      | None => false
      end
  end.

Definition setFields (fields : list (string * Value)) (d : Doc) : Doc :=
  foldl (fun d kv => <[fst kv := snd kv]> d) d fields.

(** The change of one operation.  An insert of an existing document,
    and an update or removal of a missing one, leave the store as it
    is: the transaction continues. *)
Definition applyChange (s : Store) (op : Op) : Store :=
  match Update op, Remove op, Insert op with
  | Some (Set_ fields), _, _ =>
      match s !! (C op, Id op) with
      | Some d => <[(C op, Id op) := setFields fields d]> s
      | None => s
      end
  | None, true, _ => delete (C op, Id op) s
  | None, false, Some d =>
      match s !! (C op, Id op) with
      | Some _ => s
      | None => <[(C op, Id op) := d]> s
      end
  | None, false, None => s
  end.

(** A transaction is all or nothing: when an assertion fails it is
    aborted and the store is left as it was. *)
Definition applyOps (s : Store) (ops : list Op) : result Store :=
  if forallb (checkAssert s) ops
  then Ok (foldl applyChange s ops)
  else Err ErrAborted.

(** The state of the world the [state] package acts upon: the store,
    the number of store accesses made so far, the transactions that
    were submitted, and the log. *)
Record World := {
  store : Store;
  tick : nat;
  submitted : list (list Op);
  log : list LogEntry
}.

Section Engine.

(** Other writers and failures of the store: before access number [t]
    the other clients of the store turn it into [env t store], and
    [fault t] is the transport error of that access, if any. *)
Variable env : nat -> Store -> Store.
Variable fault : nat -> option error.

(** The number of attempts the engine makes. *)
Variable nrRetries : nat.

Definition access (w : World) : World :=
  {| store := env (tick w) (store w); tick := S (tick w);
     submitted := submitted w; log := log w |}.

(** [collection.FindId(id).One(&doc)] *)
Definition FindId (c id : string) (w : World) : result Doc * World :=
  let w' := access w in
  match fault (tick w) with
  | Some e => (Err e, w')
  | None =>
      match store w' !! (c, id) with
      | Some d => (Ok d, w')
      | None => (Err ErrNotFound, w')
      end
  end.

(** Submitting one transaction to the store. *)
Definition commit (ops : list Op) (w : World) : option error * World :=
  let w' := access w in
  let sub := submitted w ++ [ops] in
  match fault (tick w) with
  | Some e =>
      (Some e, {| store := store w'; tick := tick w'; submitted := sub; log := log w' |})
  | None =>
      match applyOps (store w') ops with
      | Ok s' =>
          (None, {| store := s'; tick := tick w'; submitted := sub; log := log w' |})
      | Err e =>
          (Some e, {| store := store w'; tick := tick w'; submitted := sub; log := log w' |})
      end
  end.

(** Modelled from the spec: [State.runTransaction] is not among the
    sources; the engine submits the operations as one atomic unit, and
    an empty operation list short-circuits the round trip. *)
Definition runTransaction (ops : list Op) (w : World) : option error * World :=
  match ops with
  | [] => (None, w)
  | _ => commit ops w
  end.

(** Modelled from the spec: [State.run] and the transaction runner are
    not among the sources.  [buildOps] is invoked with attempt 0; the
    operations are submitted as one atomic unit; on an assertion
    conflict [buildOps] is invoked again with the attempt incremented;
    the sentinel [ErrNoOperations] means success with no change; any
    other error of [buildOps] or of the store is returned; the number
    of attempts is bounded, and exceeding the bound surfaces a
    conflict error.  [S] is the state captured by the closure. *)
Fixpoint runFrom {S : Type}
    (buildOps : nat -> S -> World -> result (list Op) * S * World)
    (fuel attempt : nat) (s : S) (w : World) : option error * S * World :=
  match fuel with
  | O => (Some ErrExcessiveContention, s, w)
  | Datatypes.S fuel' =>
      match buildOps attempt s w with
      | (Err ErrNoOperations, s', w') => (None, s', w')
      | (Err e, s', w') => (Some e, s', w')
      | (Ok ops, s', w') =>
          match runTransaction ops w' with
          | (None, w'') => (None, s', w'')
          | (Some ErrAborted, w'') => runFrom buildOps fuel' (Datatypes.S attempt) s' w''
          | (Some e, w'') => (Some e, s', w'')
          end
      end
  end.

Definition run {S : Type}
    (buildOps : nat -> S -> World -> result (list Op) * S * World)
    (s : S) (w : World) : option error * S * World :=
  runFrom buildOps nrRetries 0 s w.

End Engine.

End Txn.

(* ===================================================================== *)
(** ** Package [state]: requested networks and meter status *)
(* ===================================================================== *)

Module StatePkg.
Import Txn.

(** Collection names. *)
Definition unitsC : string := "units".
Definition meterStatusC : string := "meterStatus".

(** [Life]: [Alive], [Dying] and [Dead] are 0, 1 and 2. *)
Definition Alive : Z := 0.
Definition Dying : Z := 1.
Definition Dead : Z := 2.

(** Modelled from the spec: the constant [isAliveDoc] is not among the
    sources; it is the assertion that the document is alive. *)
Definition isAliveDoc : Assertion := Query [("life", VInt Alive)].

(** The part of [*State] the modelled functions read: the UUID of the
    environment and the name of the requested-networks collection. *)
Record State := {
  EnvironUUID : string;
  requestedNetworks : string
}.

(** Modelled from the spec: [State.docID] is not among the sources; a
    document is identified by the composite key
    [<env-scope>:<entity-key>]. *)
Definition docID (st : State) (localID : string) : string :=
  String.append (EnvironUUID st) (String.append ":" localID).

(** *** Requested networks *)

Record requestedNetworksDoc := {
  rnId : string;                (* Id, bson "_id" *)
  Networks : list string        (* a nil slice is the empty list *)
}.

Definition newRequestedNetworksDoc (networks : list string) : requestedNetworksDoc :=
  {| rnId := ""; Networks := networks |}.

Definition encodeRequestedNetworks (d : requestedNetworksDoc) : Doc :=
  {[ "networks" := VStrs (Networks d) ]}.

Definition createRequestedNetworksOp (st : State) (id : string)
    (networks : list string) : Op :=
  {| C := requestedNetworks st; Id := id; Assert := Some DocMissing;
     Insert := Some (encodeRequestedNetworks (newRequestedNetworksDoc networks));
     Update := None; Remove := false |}.

Definition removeRequestedNetworksOp (st : State) (id : string) : Op :=
  {| C := requestedNetworks st; Id := id; Assert := None;
     Insert := None; Update := None; Remove := true |}.

(** *** Meter status *)

Definition MeterStatusCode := string.
Definition MeterNotSet : MeterStatusCode := "NOT SET".
Definition MeterNotAvailable : MeterStatusCode := "NOT AVAILABLE".
Definition MeterGreen : MeterStatusCode := "GREEN".
Definition MeterAmber : MeterStatusCode := "AMBER".
Definition MeterRed : MeterStatusCode := "RED".

Record meterStatusDoc := {
  DocID : string;
  EnvUUID : string;
  Code : MeterStatusCode;
  Info : string
}.

Definition decodeMeterStatus (d : Doc) : meterStatusDoc :=
  {| DocID := getStr d "_id"; EnvUUID := getStr d "env-uuid";
     Code := getStr d "code"; Info := getStr d "info" |}.

Definition encodeMeterStatus (m : meterStatusDoc) : Doc :=
  {[ "_id" := VStr (DocID m); "env-uuid" := VStr (EnvUUID m);
     "code" := VStr (Code m); "info" := VStr (Info m) ]}.

(** The fields of a unit's document that the modelled code reads. *)
Record unitDoc := {
  uDocID : string;
  uName : string;
  uLife : Z
}.

Record Unit := {
  st : State;
  doc : unitDoc
}.

Record Service := { svcName : string }.

Definition Name (u : Unit) : string := uName (doc u).

(** Modelled from the spec: [Unit.globalKey] is not among the sources;
    it is the entity key of the unit. *)
Definition globalKey (u : Unit) : string := String.append "u#" (Name u).

Definition decodeUnit (id : string) (d : Doc) : unitDoc :=
  {| uDocID := id; uName := getStr d "name"; uLife := getInt d "life" |}.

(** The switch on the code at the start of [SetMeterStatus]. *)
Definition validCode (code : MeterStatusCode) : bool :=
  String.eqb code MeterGreen || String.eqb code MeterAmber || String.eqb code MeterRed.

(** [setMeterStatusOp] *)
Definition setMeterStatusOp (u : Unit) (st : State) (globalKey : string)
    (code : MeterStatusCode) (info : string) : list Op :=
  [ {| C := unitsC; Id := uDocID (doc u); Assert := Some isAliveDoc;
       Insert := None; Update := None; Remove := false |};
    {| C := meterStatusC; Id := docID st globalKey; Assert := Some DocExists;
       Insert := None;
       Update := Some (Set_ [("code", VStr code); ("info", VStr info)]);
       Remove := false |} ].

Definition setEnvUUID (m : meterStatusDoc) (uuid : string) : meterStatusDoc :=
  {| DocID := DocID m; EnvUUID := uuid; Code := Code m; Info := Info m |}.

(** [createMeterStatusOp] *)
Definition createMeterStatusOp (st : State) (globalKey : string)
    (doc : meterStatusDoc) : Op :=
  {| C := meterStatusC; Id := docID st globalKey; Assert := Some DocMissing;
     Insert := Some (encodeMeterStatus (setEnvUUID doc (EnvironUUID st)));
     Update := None; Remove := false |}.

(** [removeMeterStatusOp] *)
Definition removeMeterStatusOp (st : State) (globalKey : string) : Op :=
  {| C := meterStatusC; Id := docID st globalKey; Assert := None;
     Insert := None; Update := None; Remove := true |}.

Definition sameStatus (m : meterStatusDoc) (code : MeterStatusCode) (info : string)
  : bool :=
  String.eqb (Code m) code && String.eqb (Info m) info.

Section Operations.

Variable env : nat -> Store -> Store.
Variable fault : nat -> option error.
Variable nrRetries : nat.

(** How the list of services, and the list of units of a service,
    are read off the store ([State.AllServices] and
    [Service.AllUnits] are not among the sources). *)
Variable servicesOf : State -> Store -> result (list Service).
Variable unitsOf : Service -> Store -> result (list Unit).

(** [readRequestedNetworks] *)
Definition readRequestedNetworks (st : State) (id : string) (w : World)
  : list string * option error * World :=
  match FindId env fault (requestedNetworks st) id w with
  | (Err ErrNotFound, w') => ([], None, w')
  | (Err err, w') => ([], Some err, w')
  | (Ok d, w') => (getStrs d "networks", None, w')
  end.

(** Modelled from the spec: [State.getCollection] is not among the
    sources; the collection it returns addresses a document of the
    state's environment by its composite key. *)
Definition envFindId (st : State) (c id : string) (w : World)
  : result Doc * World :=
  FindId env fault c (docID st id) w.

(** [Unit.getMeterStatusDoc] *)
Definition getMeterStatusDoc (u : Unit) (w : World)
  : result meterStatusDoc * World :=
  match envFindId (st u) meterStatusC (globalKey u) w with
  | (Err err, w') => (Err (Trace err), w')
  | (Ok d, w') => (Ok (decodeMeterStatus d), w')
  end.

(** [Unit.GetMeterStatus] *)
Definition GetMeterStatus (u : Unit) (w : World)
  : string * string * option error * World :=
  match getMeterStatusDoc u w with
  | (Err err, w') =>
      (MeterNotAvailable, "",
       Some (Annotatef err "cannot retrieve meter status for unit %s" [Name u]), w')
  | (Ok status, w') => (Code status, Info status, None, w')
  end.

(** Modelled from the spec: [Unit.Refresh] is not among the sources;
    it re-reads the fresh state of the unit's document into the
    unit, and fails when the document is gone. *)
Definition Refresh (u : Unit) (w : World) : option error * Unit * World :=
  match FindId env fault unitsC (uDocID (doc u)) w with
  | (Err err, w') => (Some err, u, w')
  | (Ok d, w') =>
      (None, {| st := st u; doc := decodeUnit (uDocID (doc u)) d |}, w')
  end.

(** The closure [buildTxn] of [SetMeterStatus]; the unit it captures
    is passed and returned. *)
Definition buildTxn (code : MeterStatusCode) (info : string)
    (attempt : nat) (u : Unit) (w : World) : result (list Op) * Unit * World :=
  match attempt with
  | O => (Ok (setMeterStatusOp u (st u) (globalKey u) code info), u, w)
  | Datatypes.S _ =>
      match Refresh u w with
      | (Some err, u', w1) => (Err (Trace err), u', w1)
      | (None, u', w1) =>
          match getMeterStatusDoc u' w1 with
          | (Err err, w2) =>
              (Err (Annotatef err "cannot update meter status for unit %s" [Name u']),
               u', w2)
          | (Ok meterDoc, w2) =>
              if sameStatus meterDoc code info
              then (Err ErrNoOperations, u', w2)
              else (Ok (setMeterStatusOp u' (st u') (globalKey u') code info), u', w2)
          end
      end
  end.

(** [Unit.SetMeterStatus] *)
Definition SetMeterStatus (codeRaw info : string) (u : Unit) (w : World)
  : option error * Unit * World :=
  let code : MeterStatusCode := codeRaw in
  if negb (validCode code)
  then (Some (Errorf "invalid meter status %q" [code]), u, w)
  else
    match getMeterStatusDoc u w with
    | (Err err, w1) =>
        (Some (Annotatef err "cannot update meter status for unit %s" [Name u]), u, w1)
    | (Ok meterDoc, w1) =>
        if sameStatus meterDoc code info
        then (None, u, w1)
        else
          match run env fault nrRetries (buildTxn code info) u w1 with
          | (err, u', w2) =>
              (annotatef err "cannot set meter state for unit %s" [Name u'], u', w2)
          end
    end.

Definition AllServices (st : State) (w : World) : result (list Service) * World :=
  let w' := access env w in
  match fault (tick w) with
  | Some e => (Err e, w')
  | None => (servicesOf st (store w'), w')
  end.

Definition AllUnits (svc : Service) (w : World) : result (list Unit) * World :=
  let w' := access env w in
  match fault (tick w) with
  | Some e => (Err e, w')
  | None => (unitsOf svc (store w'), w')
  end.

(** The loop over the services in [SetMeterStatusOnAllUnits]: the
    operations gathered so far are [ops]. *)
Fixpoint gatherOps (st : State) (codeRaw info : string)
    (services : list Service) (ops : list Op) (w : World)
  : result (list Op) * World :=
  match services with
  | [] => (Ok ops, w)
  | svc :: rest =>
      match AllUnits svc w with
      | (Err err, w') => (Err err, w')
      | (Ok units, w') =>
          gatherOps st codeRaw info rest
            (ops ++ flat_map
                      (fun unit => setMeterStatusOp unit st (globalKey unit) codeRaw info)
                      units)
            w'
      end
  end.

(** [State.SetMeterStatusOnAllUnits] *)
Definition SetMeterStatusOnAllUnits (st : State) (codeRaw info : string) (w : World)
  : option error * World :=
  match AllServices st w with
  | (Err err, w1) => (Some err, w1)
  | (Ok services, w1) =>
      match gatherOps st codeRaw info services [] w1 with
      | (Err err, w2) => (Some err, w2)
      | (Ok ops, w2) =>
          match runTransaction env fault ops w2 with
          | (err, w3) => (annotatef err "cannot set meter state for all units" [], w3)
          end
      end
  end.

(** The units the loop of [SetMeterStatusOnAllUnits] visits. *)
Fixpoint visitedUnits (services : list Service) (w : World) : list Unit :=
  match services with
  | [] => []
  | svc :: rest =>
      match AllUnits svc w with
      | (Err _, _) => []
      | (Ok units, w') => units ++ visitedUnits rest w'
      end
  end.

End Operations.

(** *** Vocabulary of the properties *)

(** The unit's document is in the store and its life is [Alive]. *)
Definition unitAlive (s : Store) (u : Unit) : Prop :=
  exists d, s !! (unitsC, uDocID (doc u)) = Some d
            /\ d !! "life" = Some (VInt Alive).

Definition meterDocExists (s : Store) (st : State) (globalKey : string) : Prop :=
  is_Some (s !! (meterStatusC, docID st globalKey)).

(** An operation removing the unit's document, under any assertion. *)
Definition removeUnitOp (u : Unit) (a : option Assertion) : Op :=
  {| C := unitsC; Id := uDocID (doc u); Assert := a;
     Insert := None; Update := None; Remove := true |}.

(** Something was written to the log between [w] and [w']. *)
Definition logged (w w' : World) : Prop :=
  exists e es, log w' = log w ++ e :: es.

(** A store in which nobody else writes and no access fails. *)
Definition quiet : nat -> Store -> Store := fun _ s => s.
Definition noFault : nat -> option error := fun _ => None.

Definition emptyWorld : World :=
  {| store := ∅; tick := 0; submitted := []; log := [] |}.

Definition worldOf (s : Store) : World :=
  {| store := s; tick := 0; submitted := []; log := [] |}.

(** *** A sample unit *)

Definition sampleState : State :=
  {| EnvironUUID := "env-1"; requestedNetworks := "requestednetworks" |}.

Definition sampleUnit : Unit :=
  {| st := sampleState;
     doc := {| uDocID := "env-1:wordpress/0"; uName := "wordpress/0";
               uLife := Alive |} |}.

(** A store holding the sample unit with the given life and meter
    status. *)
Definition sampleStore (life : Z) (code info : string) : Store :=
  {[ (unitsC, "env-1:wordpress/0")
       := {[ "name" := VStr "wordpress/0"; "life" := VInt life ]};
     (meterStatusC, "env-1:u#wordpress/0")
       := {[ "code" := VStr code; "info" := VStr info ]} ]}.

(** Another writer that, just before store access number 1, marks the
    sample unit as dying and sets its meter status to GREEN. *)
Definition racingWriter : nat -> Store -> Store :=
  fun t s => if (t =? 1)%nat then sampleStore Dying "GREEN" "" else s.

End StatePkg.

(* ===================================================================== *)
(** ** The life cycle of the server: [run], [apiHandler], [serveConn],
       [mongoPinger], [Stop], [Kill] and [Wait] *)
(* ===================================================================== *)

Module Lifecycle.

(** *** [tomb.Tomb] *)

(** The channel [Dying()] is closed when [dying] holds, the channel
    [Dead()] when [dead] holds; [reason] is what [Err()] returns. *)
Record Tomb := {
  dying : bool;
  dead : bool;
  reason : option error
}.

Definition newTomb : Tomb :=
  {| dying := false; dead := false; reason := Some ErrStillAlive |}.

(** [t.Kill(r)]: only the first non-nil reason is recorded; with
    [ErrDying] the reason is kept, and the call panics ([None]) when
    the tomb is still alive. *)
Definition tombKill (r : option error) (t : Tomb) : option Tomb :=
  if decide (r = Some ErrDying) then
    if decide (reason t = Some ErrStillAlive) then None else Some t
  else
    Some {| dying := true; dead := dead t;
            reason := if decide (reason t = None \/ reason t = Some ErrStillAlive)
                      then r else reason t |}.

(** [t.Done()] is [t.Kill(nil)] followed by closing the dead channel. *)
Definition tombDone (t : Tomb) : Tomb :=
  match tombKill None t with
  | Some t' => {| dying := dying t'; dead := true; reason := reason t' |}
  | None => t
  end.

Definition tombErr (t : Tomb) : option error := reason t.

Definition stillAlive (t : Tomb) : bool :=
  bool_decide (tombErr t = Some ErrStillAlive).

(** *** Threads *)

(** [run]: [RunStart] is the goroutine started by [NewServer];
    [RunSpawned] follows the first [wg.Add(1); go func() {...}];
    [RunServe] is [http.Serve(lis, mux)]; [RunWait] the deferred
    [srv.wg.Wait()]; [RunWaited] precedes the deferred
    [srv.tomb.Done()]. *)
Inductive RunPC := RunStart | RunSpawned | RunServe | RunWait | RunWaited | RunExit.

(** The first goroutine of [run]: [<-srv.tomb.Dying()], [lis.Close()],
    [srv.wg.Done()]. *)
Inductive WatchPC := WNone | WWait | WClose | WDone | WExit.

(** The second goroutine of [run]: [mongoPinger] in its [select]
    ([PSelect]) or about to ping ([PPing]), then
    [srv.tomb.Kill(err)] and [srv.wg.Done()]. *)
Inductive PingPC :=
| PNone | PSelect | PPing
| PReturned (err : error)
| PKilled (err : error)
| PExit (err : error).

(** A connection handler, [apiHandler]: [HNew] is the goroutine up to
    the websocket handler function; [HChecking] follows
    [srv.wg.Add(1)]; [HStarting] follows the check of the tomb, which
    the handler found alive: it is in [serveConn] before
    [conn.Start()]; [HServing] follows [conn.Start()], in the
    [select]; [HClosing] is [conn.Close()]; [HLeaving] has the
    deferred [srv.wg.Done()] left to run. *)
Inductive HandlerPC :=
| HNew | HChecking | HStarting | HServing | HClosing | HLeaving | HExited.

#[global] Instance HandlerPC_eq_dec : EqDecision HandlerPC.
Proof. solve_decision. Defined.

(** [served] records that the handler has called [conn.Start()];
    [started] and [completed] count the requests that were dispatched
    on the connection and those that finished. *)
Record Handler := {
  hpc : HandlerPC;
  served : bool;
  started : nat;
  completed : nat
}.

(** A caller of [Stop()] or [Wait()], blocked in [tomb.Wait()] or
    returned with its result. *)
Inductive CallPC := CWaiting | CReturned (r : option error).

Record Caller := {
  stopper : bool;       (* the call is Stop(), not Wait() *)
  cpc : CallPC
}.

(** The state of the server and of its threads.  [others] counts the
    requests that the handlers of the log, charms and tools paths
    are serving. *)
Record ServerState := {
  tomb : Tomb;
  wg : Z;                         (* the counter of srv.wg *)
  lisClosed : bool;
  runner : RunPC;
  watcher : WatchPC;
  pinger : PingPC;
  handlers : list Handler;
  others : nat;                   (* requests in the other handlers *)
  callers : list Caller;
  panicked : bool
}.

(** The server as [NewServer] returns it. *)
Definition init : ServerState :=
  {| tomb := newTomb; wg := 0; lisClosed := false; runner := RunStart;
     watcher := WNone; pinger := PNone; handlers := []; others := 0;
     callers := []; panicked := false |}.

Definition setTomb (t : Tomb) (s : ServerState) : ServerState :=
  {| tomb := t; wg := wg s; lisClosed := lisClosed s; runner := runner s;
     watcher := watcher s; pinger := pinger s; handlers := handlers s;
     others := others s; callers := callers s; panicked := panicked s |}.

Definition setPanicked (s : ServerState) : ServerState :=
  {| tomb := tomb s; wg := wg s; lisClosed := lisClosed s; runner := runner s;
     watcher := watcher s; pinger := pinger s; handlers := handlers s;
     others := others s; callers := callers s; panicked := true |}.

Definition setLisClosed (s : ServerState) : ServerState :=
  {| tomb := tomb s; wg := wg s; lisClosed := true; runner := runner s;
     watcher := watcher s; pinger := pinger s; handlers := handlers s;
     others := others s; callers := callers s; panicked := panicked s |}.

Definition setRunner (pc : RunPC) (s : ServerState) : ServerState :=
  {| tomb := tomb s; wg := wg s; lisClosed := lisClosed s; runner := pc;
     watcher := watcher s; pinger := pinger s; handlers := handlers s;
     others := others s; callers := callers s; panicked := panicked s |}.

Definition setWatcher (pc : WatchPC) (s : ServerState) : ServerState :=
  {| tomb := tomb s; wg := wg s; lisClosed := lisClosed s; runner := runner s;
     watcher := pc; pinger := pinger s; handlers := handlers s;
     others := others s; callers := callers s; panicked := panicked s |}.

Definition setPinger (pc : PingPC) (s : ServerState) : ServerState :=
  {| tomb := tomb s; wg := wg s; lisClosed := lisClosed s; runner := runner s;
     watcher := watcher s; pinger := pc; handlers := handlers s;
     others := others s; callers := callers s; panicked := panicked s |}.

Definition setHandlers (hs : list Handler) (s : ServerState) : ServerState :=
  {| tomb := tomb s; wg := wg s; lisClosed := lisClosed s; runner := runner s;
     watcher := watcher s; pinger := pinger s; handlers := hs;
     others := others s; callers := callers s; panicked := panicked s |}.

Definition setOthers (n : nat) (s : ServerState) : ServerState :=
  {| tomb := tomb s; wg := wg s; lisClosed := lisClosed s; runner := runner s;
     watcher := watcher s; pinger := pinger s; handlers := handlers s;
     others := n; callers := callers s; panicked := panicked s |}.

Definition setCallers (cs : list Caller) (s : ServerState) : ServerState :=
  {| tomb := tomb s; wg := wg s; lisClosed := lisClosed s; runner := runner s;
     watcher := watcher s; pinger := pinger s; handlers := handlers s;
     others := others s; callers := cs; panicked := panicked s |}.

(** [srv.wg.Add(delta)]; it panics when the counter goes negative. *)
Definition wgAdd (delta : Z) (s : ServerState) : ServerState :=
  let s' := {| tomb := tomb s; wg := wg s + delta; lisClosed := lisClosed s;
               runner := runner s; watcher := watcher s; pinger := pinger s;
               handlers := handlers s; others := others s;
               callers := callers s; panicked := panicked s |} in
  if (wg s + delta <? 0)%Z then setPanicked s' else s'.

(** [srv.wg.Done()] *)
Definition wgDone (s : ServerState) : ServerState := wgAdd (-1) s.

(** [srv.tomb.Kill(r)] *)
Definition kill (r : option error) (s : ServerState) : ServerState :=
  match tombKill r (tomb s) with
  | Some t => setTomb t s
  | None => setPanicked s
  end.

Definition setHpc (pc : HandlerPC) (h : Handler) : Handler :=
  {| hpc := pc; served := served h; started := started h; completed := completed h |}.

Definition newHandler : Handler :=
  {| hpc := HNew; served := false; started := 0; completed := 0 |}.

(** The error [mongoPinger] returns when [session.Ping()] fails with
    [err]. *)
Definition pingError (err : error) : error :=
  ErrorfV "error pinging mongo: %v" err.

(** *** The handlers of the log, charms and tools paths *)

(** Modelled from the spec: [debugLogHandler], [charmsHandler] and
    [toolsHandler] are not among the sources, and the spec leaves
    them to its collaborators.  What [run] shows of them is kept: it
    hands them the state and a directory, not the server, so a
    request they serve touches neither [srv.tomb] nor [srv.wg]. *)
Definition otherServe (s : ServerState) : ServerState :=
  setOthers (S (others s)) s.

(** Modelled from the spec: [ServeHTTP] of these handlers is not among
    the sources; a request they serve returns when it will. *)
Definition otherReturn (s : ServerState) : option ServerState :=
  match others s with
  | S n => Some (setOthers n s)
  | O => None
  end.

Arguments otherServe s /.
Arguments otherReturn s /.

(** *** The connections of package [rpc] *)

(** Modelled from the spec: package [rpc] is not among the sources.
    The channel [conn.Dead()] is closed when the connection ends,
    which the peer may bring about at any time. *)
Definition connDead (h : Handler) : bool := true.

(** Modelled from the spec: package [rpc] is not among the sources.
    A connection dispatches the requests it receives from
    [conn.Start()] on, until [conn.Close()] is called: the handler is
    in its [select]. *)
Definition connDispatches (h : Handler) : bool :=
  bool_decide (hpc h = HServing).

(** Modelled from the spec: package [rpc] is not among the sources.
    A request that was dispatched and has not finished is in flight;
    it finishes on its own, whether or not the connection is being
    closed: no request in flight is terminated. *)
Definition connInFlight (h : Handler) : bool :=
  (completed h <? started h)%nat.

(** Modelled from the spec: [rpc.Conn.Close] is not among the sources.
    It returns once every request in flight on the connection has
    finished: the handler finishes its current requests and closes. *)
Definition connCloseReturns (h : Handler) : bool :=
  (completed h =? started h)%nat.

(** *** Steps *)

(** The atomic steps of the threads.  [RunAccept] is a connection
    that the mux routes to [apiHandler], [RunAcceptOther] one it
    routes to the handlers of the log, charms and tools paths;
    [PingResult r] is the outcome of one [session.Ping()]; the steps
    of handler [i] carry its index; [CallStop], [CallKill] and
    [CallWait] are calls of the exported methods, [CallReturn i] the
    return of caller [i] from [tomb.Wait()]. *)
Inductive Action :=
| RunSpawnWatcher | RunSpawnPinger | RunAccept | RunAcceptOther | RunServeReturn
| RunWaitReturn | RunTombDone
| WatchDying | WatchCloseListener | WatchDone
| PingTimer | PingDying | PingResult (r : option error) | PingKill | PingDone
| HandlerAdd (i : nat) | HandlerCheck (i : nat) | HandlerStart (i : nat)
| HandlerRequest (i : nat) | HandlerReply (i : nat)
| HandlerConnDead (i : nat) | HandlerDying (i : nat)
| HandlerCloseReturn (i : nat) | HandlerDone (i : nat)
| OtherReturn
| CallStop | CallKill | CallWait | CallReturn (i : nat).

(** A step of handler [i] from program counter [from], turning the
    handler into [f h] and the rest of the state into [g s]. *)
Definition handlerStep (i : nat) (from : HandlerPC) (guard : Handler -> bool)
    (f : Handler -> Handler) (g : ServerState -> ServerState)
    (s : ServerState) : option ServerState :=
  match handlers s !! i with
  | Some h =>
      if bool_decide (hpc h = from) && guard h
      then Some (g (setHandlers (<[i := f h]> (handlers s)) s))
      else None
  | None => None
  end.

Definition step (a : Action) (s : ServerState) : option ServerState :=
  match a with
  (* run *)
  | RunSpawnWatcher =>                     (* srv.wg.Add(1); go func() {...}() *)
      match runner s with
      | RunStart => Some (setWatcher WWait (setRunner RunSpawned (wgAdd 1 s)))
      | _ => None
      end
  | RunSpawnPinger =>                      (* srv.wg.Add(1); go func() {...}() *)
      match runner s with
      | RunSpawned => Some (setPinger PSelect (setRunner RunServe (wgAdd 1 s)))
      | _ => None
      end
  | RunAccept =>                           (* http.Serve accepts a connection *)
      match runner s with
      | RunServe =>
          if lisClosed s then None
          else Some (setHandlers (handlers s ++ [newHandler]) s)
      | _ => None
      end
  | RunAcceptOther =>                      (* ... for /log, /charms or /tools *)
      match runner s with
      | RunServe =>
          if lisClosed s then None
          else Some (otherServe s)
      | _ => None
      end
  | RunServeReturn =>                      (* http.Serve returns: listener closed *)
      match runner s with
      | RunServe => if lisClosed s then Some (setRunner RunWait s) else None
      | _ => None
      end
  | RunWaitReturn =>                       (* srv.wg.Wait() returns *)
      match runner s with
      | RunWait => if (wg s =? 0)%Z then Some (setRunner RunWaited s) else None
      | _ => None
      end
  | RunTombDone =>                         (* srv.tomb.Done() *)
      match runner s with
      | RunWaited => Some (setRunner RunExit (setTomb (tombDone (tomb s)) s))
      | _ => None
      end
  (* the goroutine closing the listener *)
  | WatchDying =>                          (* <-srv.tomb.Dying() *)
      match watcher s with
      | WWait => if dying (tomb s) then Some (setWatcher WClose s) else None
      | _ => None
      end
  | WatchCloseListener =>                  (* lis.Close() *)
      match watcher s with
      | WClose => Some (setWatcher WDone (setLisClosed s))
      | _ => None
      end
  | WatchDone =>                           (* srv.wg.Done() *)
      match watcher s with
      | WDone => Some (setWatcher WExit (wgDone s))
      | _ => None
      end
  (* the goroutine running mongoPinger *)
  | PingTimer =>                           (* case <-timer.C *)
      match pinger s with
      | PSelect => Some (setPinger PPing s)
      | _ => None
      end
  | PingDying =>                           (* case <-srv.tomb.Dying() *)
      match pinger s with
      | PSelect =>
          if dying (tomb s) then Some (setPinger (PReturned ErrDying) s) else None
      | _ => None
      end
  | PingResult r =>                        (* session.Ping() *)
      match pinger s with
      | PPing =>
          match r with
          | Some err => Some (setPinger (PReturned (pingError err)) s)
          | None => Some (setPinger PSelect s)      (* timer.Reset *)
          end
      | _ => None
      end
  | PingKill =>                            (* srv.tomb.Kill(err) *)
      match pinger s with
      | PReturned err => Some (setPinger (PKilled err) (kill (Some err) s))
      | _ => None
      end
  | PingDone =>                            (* srv.wg.Done() *)
      match pinger s with
      | PKilled err => Some (setPinger (PExit err) (wgDone s))
      | _ => None
      end
  (* connection handlers *)
  | HandlerAdd i =>                        (* srv.wg.Add(1) *)
      handlerStep i HNew (fun _ => true) (setHpc HChecking) (wgAdd 1) s
  | HandlerCheck i =>                      (* srv.tomb.Err() != tomb.ErrStillAlive *)
      handlerStep i HChecking (fun _ => true)
        (fun h => if stillAlive (tomb s)
                  then setHpc HStarting h
                  else setHpc HLeaving h)
        (fun s' => s') s
  | HandlerStart i =>                      (* serveConn up to conn.Start() *)
      handlerStep i HStarting (fun _ => true)
        (fun h => {| hpc := HServing; served := true;
                     started := started h; completed := completed h |})
        (fun s' => s') s
  | HandlerRequest i =>                    (* a request is dispatched *)
      handlerStep i HServing connDispatches
        (fun h => {| hpc := hpc h; served := served h;
                     started := S (started h); completed := completed h |})
        (fun s' => s') s
  | HandlerReply i =>                      (* a request finishes *)
      match handlers s !! i with
      | Some h =>
          if connInFlight h
          then Some (setHandlers
                       (<[i := {| hpc := hpc h; served := served h;
                                  started := started h;
                                  completed := S (completed h) |}]> (handlers s)) s)
          else None
      | None => None
      end
  | HandlerConnDead i =>                   (* case <-conn.Dead() *)
      handlerStep i HServing connDead (setHpc HClosing) (fun s' => s') s
  | HandlerDying i =>                      (* case <-srv.tomb.Dying() *)
      handlerStep i HServing (fun _ => dying (tomb s)) (setHpc HClosing)
        (fun s' => s') s
  | HandlerCloseReturn i =>                (* conn.Close() returns *)
      handlerStep i HClosing connCloseReturns
        (setHpc HLeaving) (fun s' => s') s
  | HandlerDone i =>                       (* deferred srv.wg.Done() *)
      handlerStep i HLeaving (fun _ => true) (setHpc HExited) wgDone s
  (* the handlers of the log, charms and tools paths *)
  | OtherReturn =>                         (* ServeHTTP returns *)
      otherReturn s
  (* callers *)
  | CallStop =>                            (* Stop: srv.tomb.Kill(nil), then Wait *)
      Some (setCallers (callers s ++ [ {| stopper := true; cpc := CWaiting |} ])
              (kill None s))
  | CallKill =>                            (* Kill: srv.tomb.Kill(nil) *)
      Some (kill None s)
  | CallWait =>                            (* Wait: srv.tomb.Wait() *)
      Some (setCallers (callers s ++ [ {| stopper := false; cpc := CWaiting |} ]) s)
  | CallReturn i =>                        (* tomb.Wait() returns t.reason *)
      match callers s !! i with
      | Some c =>
          match cpc c with
          | CWaiting =>
              if dead (tomb s)
              then Some (setCallers
                           (<[i := {| stopper := stopper c;
                                      cpc := CReturned (reason (tomb s)) |}]> (callers s)) s)
              else None
          | CReturned _ => None
          end
      | None => None
      end
  end.

(** Running a schedule. *)
Fixpoint exec (sched : list Action) (s : ServerState) : option ServerState :=
  match sched with
  | [] => Some s
  | a :: rest =>
      match step a s with
      | Some s' => exec rest s'
      | None => None
      end
  end.

Definition reachable (s : ServerState) : Prop :=
  exists sched, exec sched init = Some s.

(** *** Vocabulary of the properties *)

(** The contribution of each thread to the counter of [srv.wg]: one
    from its [Add(1)] to its [Done()]. *)
Definition registered (h : Handler) : Z :=
  match hpc h with
  | HChecking | HStarting | HServing | HClosing | HLeaving => 1
  | HNew | HExited => 0
  end.

Definition wgHandlers (hs : list Handler) : Z :=
  foldr (fun h n => (registered h + n)%Z) 0%Z hs.

Definition wgWatcher (w : WatchPC) : Z :=
  match w with
  | WWait | WClose | WDone => 1
  | WNone | WExit => 0
  end.

Definition wgPinger (p : PingPC) : Z :=
  match p with
  | PNone | PExit _ => 0
  | PSelect | PPing | PReturned _ | PKilled _ => 1
  end.

(** What the program counter of a handler says about its record. *)
Definition handlerOk (h : Handler) : Prop :=
  match hpc h with
  | HNew | HChecking | HStarting =>
      served h = false /\ started h = 0%nat /\ completed h = 0%nat
  | HServing | HClosing => served h = true /\ (completed h <= started h)%nat
  | HLeaving | HExited =>
      completed h = started h /\ (served h = false -> started h = 0%nat)
  end.

(** The handler has found the tomb alive when it checked it: it is
    about to call [conn.Start()] or has called it. *)
Definition foundAlive (h : Handler) : Prop :=
  hpc h = HStarting \/ served h = true.

(** The handler, if it ever found the tomb alive, has finished every
    request dispatched on its connection and has exited. *)
Definition drained (h : Handler) : Prop :=
  foundAlive h -> hpc h = HExited /\ completed h = started h.

(** [h'] is a later state of the handler [h]: no request was lost,
    and what the handler found or did stays so. *)
Definition later (h h' : Handler) : Prop :=
  (started h <= started h')%nat /\ (completed h <= completed h')%nat
  /\ (served h = true -> served h' = true)
  /\ (foundAlive h -> foundAlive h').

(** The pinger has seen [session.Ping()] fail with [e]. *)
Definition pingFailed (p : PingPC) (e : error) : Prop :=
  p = PReturned (pingError e) \/ p = PKilled (pingError e) \/ p = PExit (pingError e).

(** The pinger has killed the tomb with the error of the failed ping. *)
Definition pingKilled (p : PingPC) (e : error) : Prop :=
  p = PKilled (pingError e) \/ p = PExit (pingError e).

(** The invariant of the reachable states. *)
Record Inv (s : ServerState) : Prop := {
  (* no thread has panicked *)
  inv_panic : panicked s = false;
  (* the counter of the wait group counts the registered threads *)
  inv_wg : wg s = (wgWatcher (watcher s) + wgPinger (pinger s)
                   + wgHandlers (handlers s))%Z;
  (* the tomb is alive exactly as long as its reason is ErrStillAlive *)
  inv_alive : dying (tomb s) = false <-> reason (tomb s) = Some ErrStillAlive;
  (* only run declares the tomb dead, as its last step *)
  inv_dead : dead (tomb s) = true -> runner s = RunExit;
  (* a reason that is an error is the error the pinger killed with *)
  inv_reason : forall err, reason (tomb s) = Some err ->
                 err = ErrStillAlive
                 \/ ((exists e, err = pingError e)
                     /\ (pinger s = PKilled err \/ pinger s = PExit err));
  inv_pinger :
    match pinger s with
    | PNone => runner s = RunStart \/ runner s = RunSpawned
    | PSelect | PPing => True
    | PReturned err =>
        (err = ErrDying /\ dying (tomb s) = true) \/ (exists e, err = pingError e)
    | PKilled err | PExit err =>
        dying (tomb s) = true
        /\ (err = ErrDying
            \/ ((exists e, err = pingError e) /\ reason (tomb s) = Some err))
    end;
  inv_spawned : (runner s = RunStart -> watcher s = WNone)
                /\ (runner s = RunStart \/ runner s = RunSpawned -> pinger s = PNone);
  inv_watcher :
    match watcher s with
    | WNone => runner s = RunStart
    | WWait => True
    | WClose | WDone | WExit => dying (tomb s) = true
    end;
  inv_handlers : Forall handlerOk (handlers s);
  (* once wg.Wait() has returned, the other threads are gone *)
  inv_waited : runner s = RunWaited \/ runner s = RunExit ->
               watcher s = WExit /\ (exists err, pinger s = PExit err)
               /\ dying (tomb s) = true /\ Forall drained (handlers s);
  inv_lis : runner s = RunWait \/ runner s = RunWaited \/ runner s = RunExit ->
            lisClosed s = true;
  (* a caller returns from tomb.Wait() with the reason of the dead tomb *)
  inv_callers : Forall (fun c => forall r, cpc c = CReturned r ->
                                   dead (tomb s) = true /\ r = reason (tomb s))
                  (callers s)
}.

(** A shutdown requested by [Stop()] while a request is in flight on
    the only connection: the request finishes, the handler leaves, and
    only then is the server dead and [Stop()] returns. *)
Definition drainRun : list Action :=
  [ RunSpawnWatcher; RunSpawnPinger; PingTimer; PingResult None;
    RunAccept; HandlerAdd 0; HandlerCheck 0; HandlerStart 0; HandlerRequest 0;
    CallStop; RunAccept; WatchDying; WatchCloseListener; WatchDone;
    HandlerAdd 1; HandlerCheck 1; HandlerDone 1;
    PingDying; PingKill; PingDone; RunServeReturn;
    HandlerDying 0; HandlerReply 0; HandlerCloseReturn 0; HandlerDone 0;
    RunWaitReturn; RunTombDone; CallReturn 0 ].

Definition drainFinal : ServerState :=
  {| tomb := {| dying := true; dead := true; reason := None |};
     wg := 0; lisClosed := true; runner := RunExit; watcher := WExit;
     pinger := PExit ErrDying;
     handlers := [ {| hpc := HExited; served := true; started := 1; completed := 1 |};
                   {| hpc := HExited; served := false; started := 0; completed := 0 |} ];
     others := 0;
     callers := [ {| stopper := true; cpc := CReturned None |} ];
     panicked := false |}.

(** A failing ping: the pinger kills the server, and [Wait()] returns
    the pinger's error once the server is dead. *)
Definition pingFailureRun (e : error) : list Action :=
  [ RunSpawnWatcher; RunSpawnPinger; CallWait; PingTimer; PingResult None;
    PingTimer; PingResult (Some e); PingKill; PingDone;
    WatchDying; WatchCloseListener; WatchDone; RunServeReturn;
    RunWaitReturn; RunTombDone; CallStop; CallReturn 0; CallReturn 1 ].

Definition pingFailureFinal (e : error) : ServerState :=
  {| tomb := {| dying := true; dead := true; reason := Some (pingError e) |};
     wg := 0; lisClosed := true; runner := RunExit; watcher := WExit;
     pinger := PExit (pingError e);
     handlers := []; others := 0;
     callers := [ {| stopper := false; cpc := CReturned (Some (pingError e)) |};
                  {| stopper := true; cpc := CReturned (Some (pingError e)) |} ];
     panicked := false |}.

End Lifecycle.

(* ===================================================================== *)
(** ** Login admission *)
(* ===================================================================== *)

Module Limiter.

(** A login request: the connection it arrived on and its request
    identifier. *)
Record Login := { conn : nat; req : nat }.

#[global] Instance Login_eq_dec : EqDecision Login.
Proof. solve_decision. Defined.

(** Modelled from the spec: [utils.Limiter] and the [Login] method that
    acquires it are not among the sources; the limiter is a
    bounded-capacity semaphore shared by all connections of the server:
    at most [capacity] logins are being serviced, and a login beyond
    the capacity blocks until a slot frees. *)
Record LimiterState := {
  capacity : nat;
  waiting : list Login;
  inService : list Login;
  finished : list Login
}.

(** [utils.NewLimiter(max)] *)
Definition NewLimiter (max : nat) : LimiterState :=
  {| capacity := max; waiting := []; inService := []; finished := [] |}.

(** The limiter [NewServer] creates and [serveConn] hands to every
    connection. *)
Definition serverLimiter : LimiterState := NewLimiter ApiServer.loginRateLimit.

Inductive Event :=
| Arrive (l : Login)        (* a login request arrives on some connection *)
| Admit (l : Login)         (* the login acquires a slot *)
| Finish (l : Login).       (* the login is done and releases its slot *)

Definition without (l : Login) (ls : list Login) : list Login :=
  filter (fun x => x <> l) ls.

Definition isIn (l : Login) (ls : list Login) : bool :=
  bool_decide (l ∈ ls).

Definition step (e : Event) (s : LimiterState) : option LimiterState :=
  match e with
  | Arrive l =>
      Some {| capacity := capacity s; waiting := waiting s ++ [l];
              inService := inService s; finished := finished s |}
  | Admit l =>
      if isIn l (waiting s) && (length (inService s) <? capacity s)%nat
      then Some {| capacity := capacity s; waiting := without l (waiting s);
                   inService := inService s ++ [l]; finished := finished s |}
      else None
  | Finish l =>
      if isIn l (inService s)
      then Some {| capacity := capacity s; waiting := waiting s;
                   inService := without l (inService s);
                   finished := finished s ++ [l] |}
      else None
  end.

Fixpoint exec (es : list Event) (s : LimiterState) : option LimiterState :=
  match es with
  | [] => Some s
  | e :: rest =>
      match step e s with
      | Some s' => exec rest s'
      | None => None
      end
  end.

(** The logins that arrived during a run. *)
Fixpoint arrivals (es : list Event) : list Login :=
  match es with
  | [] => []
  | Arrive l :: rest => l :: arrivals rest
  | _ :: rest => arrivals rest
  end.

(** The login is known to the limiter: waiting, in service or finished. *)
Definition known (s : LimiterState) (l : Login) : Prop :=
  l ∈ waiting s \/ l ∈ inService s \/ l ∈ finished s.

(** A reconnect storm: the first [n] connections each send a login. *)
Definition storm (n : nat) : list Login :=
  map (fun c => {| conn := c; req := 1 |}) (seq 0 n).

(** Eleven logins arrive and the first ten are admitted. *)
Definition sampleRun : list Event :=
  map Arrive (storm 11) ++ map Admit (storm 10).

End Limiter.


(* ===================================================================== *)
(** ** Vocabulary of the further properties *)
(* ===================================================================== *)

Module StateVocabulary.
Import Txn StatePkg.

(** What the next access to the store sees: the store as the other
    writers leave it just before the access. *)
Definition seen (env : nat -> Store -> Store) (w : World) : Store :=
  env (tick w) (store w).

(** The document [d] after the update of [setMeterStatusOp]. *)
Definition updated (d : Doc) (code info : string) : Doc :=
  <["info" := VStr info]> (<["code" := VStr code]> d).

(** The transaction is the one [setMeterStatusOp] builds for the unit
    [u], possibly refreshed, and the given code and info. *)
Definition setsStatusOf (u : Unit) (code info : string) (ops : list Op) : Prop :=
  exists u', st u' = st u /\ uDocID (doc u') = uDocID (doc u)
             /\ ops = setMeterStatusOp u' (st u') (globalKey u') code info.

End StateVocabulary.

Module Termination.
Import Lifecycle.

(** Further facts about the reachable states: the listener is closed
    exactly when the goroutine watching the tomb has closed it, and
    [run] has exited exactly when the tomb is dead. *)
Record Inv2 (s : ServerState) : Prop := {
  inv2_closed : lisClosed s = true <-> watcher s = WDone \/ watcher s = WExit;
  inv2_exit : runner s = RunExit -> dead (tomb s) = true
}.

(** The work the threads have left before the server is dead. *)
Definition workRun (pc : RunPC) : Z :=
  match pc with
  | RunStart => 20 | RunSpawned => 15 | RunServe => 10
  | RunWait => 2 | RunWaited => 1 | RunExit => 0
  end.

Definition workWatch (pc : WatchPC) : Z :=
  match pc with
  | WNone => 0 | WWait => 3 | WClose => 2 | WDone => 1 | WExit => 0
  end.

Definition workPing (pc : PingPC) : Z :=
  match pc with
  | PNone => 0 | PPing => 4 | PSelect => 3 | PReturned _ => 2
  | PKilled _ => 1 | PExit _ => 0
  end.

Definition workHandler (h : Handler) : Z :=
  match hpc h with
  | HNew => 0
  | HChecking => 2
  | HStarting => 4
  | HServing => 3 + (Z.of_nat (started h) - Z.of_nat (completed h))
  | HClosing => 2 + (Z.of_nat (started h) - Z.of_nat (completed h))
  | HLeaving => 1
  | HExited => 0
  end.

Definition workHandlers (hs : list Handler) : Z :=
  foldr (fun h n => (workHandler h + n)%Z) 0%Z hs.

Definition work (s : ServerState) : Z :=
  workRun (runner s) + workWatch (watcher s) + workPing (pinger s)
  + workHandlers (handlers s).

(** The actions of the handlers of the connections. *)
Definition isHandlerAction (a : Action) : Prop :=
  match a with
  | HandlerAdd _ | HandlerCheck _ | HandlerStart _
  | HandlerRequest _ | HandlerReply _
  | HandlerConnDead _ | HandlerDying _ | HandlerCloseReturn _ | HandlerDone _ => True
  | _ => False
  end.

End Termination.

(* ===================================================================== *)
(** * Properties *)
(* ===================================================================== *)

(** ** Request identifiers *)

Section NotifierFacts.
Import Notifier.

Lemma wrap64_range z : (minInt64 <= wrap64 z <= maxInt64)%Z.
Proof.
  unfold wrap64, minInt64, maxInt64.
  pose proof (Z.mod_pos_bound (z + 2^63) (2^64) ltac:(lia)). lia.
Qed.

Lemma wrap64_small z : (minInt64 <= z <= maxInt64)%Z -> wrap64 z = z.
Proof.
  unfold wrap64, minInt64, maxInt64. intros Hz.
  rewrite Z.mod_small by lia. lia.
Qed.

Lemma wrap64_succ z : wrap64 (wrap64 z + 1) = wrap64 (z + 1).
Proof.
  unfold wrap64.
  replace ((z + 2 ^ 63) mod 2 ^ 64 - 2 ^ 63 + 1 + 2 ^ 63)%Z
    with ((z + 2 ^ 63) mod 2 ^ 64 + 1)%Z by lia.
  replace (z + 1 + 2 ^ 63)%Z with ((z + 2 ^ 63) + 1)%Z by lia.
  rewrite Zplus_mod_idemp_l. reflexivity.
Qed.

Lemma wrap64_period z : wrap64 (z + 2^64) = wrap64 z.
Proof.
  unfold wrap64.
  replace (z + 2 ^ 64 + 2 ^ 63)%Z with ((z + 2 ^ 63) + 1 * 2 ^ 64)%Z by lia.
  rewrite Z_mod_plus_full. reflexivity.
Qed.

Lemma wrap64_eq_inv a b :
  wrap64 a = wrap64 b -> exists k : Z, (a - b = k * 2^64)%Z.
Proof.
  unfold wrap64. intros H.
  assert (Hm : ((a + 2^63) mod 2^64 = (b + 2^63) mod 2^64)%Z) by lia.
  exists ((a + 2^63) / 2^64 - (b + 2^63) / 2^64)%Z.
  pose proof (Z.div_mod (a + 2^63) (2^64) ltac:(lia)).
  pose proof (Z.div_mod (b + 2^63) (2^64) ltac:(lia)).
  lia.
Qed.

Lemma newRequestNotifier_id now g :
  id (fst (newRequestNotifier now g)) = wrap64 (g + 1)
  /\ snd (newRequestNotifier now g) = wrap64 (g + 1).
Proof. split; reflexivity. Qed.

Lemma counterAfter_spec n :
  counterAfter n 0 = wrap64 (Z.of_N n).
Proof.
  unfold counterAfter.
  induction n as [|n IH] using N.peano_ind.
  - reflexivity.
  - rewrite N.iter_succ, IH.
    destruct (newRequestNotifier_id 0 (wrap64 (Z.of_N n))) as [_ ->].
    rewrite wrap64_succ. f_equal. lia.
Qed.

Lemma nthId_spec n : (1 <= n)%N -> nthId n = wrap64 (Z.of_N n).
Proof.
  intros Hn. unfold nthId.
  destruct (newRequestNotifier_id 0 (counterAfter (N.pred n) 0)) as [-> _].
  rewrite counterAfter_spec, wrap64_succ. f_equal. lia.
Qed.

End NotifierFacts.

(** C8, as stated, fails once the 64-bit counter wraps around: call number
    [2^63] is handed the smallest [int64], which is below the identifier
    of the call before it, and call number [2^64 + 1] is handed the
    identifier of the first call again. *)
Lemma C8_counterexample_wraparound :
  Notifier.nthId (2^63 - 1) = Notifier.maxInt64
  /\ Notifier.nthId (2^63) = Notifier.minInt64
  /\ ~ (Notifier.nthId (2^63 - 1) < Notifier.nthId (2^63))%Z
  /\ Notifier.nthId (2^64 + 1) = Notifier.nthId 1.
Proof.
  rewrite !nthId_spec by (vm_compute; discriminate).
  repeat split; try (vm_compute; congruence).
Qed.

(** C8 (amended): the identifiers handed out by [newRequestNotifier] are
    strictly increasing over the first [2^63 - 1] calls of a process, and
    any two distinct calls that are fewer than [2^64] calls apart are
    handed different identifiers. *)
Theorem C8_ids_unique_until_wraparound (i j : N) :
  (1 <= i)%N -> (i < j)%N ->
  ((j <= 2^63 - 1)%N -> (Notifier.nthId i < Notifier.nthId j)%Z)
  /\ ((j - i < 2^64)%N -> Notifier.nthId i <> Notifier.nthId j).
Proof.
  intros Hi Hij.
  rewrite !nthId_spec by lia.
  split.
  - intros Hj.
    rewrite !wrap64_small
      by (unfold Notifier.minInt64, Notifier.maxInt64; lia).
    lia.
  - intros Hd Heq.
    apply wrap64_eq_inv in Heq. destruct Heq as [k Hk].
    assert (Hlt : (- 2^64 < Z.of_N i - Z.of_N j < 0)%Z) by lia.
    rewrite Hk in Hlt.
    assert (k = -1 \/ k = 0 \/ k < -1 \/ k > 0)%Z as [?|[?|[?|?]]] by lia;
      subst; nia.
Qed.

Lemma C8_ids_unique_witness :
  (Notifier.nthId 3 < Notifier.nthId 7)%Z /\ Notifier.nthId 3 <> Notifier.nthId 7.
Proof.
  destruct (C8_ids_unique_until_wraparound 3 7) as [H1 H2];
    [ vm_compute; discriminate | reflexivity | ].
  split; [ apply H1; vm_compute; discriminate | apply H2; reflexivity ].
Defined.

(** ** Starting the server and validating the tenant scope *)

Section ApiServerFacts.
Import ApiServer.

Context {Listener Certificate State : Type}.
Variable netListen : string -> result Listener.
Variable lisAddr : Listener -> string.
Variable X509KeyPair : list Byte.byte -> list Byte.byte -> result Certificate.
Variable stateEnvironment : State -> result string.
Variable commonServerError : error -> option error.

Lemma bindable_dec address :
  {lis | netListen address = Ok lis} + {~ bindable netListen address}.
Proof.
  destruct (netListen address) as [lis|e] eqn:E.
  - left. exists lis. reflexivity.
  - right. intros [lis H]. congruence.
Qed.

Lemma validKeyPair_dec cert key :
  {c | X509KeyPair cert key = Ok c} + {~ validKeyPair X509KeyPair cert key}.
Proof.
  destruct (X509KeyPair cert key) as [c|e] eqn:E.
  - left. exists c. reflexivity.
  - right. intros [c H]. congruence.
Qed.

Lemma String_eqb_false a b : a <> b -> String.eqb a b = false.
Proof. intros H. apply String.eqb_neq. exact H. Qed.

Lemma validate_empty (srv : Server State) :
  validateEnvironUUID stateEnvironment srv "" = (None, srv).
Proof. reflexivity. Qed.

Lemma validate_mismatch (srv : Server State) envUUID scope :
  resolvedScope stateEnvironment srv = Some scope ->
  envUUID <> "" -> envUUID <> scope ->
  validateEnvironUUID stateEnvironment srv envUUID
  = (Some (UnknownEnvironmentError envUUID), setEnvironUUID srv scope).
Proof.
  intros Hres Hne Hdiff.
  unfold validateEnvironUUID, resolvedScope in *.
  rewrite (String_eqb_false _ _ Hne).
  destruct (String.eqb (environUUID srv) "") eqn:Hc.
  - destruct (stateEnvironment (state srv)) as [uuid|e]; [|discriminate].
    injection Hres as ->. simpl.
    rewrite (String_eqb_false _ _ Hdiff). reflexivity.
  - injection Hres as <-.
    rewrite (String_eqb_false _ _ Hdiff). simpl.
    destruct srv; reflexivity.
Qed.

End ApiServerFacts.

(** C9: [NewServer] returns an error, and no server, exactly when the
    address cannot be bound or the certificate and key do not form a valid
    pair; for an address that can be bound and a valid pair it returns a
    server and no error. *)
Theorem C9_NewServer_fails_iff_unbindable_or_bad_keypair
    (Listener Certificate State : Type)
    (netListen : string -> result Listener) (lisAddr : Listener -> string)
    (X509KeyPair : list Byte.byte -> list Byte.byte -> result Certificate)
    (s : State) (address : string) (cert key : list Byte.byte)
    (datadir logdir : string) :
  let r := ApiServer.NewServer netListen lisAddr X509KeyPair s address cert key
             datadir logdir in
  let srv := fst (fst r) in
  let err := snd (fst r) in
  (is_Some err <->
     ~ ApiServer.bindable netListen address
     \/ ~ ApiServer.validKeyPair X509KeyPair cert key)
  /\ (is_Some err <-> srv = None)
  /\ (ApiServer.bindable netListen address ->
      ApiServer.validKeyPair X509KeyPair cert key ->
      is_Some srv /\ err = None).
Proof.
  cbv zeta. unfold ApiServer.NewServer.
  destruct (bindable_dec netListen address) as [[lis Hl]|Hnb].
  - rewrite Hl.
    destruct (validKeyPair_dec X509KeyPair cert key) as [[c Hc]|Hnv].
    + rewrite Hc. simpl. repeat split.
      * intros [e He]. discriminate.
      * intros [Hb|Hv]; exfalso; [apply Hb; eexists | apply Hv; eexists]; eauto.
      * intros [e He]. discriminate.
      * discriminate.
      * eauto.
    + destruct (X509KeyPair cert key) as [c|e] eqn:Hc.
      { exfalso. apply Hnv. exists c. exact Hc. }
      simpl. repeat split; eauto; try tauto.
  - destruct (netListen address) as [lis|e] eqn:Hl.
    { exfalso. apply Hnb. exists lis. exact Hl. }
    simpl. repeat split; eauto; try tauto.
Qed.

(** C4: a request whose tenant scope is not empty and differs from the
    scope the server resolves to is failed with the unknown-environment
    error, which is not an authorization error: [validateEnvironUUID]
    returns it, [serveConn] serves an error root made of it, and every
    call on that root yields it; a request with an empty scope is
    admitted and served by the state server. *)
Theorem C4_scope_mismatch_is_unknown_environment
    (State : Type) (stateEnvironment : State -> result string)
    (commonServerError : error -> option error)
    (srv : ApiServer.Server State) (envUUID scope : string) :
  ApiServer.resolvedScope stateEnvironment srv = Some scope ->
  envUUID <> "" -> envUUID <> scope ->
  (fst (ApiServer.validateEnvironUUID stateEnvironment srv envUUID)
     = Some (UnknownEnvironmentError envUUID)
   /\ fst (ApiServer.serveConn stateEnvironment srv envUUID)
      = ApiServer.errRoot (UnknownEnvironmentError envUUID)
   /\ (forall (Req Reply : Type) (facade : Req -> result Reply) (req : Req),
         ApiServer.rootCall commonServerError facade
           (fst (ApiServer.serveConn stateEnvironment srv envUUID)) req
         = inr (ApiServer.serverError commonServerError
                  (UnknownEnvironmentError envUUID)))
   /\ UnknownEnvironmentError envUUID <> ErrPerm
   /\ UnknownEnvironmentError envUUID <> ErrBadCreds)
  /\ (ApiServer.validateEnvironUUID stateEnvironment srv "" = (None, srv)
      /\ ApiServer.serveConn stateEnvironment srv ""
         = (ApiServer.stateServer (ApiServer.limiter srv), srv)).
Proof.
  intros Hres Hne Hdiff.
  pose proof (validate_mismatch stateEnvironment srv envUUID scope Hres Hne Hdiff) as Hv.
  assert (Hs : fst (ApiServer.serveConn stateEnvironment srv envUUID)
               = ApiServer.errRoot (UnknownEnvironmentError envUUID)).
  { unfold ApiServer.serveConn. rewrite Hv. reflexivity. }
  split; [|split; reflexivity].
  split; [rewrite Hv; reflexivity|].
  split; [exact Hs|].
  split; [intros; rewrite Hs; reflexivity|].
  split; discriminate.
Qed.

Lemma C4_scope_mismatch_witness :
  let env := fun _ : unit => Ok "env-1" in
  let srv := {| ApiServer.state := tt; ApiServer.environUUID := "";
                ApiServer.addr := "localhost:17070"; ApiServer.dataDir := "/d";
                ApiServer.logDir := "/l"; ApiServer.limiter := 10 |} in
  fst (ApiServer.validateEnvironUUID env srv "env-2")
  = Some (UnknownEnvironmentError "env-2")
  /\ ApiServer.validateEnvironUUID env srv "" = (None, srv).
Proof.
  intros env srv.
  assert (H1 : ApiServer.resolvedScope env srv = Some "env-1") by reflexivity.
  assert (H2 : "env-2" <> "") by discriminate.
  assert (H3 : "env-2" <> "env-1") by discriminate.
  pose proof (C4_scope_mismatch_is_unknown_environment unit env (fun e => Some e)
                srv "env-2" "env-1" H1 H2 H3) as [[Ha _] [Hb _]].
  split; [exact Ha | exact Hb].
Defined.

(** ** Requested networks and meter status *)

Section StateFacts.
Import Txn StatePkg.

Variable env : nat -> Store -> Store.
Variable fault : nat -> option error.

Lemma FindId_missing c id w :
  fault (tick w) = None ->
  env (tick w) (store w) !! (c, id) = None ->
  FindId env fault c id w = (Err ErrNotFound, access env w).
Proof.
  intros Hf Hm. unfold FindId. rewrite Hf. simpl. rewrite Hm. reflexivity.
Qed.

Lemma FindId_log c id w : log (snd (FindId env fault c id w)) = log w.
Proof.
  unfold FindId. destruct (fault (tick w)); [reflexivity|].
  destruct (store (access env w) !! (c, id)); reflexivity.
Qed.

Lemma readRequestedNetworks_log st id w :
  log (snd (readRequestedNetworks env fault st id w)) = log w.
Proof.
  unfold readRequestedNetworks.
  pose proof (FindId_log (requestedNetworks st) id w) as H.
  destruct (FindId env fault (requestedNetworks st) id w) as [[d|e] w'];
    simpl in *; [exact H|].
  destruct e; exact H.
Qed.

Lemma not_logged_same w w' : log w' = log w -> ~ logged w w'.
Proof.
  intros H (e & es & He). rewrite H in He.
  apply (f_equal (@length _)) in He. rewrite length_app in He. simpl in He. lia.
Qed.

End StateFacts.

(** C7, as stated, fails in its last part: reading the requested networks
    of an id without a document returns no data and no error, but nothing
    is written to the log. *)
Lemma C7_counterexample_silent :
  let st := {| StatePkg.EnvironUUID := "env-1";
               StatePkg.requestedNetworks := "requestednetworks" |} in
  let r := StatePkg.readRequestedNetworks StatePkg.quiet StatePkg.noFault st "m#0"
             StatePkg.emptyWorld in
  fst r = ([], None)
  /\ Txn.log (snd r) = []
  /\ ~ StatePkg.logged StatePkg.emptyWorld (snd r).
Proof.
  cbv zeta. split; [reflexivity|]. split; [reflexivity|].
  apply not_logged_same. reflexivity.
Qed.

(** C7 (amended): for every id, [readRequestedNetworks] on a missing
    requested-networks document returns no data and no error; it makes
    this one store access and writes nothing to the log. *)
Theorem C7_missing_requested_networks_is_absent
    (env : nat -> gmap (string * string) (gmap string Txn.Value)
           -> gmap (string * string) (gmap string Txn.Value))
    (fault : nat -> option error)
    (st : StatePkg.State) (id : string) (w : Txn.World) :
  fault (Txn.tick w) = None ->
  env (Txn.tick w) (Txn.store w) !! (StatePkg.requestedNetworks st, id) = None ->
  StatePkg.readRequestedNetworks env fault st id w = ([], None, Txn.access env w)
  /\ Txn.log (Txn.access env w) = Txn.log w
  /\ ~ StatePkg.logged w (snd (StatePkg.readRequestedNetworks env fault st id w)).
Proof.
  intros Hf Hm.
  split.
  - unfold StatePkg.readRequestedNetworks.
    rewrite (FindId_missing env fault _ _ _ Hf Hm). reflexivity.
  - split; [reflexivity|].
    apply not_logged_same. apply readRequestedNetworks_log.
Qed.

Lemma C7_missing_requested_networks_witness :
  StatePkg.readRequestedNetworks StatePkg.quiet StatePkg.noFault
    {| StatePkg.EnvironUUID := "env-1"; StatePkg.requestedNetworks := "requestednetworks" |}
    "s#wordpress" StatePkg.emptyWorld
  = ([], None, Txn.access StatePkg.quiet StatePkg.emptyWorld).
Proof.
  refine (proj1 (C7_missing_requested_networks_is_absent StatePkg.quiet StatePkg.noFault
                   _ "s#wordpress" StatePkg.emptyWorld _ _)); reflexivity.
Defined.

Section MeterStatusOps.
Import Txn StatePkg.

Variable u : Unit.
Variable st : State.
Variable globalKey : string.
Variable code : MeterStatusCode.
Variable info : string.

Let unitKey : string * string := (unitsC, uDocID (doc u)).
Let meterKey : string * string := (meterStatusC, docID st globalKey).

Lemma keys_differ : unitKey <> meterKey.
Proof. unfold unitKey, meterKey, unitsC, meterStatusC. intros H. discriminate. Qed.

Lemma check_alive (s : Store) :
  checkAssert s {| C := unitsC; Id := uDocID (doc u); Assert := Some isAliveDoc;
                   Insert := None; Update := None; Remove := false |} = true
  <-> unitAlive s u.
Proof.
  unfold checkAssert, unitAlive, isAliveDoc. simpl.
  destruct (s !! (unitsC, uDocID (doc u))) as [d|] eqn:Hd.
  - unfold matches. simpl. rewrite andb_true_r, bool_decide_eq_true.
    split.
    + intros H. exists d. split; [reflexivity | exact H].
    + intros (d' & Heq & H). injection Heq as <-. exact H.
  - split; [discriminate|]. intros (d' & Heq & _). discriminate.
Qed.

Lemma check_exists (s : Store) asrtUpdate :
  checkAssert s {| C := meterStatusC; Id := docID st globalKey;
                   Assert := Some DocExists; Insert := None;
                   Update := asrtUpdate; Remove := false |} = true
  <-> meterDocExists s st globalKey.
Proof.
  unfold checkAssert, meterDocExists. simpl. apply bool_decide_eq_true.
Qed.

(** What a transaction made of [setMeterStatusOp] does to a store. *)
Lemma applyOps_setMeterStatusOp (s : Store) :
  (unitAlive s u /\ exists d, s !! meterKey = Some d
     /\ applyOps s (setMeterStatusOp u st globalKey code info)
        = Ok (<[meterKey := <["info" := VStr info]> (<["code" := VStr code]> d)]> s))
  \/ ((~ unitAlive s u \/ ~ meterDocExists s st globalKey)
      /\ applyOps s (setMeterStatusOp u st globalKey code info) = Err ErrAborted).
Proof.
  unfold applyOps, setMeterStatusOp. cbn [forallb].
  destruct (checkAssert s _) eqn:Ha.
  - apply check_alive in Ha.
    destruct (checkAssert s _) eqn:He.
    + pose proof He as He'. apply check_exists in He'. destruct He' as [d Hd].
      left. split; [exact Ha|]. exists d. split; [exact Hd|].
      cbn. unfold applyChange. cbn. rewrite Hd. reflexivity.
    + right. split; [|reflexivity]. right. intros H.
      apply (proj2 (check_exists s
               (Some (Set_ [("code", VStr code); ("info", VStr info)])))) in H.
      congruence.
  - right. split; [|reflexivity]. left. intros H.
    apply (proj2 (check_alive s)) in H. congruence.
Qed.

Lemma removed_not_alive (s s' : Store) (a : option Assertion) :
  applyOps s [removeUnitOp u a] = Ok s' -> ~ unitAlive s' u.
Proof.
  unfold applyOps. cbn [forallb].
  destruct (checkAssert s (removeUnitOp u a) && true); [|discriminate].
  cbn. unfold applyChange. cbn. intros H. injection H as <-.
  intros (d & Hd & _). rewrite lookup_delete_eq in Hd. discriminate.
Qed.

End MeterStatusOps.

(** C2: the operations of [setMeterStatusOp] are an assertion that the
    unit's document is alive and an update of the meter-status document
    under the assertion that it exists.  In a store where the unit's
    document is missing or not alive, or the meter-status document is
    missing, the transaction is aborted and changes nothing; so it is
    after any transaction that removed the unit's document.  When it
    commits, the unit was alive and only the code and info of the
    meter-status document change. *)
Theorem C2_setMeterStatusOp_asserts_alive_and_exists
    (u : StatePkg.Unit) (st : StatePkg.State) (globalKey : string)
    (code : StatePkg.MeterStatusCode) (info : string)
    (s : gmap (string * string) (gmap string Txn.Value)) :
  let ops := StatePkg.setMeterStatusOp u st globalKey code info in
  let meterKey := (StatePkg.meterStatusC, StatePkg.docID st globalKey) in
  (exists a b, ops = [a; b]
     /\ Txn.C a = StatePkg.unitsC /\ Txn.Id a = StatePkg.uDocID (StatePkg.doc u)
     /\ Txn.Assert a = Some StatePkg.isAliveDoc
     /\ Txn.Update a = None /\ Txn.Insert a = None /\ Txn.Remove a = false
     /\ Txn.C b = StatePkg.meterStatusC /\ Txn.Id b = StatePkg.docID st globalKey
     /\ Txn.Assert b = Some Txn.DocExists
     /\ Txn.Update b
        = Some (Txn.Set_ [("code", Txn.VStr code); ("info", Txn.VStr info)]))
  /\ (~ StatePkg.unitAlive s u \/ ~ StatePkg.meterDocExists s st globalKey ->
      Txn.applyOps s ops = Err ErrAborted)
  /\ (forall a s', Txn.applyOps s [StatePkg.removeUnitOp u a] = Ok s' ->
        Txn.applyOps s' ops = Err ErrAborted)
  /\ (forall env fault w,
        fault (Txn.tick w) = None ->
        ~ StatePkg.unitAlive (env (Txn.tick w) (Txn.store w)) u ->
        fst (Txn.commit env fault ops w) = Some ErrAborted
        /\ Txn.store (snd (Txn.commit env fault ops w))
           = env (Txn.tick w) (Txn.store w))
  /\ (forall s', Txn.applyOps s ops = Ok s' ->
        StatePkg.unitAlive s u
        /\ exists d, s !! meterKey = Some d
           /\ s' = <[meterKey := <["info" := Txn.VStr info]>
                                   (<["code" := Txn.VStr code]> d)]> s).
Proof.
  cbv zeta.
  assert (Habort : forall s0, ~ StatePkg.unitAlive s0 u
                              \/ ~ StatePkg.meterDocExists s0 st globalKey ->
            Txn.applyOps s0 (StatePkg.setMeterStatusOp u st globalKey code info)
            = Err ErrAborted).
  { intros s0 Hbad.
    destruct (applyOps_setMeterStatusOp u st globalKey code info s0)
      as [(Ha & d & Hd & _)|[_ H]]; [|exact H].
    destruct Hbad as [Hn|Hn]; [contradiction|].
    exfalso. apply Hn. exists d. exact Hd. }
  split.
  { eexists _, _. split; [reflexivity|]. repeat split. }
  split; [apply Habort|].
  split.
  { intros a s' Hrm. apply Habort. left.
    eapply removed_not_alive. exact Hrm. }
  split.
  { intros env fault w Hf Hdead. unfold Txn.commit. rewrite Hf.
    cbn [Txn.access Txn.store].
    rewrite (Habort _ (or_introl Hdead)). split; reflexivity. }
  intros s' Hok.
  destruct (applyOps_setMeterStatusOp u st globalKey code info s)
    as [(Ha & d & Hd & Heq)|[_ H]]; [|congruence].
  split; [exact Ha|]. exists d. split; [exact Hd|]. congruence.
Qed.

Section AllUnitsFacts.
Import Txn StatePkg.

Variable env : nat -> Store -> Store.
Variable fault : nat -> option error.
Variable servicesOf : State -> Store -> result (list Service).
Variable unitsOf : Service -> Store -> result (list Unit).

Lemma validCode_false code :
  code <> MeterGreen -> code <> MeterAmber -> code <> MeterRed ->
  validCode code = false.
Proof.
  intros Hg Ha Hr. unfold validCode.
  rewrite (proj2 (String.eqb_neq _ _) Hg), (proj2 (String.eqb_neq _ _) Ha),
    (proj2 (String.eqb_neq _ _) Hr).
  reflexivity.
Qed.

Lemma AllServices_submitted st w :
  submitted (snd (AllServices env fault servicesOf st w)) = submitted w.
Proof. unfold AllServices. destruct (fault (tick w)); reflexivity. Qed.

Lemma AllUnits_submitted svc w :
  submitted (snd (AllUnits env fault unitsOf svc w)) = submitted w.
Proof. unfold AllUnits. destruct (fault (tick w)); reflexivity. Qed.

(** The loop gathers the operations of every unit it visits, in
    order, and submits nothing itself. *)
Lemma gatherOps_spec st code info services :
  forall ops w ops' w',
    gatherOps env fault unitsOf st code info services ops w = (Ok ops', w') ->
    ops' = ops ++ flat_map (fun unit => setMeterStatusOp unit st (globalKey unit) code info)
                    (visitedUnits env fault unitsOf services w)
    /\ submitted w' = submitted w.
Proof.
  induction services as [|svc rest IH]; intros ops w ops' w' H; simpl in *.
  - injection H as <- <-. rewrite app_nil_r. split; reflexivity.
  - pose proof (AllUnits_submitted svc w) as Hs.
    destruct (AllUnits env fault unitsOf svc w) as [[units|e] w1]; [|discriminate].
    apply IH in H. destruct H as [-> Hsub].
    rewrite flat_map_app, app_assoc. simpl in Hs. split; congruence.
Qed.

(** When no access to the store fails and the units of every service
    can be listed, the loop ends with the operations of all the
    units, after one access to the store for each service. *)
Lemma gatherOps_reads st code info (unitsFor : Service -> list Unit) :
  (forall t, fault t = None) ->
  (forall svc s, unitsOf svc s = Ok (unitsFor svc)) ->
  forall services ops w,
    gatherOps env fault unitsOf st code info services ops w
    = (Ok (ops ++ flat_map
                    (fun unit => setMeterStatusOp unit st (globalKey unit) code info)
                    (flat_map unitsFor services)),
       Nat.iter (length services) (access env) w).
Proof.
  intros Hf Hu. induction services as [|svc rest IH]; intros ops w.
  - simpl. rewrite app_nil_r. reflexivity.
  - cbn [gatherOps]. unfold AllUnits. rewrite Hf, Hu, IH.
    cbn [flat_map length]. rewrite flat_map_app, app_assoc, Nat.iter_succ_r.
    reflexivity.
Qed.

Lemma commit_submitted ops w :
  submitted (snd (commit env fault ops w)) = submitted w ++ [ops].
Proof.
  unfold commit. destruct (fault (tick w)); [reflexivity|].
  destruct (applyOps _ ops); reflexivity.
Qed.

End AllUnitsFacts.

(** C10: for a code other than GREEN, AMBER and RED (NOT SET and NOT
    AVAILABLE are such codes) [SetMeterStatus] returns the invalid meter
    status error with the unit and the world as they were: no store
    access is made and nothing is submitted.  [SetMeterStatusOnAllUnits]
    does not look at the code: when no access to the store fails and
    the services and their units can be listed, it hands to the
    engine, as one transaction, the operations of [setMeterStatusOp]
    for every unit of every service; each unit's update sets the raw
    code, and the transaction is submitted as soon as there is a
    unit. *)
Theorem C10_SetMeterStatus_rejects_invalid_code
    (env : nat -> gmap (string * string) (gmap string Txn.Value)
           -> gmap (string * string) (gmap string Txn.Value))
    (fault : nat -> option error) (nrRetries : nat)
    (servicesOf : StatePkg.State -> gmap (string * string) (gmap string Txn.Value)
                  -> result (list StatePkg.Service))
    (unitsOf : StatePkg.Service -> gmap (string * string) (gmap string Txn.Value)
               -> result (list StatePkg.Unit))
    (code info : string) (u : StatePkg.Unit) (st : StatePkg.State) (w : Txn.World) :
  code <> StatePkg.MeterGreen -> code <> StatePkg.MeterAmber ->
  code <> StatePkg.MeterRed ->
  StatePkg.SetMeterStatus env fault nrRetries code info u w
  = (Some (Errorf "invalid meter status %q" [code]), u, w)
  /\ StatePkg.validCode StatePkg.MeterNotSet = false
  /\ StatePkg.validCode StatePkg.MeterNotAvailable = false
  /\ (forall services (unitsFor : StatePkg.Service -> list StatePkg.Unit),
        (forall t, fault t = None) ->
        servicesOf st (Txn.store (Txn.access env w)) = Ok services ->
        (forall svc s, unitsOf svc s = Ok (unitsFor svc)) ->
        let units := flat_map unitsFor services in
        let ops := flat_map (fun unit => StatePkg.setMeterStatusOp unit st
                                           (StatePkg.globalKey unit) code info) units in
        let w2 := Nat.iter (S (length services)) (Txn.access env) w in
        let r := StatePkg.SetMeterStatusOnAllUnits env fault servicesOf unitsOf
                   st code info w in
        r = (annotatef (fst (Txn.runTransaction env fault ops w2))
               "cannot set meter state for all units" [],
             snd (Txn.runTransaction env fault ops w2))
        /\ (forall unit, In unit units ->
              In {| Txn.C := StatePkg.meterStatusC;
                    Txn.Id := StatePkg.docID st (StatePkg.globalKey unit);
                    Txn.Assert := Some Txn.DocExists; Txn.Insert := None;
                    Txn.Update := Some (Txn.Set_ [("code", Txn.VStr code);
                                                  ("info", Txn.VStr info)]);
                    Txn.Remove := false |} ops)
        /\ (units <> [] -> Txn.submitted (snd r) = Txn.submitted w ++ [ops])).
Proof.
  intros Hg Ha Hr.
  split.
  { unfold StatePkg.SetMeterStatus.
    rewrite (validCode_false code Hg Ha Hr). reflexivity. }
  split; [reflexivity|]. split; [reflexivity|].
  intros services unitsFor Hf Hsvc Hu. cbv zeta.
  set (units := flat_map unitsFor services).
  set (ops := flat_map (fun unit => StatePkg.setMeterStatusOp unit st
                                      (StatePkg.globalKey unit) code info) units).
  set (w2 := Nat.iter (S (length services)) (Txn.access env) w).
  assert (Hrun : StatePkg.SetMeterStatusOnAllUnits env fault servicesOf unitsOf st code info w
                 = (annotatef (fst (Txn.runTransaction env fault ops w2))
                      "cannot set meter state for all units" [],
                    snd (Txn.runTransaction env fault ops w2))).
  { unfold StatePkg.SetMeterStatusOnAllUnits, StatePkg.AllServices.
    rewrite Hf, Hsvc.
    rewrite (gatherOps_reads env fault unitsOf st code info unitsFor Hf Hu).
    cbn [app]. fold units. fold ops.
    replace (Nat.iter (length services) (Txn.access env) (Txn.access env w)) with w2
      by (unfold w2; rewrite Nat.iter_succ_r; reflexivity).
    destruct (Txn.runTransaction env fault ops w2); reflexivity. }
  split; [exact Hrun|]. split.
  - intros unit Hin. unfold ops. apply in_flat_map.
    exists unit. split; [exact Hin|]. right. left. reflexivity.
  - intros Hne. rewrite Hrun. cbn [snd].
    assert (Hsub : Txn.submitted w2 = Txn.submitted w).
    { unfold w2. generalize (S (length services)). intros n.
      induction n as [|n IHn]; [reflexivity|]. cbn [Nat.iter]. exact IHn. }
    assert (Hops : ops <> []).
    { unfold ops. destruct units as [|x xs]; [congruence|]. discriminate. }
    destruct ops as [|op ops']; [congruence|].
    unfold Txn.runTransaction. rewrite commit_submitted. congruence.
Qed.

(** The code NOT SET is rejected by [SetMeterStatus] and written to
    the store by [SetMeterStatusOnAllUnits]. *)
Lemma C10_SetMeterStatus_rejects_witness :
  let u := StatePkg.sampleUnit in
  let w := StatePkg.worldOf (StatePkg.sampleStore StatePkg.Alive "GREEN" "") in
  let servicesOf := fun (_ : StatePkg.State) (_ : gmap (string * string) (gmap string Txn.Value))
                    => Ok [ {| StatePkg.svcName := "wordpress" |} ] in
  let unitsOf := fun (_ : StatePkg.Service) (_ : gmap (string * string) (gmap string Txn.Value))
                 => Ok [u] in
  let r := StatePkg.SetMeterStatusOnAllUnits StatePkg.quiet StatePkg.noFault
             servicesOf unitsOf (StatePkg.st u) "NOT SET" "" w in
  StatePkg.SetMeterStatus StatePkg.quiet StatePkg.noFault 3 "NOT SET" "" u w
  = (Some (Errorf "invalid meter status %q" ["NOT SET"]), u, w)
  /\ fst r = None
  /\ Txn.submitted (snd r)
     = [ StatePkg.setMeterStatusOp u (StatePkg.st u) (StatePkg.globalKey u) "NOT SET" "" ]
  /\ fst (StatePkg.GetMeterStatus StatePkg.quiet StatePkg.noFault u (snd r))
     = ("NOT SET", "", None).
Proof.
  intros u w servicesOf unitsOf r.
  assert (H1 : "NOT SET" <> StatePkg.MeterGreen) by discriminate.
  assert (H2 : "NOT SET" <> StatePkg.MeterAmber) by discriminate.
  assert (H3 : "NOT SET" <> StatePkg.MeterRed) by discriminate.
  destruct (C10_SetMeterStatus_rejects_invalid_code StatePkg.quiet StatePkg.noFault 3
              servicesOf unitsOf "NOT SET" "" u (StatePkg.st u) w H1 H2 H3)
    as (Hset & _ & _ & Hall).
  assert (Hf : forall t, StatePkg.noFault t = None) by reflexivity.
  assert (Hs : servicesOf (StatePkg.st u) (Txn.store (Txn.access StatePkg.quiet w))
               = Ok [ {| StatePkg.svcName := "wordpress" |} ]) by reflexivity.
  assert (Hu : forall svc s, unitsOf svc s = Ok ((fun _ => [u]) svc)) by reflexivity.
  destruct (Hall _ (fun _ => [u]) Hf Hs Hu) as (Hr & _ & Hsub).
  split; [exact Hset|].
  split; [unfold r; rewrite Hr; vm_compute; reflexivity|].
  split; [apply Hsub; discriminate|].
  unfold r. rewrite Hr. vm_compute. reflexivity.
Defined.

Section SetMeterStatusFacts.
Import Txn StatePkg.

Variable env : nat -> Store -> Store.
Variable fault : nat -> option error.
Variable nrRetries : nat.

Lemma FindId_submitted c id w :
  submitted (snd (FindId env fault c id w)) = submitted w.
Proof.
  unfold FindId. destruct (fault (tick w)); [reflexivity|].
  destruct (store (access env w) !! (c, id)); reflexivity.
Qed.

Lemma getMeterStatusDoc_submitted u w :
  submitted (snd (getMeterStatusDoc env fault u w)) = submitted w.
Proof.
  unfold getMeterStatusDoc, envFindId.
  pose proof (FindId_submitted meterStatusC (docID (st u) (globalKey u)) w) as H.
  destruct (FindId env fault meterStatusC (docID (st u) (globalKey u)) w) as [[d|e] w'];
    exact H.
Qed.

Lemma Refresh_submitted u w :
  submitted (snd (Refresh env fault u w)) = submitted w.
Proof.
  unfold Refresh.
  pose proof (FindId_submitted unitsC (uDocID (doc u)) w) as H.
  destruct (FindId env fault unitsC (uDocID (doc u)) w) as [[d|e] w']; exact H.
Qed.

(** On a retry, a re-read that finds the requested status makes the
    closure signal that there is nothing to do. *)
Lemma buildTxn_retry_no_operations code info attempt u w u' w1 m w2 :
  Refresh env fault u w = (None, u', w1) ->
  getMeterStatusDoc env fault u' w1 = (Ok m, w2) ->
  sameStatus m code info = true ->
  buildTxn env fault code info (S attempt) u w = (Err ErrNoOperations, u', w2)
  /\ submitted w2 = submitted w.
Proof.
  intros Hr Hg Hs. split.
  - simpl. rewrite Hr, Hg, Hs. reflexivity.
  - pose proof (Refresh_submitted u w) as H1.
    pose proof (getMeterStatusDoc_submitted u' w1) as H2.
    rewrite Hr in H1. rewrite Hg in H2. simpl in *. congruence.
Qed.

(** The engine turns the sentinel into success, submitting nothing. *)
Lemma runFrom_no_operations {S : Type}
    (buildOps : nat -> S -> World -> result (list Op) * S * World)
    fuel attempt s w s' w' :
  buildOps attempt s w = (Err ErrNoOperations, s', w') ->
  runFrom env fault buildOps (Datatypes.S fuel) attempt s w = (None, s', w').
Proof. intros H. simpl. rewrite H. reflexivity. Qed.

(** An aborted transaction makes the engine try again. *)
Lemma runFrom_aborted {S : Type}
    (buildOps : nat -> S -> World -> result (list Op) * S * World)
    fuel attempt s w ops s' w' w'' :
  buildOps attempt s w = (Ok ops, s', w') ->
  runTransaction env fault ops w' = (Some ErrAborted, w'') ->
  runFrom env fault buildOps (Datatypes.S fuel) attempt s w
  = runFrom env fault buildOps fuel (Datatypes.S attempt) s' w''.
Proof. intros Hb Hr. simpl. rewrite Hb, Hr. reflexivity. Qed.

End SetMeterStatusFacts.

(** C3, as stated, fails in each of these cases, in all of which the
    stored code and info are the requested ones when [SetMeterStatus]
    looks, or would look, at them:
    - the code is one [SetMeterStatus] does not accept: a unit whose
      stored code and info are "NOT SET" and "" is not set to "NOT SET"
      and "" with success, the call is an error;
    - the first read of the meter status fails: the call is an error,
      though the store holds the requested GREEN;
    - on the retry the unit's document is gone, so the refresh fails:
      the call is an error, though the store holds the requested GREEN;
    - on the retry the re-read of the meter status fails: the call is
      an error, though the store holds the requested GREEN. *)
Lemma C3_counterexample_target_holds_yet_error :
  let u := StatePkg.sampleUnit in
  let stored := fun w => fst (StatePkg.GetMeterStatus StatePkg.quiet StatePkg.noFault u w) in
  let failAt := fun (n t : nat) =>
                  if (t =? n)%nat then Some (ExternalError "EOF") else None in
  let remover := fun (t : nat) (s : gmap (string * string) (gmap string Txn.Value)) =>
                   if (t =? 1)%nat
                   then delete (StatePkg.unitsC, "env-1:wordpress/0")
                          (StatePkg.sampleStore StatePkg.Alive "GREEN" "")
                   else s in
  (let w := StatePkg.worldOf (StatePkg.sampleStore StatePkg.Alive "NOT SET" "") in
   stored w = ("NOT SET", "", None)
   /\ fst (fst (StatePkg.SetMeterStatus StatePkg.quiet StatePkg.noFault 3 "NOT SET" "" u w))
      = Some (Errorf "invalid meter status %q" ["NOT SET"]))
  /\ (let w := StatePkg.worldOf (StatePkg.sampleStore StatePkg.Alive "GREEN" "") in
      stored w = ("GREEN", "", None)
      /\ fst (fst (StatePkg.SetMeterStatus StatePkg.quiet (failAt 0%nat) 3 "GREEN" "" u w))
         = Some (Annotatef (Trace (ExternalError "EOF"))
                   "cannot update meter status for unit %s" ["wordpress/0"]))
  /\ (let w := StatePkg.worldOf (StatePkg.sampleStore StatePkg.Alive "AMBER" "") in
      let r := StatePkg.SetMeterStatus remover StatePkg.noFault 3 "GREEN" "" u w in
      stored (snd r) = ("GREEN", "", None)
      /\ fst (fst r)
         = Some (Annotatef (Trace ErrNotFound)
                   "cannot set meter state for unit %s" ["wordpress/0"]))
  /\ (let w := StatePkg.worldOf (StatePkg.sampleStore StatePkg.Alive "AMBER" "") in
      let r := StatePkg.SetMeterStatus StatePkg.racingWriter (failAt 3%nat) 3
                 "GREEN" "" u w in
      stored (snd r) = ("GREEN", "", None)
      /\ fst (fst r)
         = Some (Annotatef
                   (Annotatef (Trace (ExternalError "EOF"))
                      "cannot update meter status for unit %s" ["wordpress/0"])
                   "cannot set meter state for unit %s" ["wordpress/0"])).
Proof.
  cbv zeta. repeat split; vm_compute; reflexivity.
Qed.

(** C3 (amended): for a requested code among GREEN, AMBER and RED,
    [SetMeterStatus] is an idempotent success when the target state
    already holds and the reads of the store succeed.  When the first
    read of the meter status does not fail and the stored code and
    info it finds equal the requested ones, the call returns success
    and submits nothing.  On a retry, when the refresh and the re-read
    succeed and the re-read finds the requested code and info, the
    closure signals [ErrNoOperations] and the engine reports success,
    submitting nothing; so a call whose first transaction was aborted
    and whose re-read finds the requested status returns success, its
    only submission being the aborted first attempt. *)
Theorem C3_SetMeterStatus_idempotent_for_valid_codes
    (env : nat -> gmap (string * string) (gmap string Txn.Value)
           -> gmap (string * string) (gmap string Txn.Value))
    (fault : nat -> option error) (nrRetries : nat)
    (code info : string) (u : StatePkg.Unit) (w : Txn.World) :
  StatePkg.validCode code = true ->
  (forall d,
     fault (Txn.tick w) = None ->
     env (Txn.tick w) (Txn.store w)
       !! (StatePkg.meterStatusC, StatePkg.docID (StatePkg.st u) (StatePkg.globalKey u))
     = Some d ->
     Txn.getStr d "code" = code -> Txn.getStr d "info" = info ->
     StatePkg.SetMeterStatus env fault nrRetries code info u w
     = (None, u, Txn.access env w))
  /\ (forall m w1,
     StatePkg.getMeterStatusDoc env fault u w = (Ok m, w1) ->
     StatePkg.sameStatus m code info = true ->
     StatePkg.SetMeterStatus env fault nrRetries code info u w = (None, u, w1)
     /\ Txn.submitted w1 = Txn.submitted w)
  /\ (forall attempt fuel u0 w0 u' w1 m w2,
        StatePkg.Refresh env fault u0 w0 = (None, u', w1) ->
        StatePkg.getMeterStatusDoc env fault u' w1 = (Ok m, w2) ->
        StatePkg.sameStatus m code info = true ->
        StatePkg.buildTxn env fault code info (S attempt) u0 w0
        = (Err ErrNoOperations, u', w2)
        /\ Txn.runFrom env fault (StatePkg.buildTxn env fault code info)
             (S fuel) (S attempt) u0 w0 = (None, u', w2)
        /\ Txn.submitted w2 = Txn.submitted w0)
  /\ (forall m0 w1 w2 u' w3 m1 w4,
        (2 <= nrRetries)%nat ->
        StatePkg.getMeterStatusDoc env fault u w = (Ok m0, w1) ->
        StatePkg.sameStatus m0 code info = false ->
        Txn.commit env fault
          (StatePkg.setMeterStatusOp u (StatePkg.st u) (StatePkg.globalKey u) code info) w1
        = (Some ErrAborted, w2) ->
        StatePkg.Refresh env fault u w2 = (None, u', w3) ->
        StatePkg.getMeterStatusDoc env fault u' w3 = (Ok m1, w4) ->
        StatePkg.sameStatus m1 code info = true ->
        StatePkg.SetMeterStatus env fault nrRetries code info u w = (None, u', w4)
        /\ Txn.submitted w4
           = Txn.submitted w
             ++ [StatePkg.setMeterStatusOp u (StatePkg.st u) (StatePkg.globalKey u)
                   code info]).
Proof.
  intros Hvalid.
  assert (Hfirst : forall m w1,
            StatePkg.getMeterStatusDoc env fault u w = (Ok m, w1) ->
            StatePkg.sameStatus m code info = true ->
            StatePkg.SetMeterStatus env fault nrRetries code info u w = (None, u, w1)
            /\ Txn.submitted w1 = Txn.submitted w).
  { intros m w1 Hg Hs. split.
    + unfold StatePkg.SetMeterStatus. rewrite Hvalid, Hg, Hs. reflexivity.
    + pose proof (getMeterStatusDoc_submitted env fault u w) as H.
      rewrite Hg in H. exact H. }
  split; [|split; [exact Hfirst|split]].
  - intros d Hf Hd Hc Hi.
    apply (Hfirst (StatePkg.decodeMeterStatus d)).
    + unfold StatePkg.getMeterStatusDoc, StatePkg.envFindId, Txn.FindId.
      rewrite Hf. cbn [Txn.access Txn.store]. rewrite Hd. reflexivity.
    + unfold StatePkg.sameStatus, StatePkg.decodeMeterStatus. cbn.
      rewrite Hc, Hi, !String.eqb_refl. reflexivity.
  - intros attempt fuel u0 w0 u' w1 m w2 Hr Hg Hs.
    destruct (buildTxn_retry_no_operations env fault code info attempt u0 w0 u' w1 m w2
                Hr Hg Hs) as [Hb Hsub].
    split; [exact Hb|]. split; [|exact Hsub].
    apply runFrom_no_operations. exact Hb.
  - intros m0 w1 w2 u' w3 m1 w4 Hn Hg0 Hs0 Hc Hr Hg1 Hs1.
    destruct (buildTxn_retry_no_operations env fault code info 0 u w2 u' w3 m1 w4
                Hr Hg1 Hs1) as [Hb Hsub].
    split.
    + unfold StatePkg.SetMeterStatus. rewrite Hvalid, Hg0, Hs0. cbn [negb].
      unfold Txn.run.
      destruct nrRetries as [|[|n]]; [lia|lia|].
      rewrite (runFrom_aborted env fault _ (S n) 0 u w1
                 (StatePkg.setMeterStatusOp u (StatePkg.st u) (StatePkg.globalKey u)
                    code info) u w1 w2 eq_refl Hc).
      rewrite (runFrom_no_operations env fault _ n 1 u w2 u' w4 Hb).
      reflexivity.
    + pose proof (getMeterStatusDoc_submitted env fault u w) as H1.
      pose proof (commit_submitted env fault
                    (StatePkg.setMeterStatusOp u (StatePkg.st u) (StatePkg.globalKey u)
                       code info) w1) as H2.
      rewrite Hg0 in H1. rewrite Hc in H2. simpl in H1, H2. congruence.
Qed.

Lemma C3_SetMeterStatus_idempotent_witness :
  let w := StatePkg.worldOf (StatePkg.sampleStore StatePkg.Alive "AMBER" "") in
  fst (fst (StatePkg.SetMeterStatus StatePkg.racingWriter StatePkg.noFault 3
              "GREEN" "" StatePkg.sampleUnit w)) = None
  /\ fst (fst (StatePkg.SetMeterStatus StatePkg.quiet StatePkg.noFault 3
                 "GREEN" "" StatePkg.sampleUnit
                 (StatePkg.worldOf (StatePkg.sampleStore StatePkg.Alive "GREEN" ""))))
     = None.
Proof.
  intros w. split.
  - destruct (C3_SetMeterStatus_idempotent_for_valid_codes StatePkg.racingWriter
                StatePkg.noFault 3 "GREEN" "" StatePkg.sampleUnit w eq_refl)
      as (_ & _ & _ & Hretry).
    edestruct Hretry as [Hres _];
      [ lia
      | vm_compute; reflexivity
      | vm_compute; reflexivity
      | vm_compute; reflexivity
      | vm_compute; reflexivity
      | vm_compute; reflexivity
      | vm_compute; reflexivity
      | rewrite Hres; reflexivity ].
  - destruct (C3_SetMeterStatus_idempotent_for_valid_codes StatePkg.quiet
                StatePkg.noFault 3 "GREEN" "" StatePkg.sampleUnit
                (StatePkg.worldOf (StatePkg.sampleStore StatePkg.Alive "GREEN" "")) eq_refl)
      as (Hstore & _ & _ & _).
    rewrite (Hstore {[ "code" := Txn.VStr "GREEN"; "info" := Txn.VStr "" ]});
      [ reflexivity | reflexivity | vm_compute; reflexivity
      | vm_compute; reflexivity | vm_compute; reflexivity ].
Defined.

(** ** Login admission *)

Section LimiterFacts.
Import Limiter.

Lemma without_keeps l x ls : x ∈ ls -> x <> l -> x ∈ without l ls.
Proof. intros Hin Hne. unfold without. apply list_elem_of_filter. split; assumption. Qed.

Lemma without_length l ls : (length (without l ls) <= length ls)%nat.
Proof. apply length_filter. Qed.

Lemma without_length_lt l ls :
  l ∈ ls -> (length (without l ls) < length ls)%nat.
Proof.
  intros Hin. unfold without. apply (length_filter_lt _ _ l); [exact Hin|].
  intros H. apply H. reflexivity.
Qed.

(** One step keeps the capacity and the bound, and loses no login. *)
Lemma step_inv e s s' :
  step e s = Some s' ->
  capacity s' = capacity s
  /\ ((length (inService s) <= capacity s)%nat ->
      (length (inService s') <= capacity s')%nat)
  /\ (forall l, known s l -> known s' l)
  /\ (forall l, e = Arrive l -> known s' l).
Proof.
  destruct e as [l|l|l]; simpl.
  - intros H. injection H as <-. simpl. repeat split; try tauto.
    + intros x [H|[H|H]]; unfold known; simpl;
        [left; apply elem_of_app; tauto | tauto | tauto].
    + intros x Hx. injection Hx as <-. left. simpl.
      apply elem_of_app. right. apply list_elem_of_singleton. reflexivity.
  - destruct (isIn l (waiting s) && (length (inService s) <? capacity s)%nat) eqn:Hg;
      [|discriminate].
    apply andb_true_iff in Hg. destruct Hg as [_ Hlt]. apply Nat.ltb_lt in Hlt.
    intros H. injection H as <-. simpl. repeat split.
    + intros _. rewrite length_app. simpl. lia.
    + intros x [H|[H|H]]; unfold known; simpl.
      * destruct (decide (x = l)) as [->|Hne].
        -- right. left. apply elem_of_app. right.
           apply list_elem_of_singleton. reflexivity.
        -- left. apply without_keeps; assumption.
      * right. left. apply elem_of_app. tauto.
      * tauto.
    + discriminate.
  - destruct (isIn l (inService s)) eqn:Hg; [|discriminate].
    intros H. injection H as <-. simpl. repeat split.
    + intros Hle. pose proof (without_length l (inService s)). lia.
    + intros x [H|[H|H]]; unfold known; simpl.
      * tauto.
      * destruct (decide (x = l)) as [->|Hne].
        -- right. right. apply elem_of_app. right.
           apply list_elem_of_singleton. reflexivity.
        -- right. left. apply without_keeps; assumption.
      * right. right. apply elem_of_app. tauto.
    + discriminate.
Qed.

Lemma exec_inv es :
  forall s s', exec es s = Some s' ->
    capacity s' = capacity s
    /\ ((length (inService s) <= capacity s)%nat ->
        (length (inService s') <= capacity s')%nat)
    /\ (forall l, known s l \/ l ∈ arrivals es -> known s' l).
Proof.
  induction es as [|e rest IH]; intros s s' H; simpl in H.
  - injection H as <-. repeat split; try tauto.
    intros l [Hl|Hl]; [exact Hl|]. simpl in Hl. inversion Hl.
  - destruct (step e s) as [s1|] eqn:Hs; [|discriminate].
    destruct (step_inv e s s1 Hs) as (Hc1 & Hb1 & Hk1 & Ha1).
    destruct (IH s1 s' H) as (Hc2 & Hb2 & Hk2).
    split; [congruence|]. split; [tauto|].
    intros l [Hl|Hl].
    + apply Hk2. left. apply Hk1. exact Hl.
    + destruct e as [l0|l0|l0]; simpl in Hl.
      * apply elem_of_cons in Hl. destruct Hl as [->|Hl].
        -- apply Hk2. left. apply (Ha1 l0). reflexivity.
        -- apply Hk2. right. exact Hl.
      * apply Hk2. right. exact Hl.
      * apply Hk2. right. exact Hl.
Qed.

Lemma full_limiter_blocks s l :
  length (inService s) = capacity s -> step (Admit l) s = None.
Proof.
  intros Hfull. simpl.
  replace (length (inService s) <? capacity s)%nat with false
    by (symmetry; apply Nat.ltb_ge; lia).
  rewrite andb_false_r. reflexivity.
Qed.

Lemma finish_frees_slot s l l' :
  (length (inService s) <= capacity s)%nat ->
  l ∈ waiting s -> l' ∈ inService s ->
  exists s1 s2, step (Finish l') s = Some s1 /\ step (Admit l) s1 = Some s2
                /\ l ∈ inService s2.
Proof.
  intros Hle Hw Hin. simpl.
  unfold isIn. rewrite (bool_decide_eq_true_2 _ Hin).
  eexists. eexists. split; [reflexivity|]. simpl.
  rewrite (bool_decide_eq_true_2 _ Hw).
  pose proof (without_length_lt l' (inService s) Hin) as Hlt.
  replace (length (without l' (inService s)) <? capacity s)%nat with true
    by (symmetry; apply Nat.ltb_lt; lia).
  simpl. split; [reflexivity|].
  apply elem_of_app. right. apply list_elem_of_singleton. reflexivity.
Qed.

End LimiterFacts.

(** C6: the limiter the server creates has capacity [loginRateLimit],
    which is 10, and is the one limiter of all connections.  In every
    state it reaches at most 10 logins are in service; a login that
    arrives is never turned away: it is waiting, in service or finished;
    while 10 logins are in service no further login is admitted, and as
    soon as one of those in service finishes a waiting login can be
    admitted. *)
Theorem C6_login_admission_bound (es : list Limiter.Event) (s : Limiter.LimiterState) :
  Limiter.exec es Limiter.serverLimiter = Some s ->
  Limiter.capacity s = 10%nat
  /\ (length (Limiter.inService s) <= 10)%nat
  /\ (forall l, l ∈ Limiter.arrivals es ->
        l ∈ Limiter.waiting s \/ l ∈ Limiter.inService s \/ l ∈ Limiter.finished s)
  /\ (forall l, is_Some (Limiter.step (Limiter.Arrive l) s))
  /\ (length (Limiter.inService s) = 10%nat ->
      forall l, Limiter.step (Limiter.Admit l) s = None)
  /\ (forall l l', l ∈ Limiter.waiting s -> l' ∈ Limiter.inService s ->
        exists s1 s2, Limiter.step (Limiter.Finish l') s = Some s1
                      /\ Limiter.step (Limiter.Admit l) s1 = Some s2
                      /\ l ∈ Limiter.inService s2).
Proof.
  intros H.
  destruct (exec_inv es _ _ H) as (Hc & Hb & Hk).
  change (Limiter.capacity Limiter.serverLimiter) with 10%nat in *.
  assert (Hle : (length (Limiter.inService s) <= Limiter.capacity s)%nat).
  { apply Hb. simpl. lia. }
  split; [exact Hc|]. split; [lia|]. split.
  { intros l Hl. apply (Hk l). right. exact Hl. }
  split; [intros l; simpl; eauto|]. split.
  { intros Hfull l. apply full_limiter_blocks. lia. }
  intros l l'. apply finish_frees_slot. exact Hle.
Qed.

Lemma C6_login_admission_witness :
  exists s, Limiter.exec Limiter.sampleRun Limiter.serverLimiter = Some s
            /\ length (Limiter.inService s) = 10%nat
            /\ Limiter.waiting s = [ {| Limiter.conn := 10; Limiter.req := 1 |} ]
            /\ Limiter.step (Limiter.Admit {| Limiter.conn := 10; Limiter.req := 1 |}) s
               = None.
Proof.
  eexists. split; [vm_compute; reflexivity|].
  split; [reflexivity|]. split; [reflexivity|].
  refine (proj1 (proj2 (proj2 (proj2 (proj2
            (C6_login_admission_bound Limiter.sampleRun _ _))))) _ _);
    vm_compute; reflexivity.
Defined.

(** ** The life cycle of the server *)

Section LifecycleRuns.
Import Lifecycle.

Example drainRun_final : exec drainRun init = Some drainFinal.
Proof. reflexivity. Qed.

Example pingFailureRun_final e :
  exec (pingFailureRun e) init = Some (pingFailureFinal e).
Proof. reflexivity. Qed.

(** A request cannot be cut short: with a request in flight the
    handler cannot return from [conn.Close()]. *)
Example close_waits_for_request :
  exec [ RunSpawnWatcher; RunSpawnPinger; RunAccept; HandlerAdd 0; HandlerCheck 0;
         HandlerStart 0; HandlerRequest 0; CallStop; HandlerDying 0;
         HandlerCloseReturn 0 ] init
  = None.
Proof. reflexivity. Qed.

End LifecycleRuns.

Section LifecycleInvariant.
Import Lifecycle.

Lemma init_inv : Inv init.
Proof.
  constructor; simpl; try tauto; try (constructor; fail); try discriminate; auto.
  all: try (intros e0 H0; injection H0 as <-; left; reflexivity).
  all: try (intuition discriminate).
Qed.

(** [Kill(nil)] makes the tomb dying; it only replaces the reason
    [ErrStillAlive]. *)
Lemma tombKill_nil t :
  exists t', tombKill None t = Some t'
    /\ dying t' = true /\ dead t' = dead t
    /\ (reason t = Some ErrStillAlive -> reason t' = None)
    /\ (reason t <> Some ErrStillAlive -> reason t' = reason t).
Proof.
  unfold tombKill. destruct (decide (None = Some ErrDying)); [discriminate|].
  eexists. split; [reflexivity|]. simpl. repeat split.
  - intros H. destruct (decide _) as [_|Hn]; [reflexivity|]. tauto.
  - intros H. destruct (decide _) as [[Hd|Hd]|Hn]; congruence.
Qed.

Lemma tombKill_pingError t e :
  reason t = None \/ reason t = Some ErrStillAlive ->
  tombKill (Some (pingError e)) t
  = Some {| dying := true; dead := dead t; reason := Some (pingError e) |}.
Proof.
  intros H. unfold tombKill.
  destruct (decide (Some (pingError e) = Some ErrDying)); [discriminate|].
  destruct (decide _); [reflexivity|tauto].
Qed.

Lemma tombKill_ErrDying t :
  reason t <> Some ErrStillAlive -> tombKill (Some ErrDying) t = Some t.
Proof.
  intros H. unfold tombKill.
  destruct (decide (Some ErrDying = Some ErrDying)); [|congruence].
  destruct (decide _); [contradiction|reflexivity].
Qed.

Lemma registered_nonneg h : (0 <= registered h)%Z.
Proof. unfold registered. destruct (hpc h); lia. Qed.

Lemma wgHandlers_nonneg hs : (0 <= wgHandlers hs)%Z.
Proof.
  induction hs as [|h hs IH]; simpl; [lia|].
  pose proof (registered_nonneg h). lia.
Qed.

Lemma wgHandlers_app hs h : wgHandlers (hs ++ [h]) = (wgHandlers hs + registered h)%Z.
Proof. induction hs as [|x hs IH]; simpl; lia. Qed.

Lemma wgHandlers_insert hs i h h' :
  hs !! i = Some h ->
  wgHandlers (<[i := h']> hs) = (wgHandlers hs - registered h + registered h')%Z.
Proof.
  revert i. induction hs as [|x hs IH]; intros [|i] H; simpl in *; try discriminate.
  - injection H as ->. lia.
  - rewrite (IH i H). lia.
Qed.

Lemma wgHandlers_zero hs :
  wgHandlers hs = 0%Z -> Forall (fun h => registered h = 0%Z) hs.
Proof.
  induction hs as [|x hs IH]; simpl; intros H; constructor.
  - pose proof (registered_nonneg x). pose proof (wgHandlers_nonneg hs). lia.
  - apply IH. pose proof (registered_nonneg x). pose proof (wgHandlers_nonneg hs). lia.
Qed.

Lemma handlerStep_inv i from guard f g s s' :
  handlerStep i from guard f g s = Some s' ->
  exists h, handlers s !! i = Some h /\ hpc h = from /\ guard h = true
            /\ s' = g (setHandlers (<[i := f h]> (handlers s)) s).
Proof.
  unfold handlerStep. destruct (handlers s !! i) as [h|]; [|discriminate].
  destruct (bool_decide (hpc h = from)) eqn:Hpc; [|discriminate].
  destruct (guard h) eqn:Hg; [|discriminate].
  simpl. intros H. injection H as <-.
  apply bool_decide_eq_true in Hpc. exists h. auto.
Qed.

Lemma wgAdd_nonneg d s :
  (0 <= wg s + d)%Z ->
  wgAdd d s = {| tomb := tomb s; wg := wg s + d; lisClosed := lisClosed s;
                 runner := runner s; watcher := watcher s; pinger := pinger s;
                 handlers := handlers s; others := others s;
                 callers := callers s; panicked := panicked s |}.
Proof.
  intros H. unfold wgAdd. rewrite (proj2 (Z.ltb_ge _ _) H). reflexivity.
Qed.

Lemma wgWatcher_nonneg w : (0 <= wgWatcher w)%Z.
Proof. destruct w; simpl; lia. Qed.

Lemma wgPinger_nonneg p : (0 <= wgPinger p)%Z.
Proof. destruct p; simpl; lia. Qed.

Lemma tombDone_dying t :
  reason t <> Some ErrStillAlive ->
  tombDone t = {| dying := true; dead := true; reason := reason t |}.
Proof.
  intros H. unfold tombDone.
  destruct (tombKill_nil t) as (t' & -> & Hd & _ & _ & Hr).
  rewrite Hd, (Hr H). reflexivity.
Qed.

Lemma unregistered_drained h :
  handlerOk h -> registered h = 0%Z -> drained h.
Proof.
  unfold handlerOk, registered, drained, foundAlive.
  destruct (hpc h); intros Hok Hreg Hs; try discriminate.
  - destruct Hok as [Hn _]. destruct Hs as [Hs|Hs]; [discriminate|congruence].
  - tauto.
Qed.

Ltac use_pcs :=
  repeat match goal with
    | H : runner ?s = _ |- context [runner ?s] => rewrite H
    | H : watcher ?s = _ |- context [watcher ?s] => rewrite H
    | H : pinger ?s = _ |- context [pinger ?s] => rewrite H
    end.

Ltac reason_auto :=
  let e := fresh "e" in
  let H := fresh "H" in
  intros e H;
  match goal with
  | I : forall err, reason _ = Some err -> _ |- _ =>
      destruct (I e H) as [?|[? [?|?]]]
  end;
  solve [ discriminate | congruence | auto | intuition (try congruence; eauto) ].

Ltac waited_auto :=
  let H := fresh "H" in
  intros H;
  match goal with
  | I : _ \/ _ -> _ /\ (exists _, _) /\ _ |- _ =>
      destruct (I H) as (? & [? ?] & ? & ?)
  end;
  solve [ discriminate | congruence | repeat split; eauto ].

Ltac basic_auto :=
  solve [ assumption | reflexivity | discriminate | lia | tauto
        | intuition (try discriminate; try congruence; try lia; eauto) ].

Ltac field_auto :=
  simpl in *; use_pcs; simpl;
  try first
    [ basic_auto
    | reason_auto
    | waited_auto
    | match goal with
      | |- context [match watcher ?s with _ => _ end] =>
          destruct (watcher s); simpl in *; basic_auto
      | |- context [match pinger ?s with _ => _ end] =>
          destruct (pinger s); simpl in *; basic_auto
      end ].

(** Steps of [run]. *)
Lemma step_inv_run a s s' :
  a = RunSpawnWatcher \/ a = RunSpawnPinger \/ a = RunAccept
  \/ a = RunServeReturn \/ a = RunWaitReturn \/ a = RunTombDone
  \/ a = RunAcceptOther \/ a = OtherReturn ->
  Inv s -> step a s = Some s' -> Inv s'.
Proof.
  intros Ha I Hs.
  pose proof (wgHandlers_nonneg (handlers s)) as Hnn.
  destruct I as [Ipanic Iwg Ialive Idead Ireason Ipinger Ispawned Iwatcher
                 Ihandlers Iwaited Ilis Icallers].
  destruct Ha as [ -> | [ -> | [ -> | [ -> | [ -> | [ -> | [ -> | -> ] ] ] ] ] ] ];
    simpl in Hs.
  - destruct (runner s) eqn:Hr; try discriminate.
    destruct Ispawned as [Hw Hp].
    specialize (Hw eq_refl). specialize (Hp (or_introl eq_refl)).
    rewrite Hw, Hp in *. simpl in Iwg.
    rewrite wgAdd_nonneg in Hs by lia. injection Hs as <-.
    constructor; field_auto.
  - destruct (runner s) eqn:Hr; try discriminate.
    destruct Ispawned as [_ Hp]. specialize (Hp (or_intror eq_refl)).
    rewrite Hp in *. simpl in Iwg.
    pose proof (wgWatcher_nonneg (watcher s)).
    rewrite wgAdd_nonneg in Hs by lia. injection Hs as <-.
    constructor; field_auto.
  - destruct (runner s) eqn:Hr; try discriminate.
    destruct (lisClosed s) eqn:Hl; try discriminate. injection Hs as <-.
    constructor; field_auto.
    + rewrite wgHandlers_app. simpl. unfold registered. simpl. lia.
    + apply Forall_app. split; [assumption|].
      constructor; [|constructor]. unfold handlerOk. simpl. auto.
  - destruct (runner s) eqn:Hr; try discriminate.
    destruct (lisClosed s) eqn:Hl; try discriminate. injection Hs as <-.
    constructor; field_auto.
  - destruct (runner s) eqn:Hr; try discriminate.
    destruct (wg s =? 0)%Z eqn:Hz; try discriminate. injection Hs as <-.
    apply Z.eqb_eq in Hz.
    pose proof (wgWatcher_nonneg (watcher s)).
    pose proof (wgPinger_nonneg (pinger s)).
    assert (Hh : wgHandlers (handlers s) = 0%Z) by lia.
    assert (Hw : watcher s = WExit).
    { destruct (watcher s); simpl in *; try lia; [discriminate|reflexivity]. }
    assert (Hp : exists err, pinger s = PExit err).
    { destruct (pinger s); simpl in *; try lia; [|eauto].
      destruct Ipinger; discriminate. }
    destruct Hp as [err Hp]. rewrite Hw, Hp in *.
    constructor; field_auto.
    intros _. split; [reflexivity|]. split; [eauto|]. split; [tauto|].
    apply wgHandlers_zero in Hh.
    rewrite Forall_forall in *. intros h Hin.
    apply unregistered_drained; auto.
  - destruct (runner s) eqn:Hr; try discriminate. injection Hs as <-.
    destruct (Iwaited (or_introl eq_refl)) as (Hw & [err Hp] & Hd & Hdr).
    rewrite Hw, Hp in *.
    assert (Hne : reason (tomb s) <> Some ErrStillAlive).
    { intros Hc. apply Ialive in Hc. congruence. }
    rewrite (tombDone_dying _ Hne).
    constructor; field_auto.
    eapply Forall_impl; [exact Icallers|]. simpl.
    intros c Hc r Hret. destruct (Hc r Hret) as [Hdead _].
    apply Idead in Hdead. discriminate.
  - destruct (runner s) eqn:Hr; try discriminate.
    destruct (lisClosed s) eqn:Hl; try discriminate. injection Hs as <-.
    constructor; field_auto.
  - destruct (others s) as [|n] eqn:Ho; try discriminate. injection Hs as <-.
    constructor; simpl; assumption.
Qed.

(** Steps of the goroutine that closes the listener. *)
Lemma step_inv_watch a s s' :
  a = WatchDying \/ a = WatchCloseListener \/ a = WatchDone ->
  Inv s -> step a s = Some s' -> Inv s'.
Proof.
  intros Ha I Hs.
  pose proof (wgHandlers_nonneg (handlers s)) as Hnn.
  pose proof (wgPinger_nonneg (pinger s)) as Hpn.
  destruct I as [Ipanic Iwg Ialive Idead Ireason Ipinger Ispawned Iwatcher
                 Ihandlers Iwaited Ilis Icallers].
  destruct Ha as [ -> | [ -> | -> ] ]; simpl in Hs.
  - destruct (watcher s) eqn:Hw; try discriminate.
    destruct (dying (tomb s)) eqn:Hd; try discriminate. injection Hs as <-.
    constructor; field_auto.
  - destruct (watcher s) eqn:Hw; try discriminate. injection Hs as <-.
    constructor; field_auto.
  - destruct (watcher s) eqn:Hw; try discriminate.
    unfold wgDone in Hs. simpl in Iwg.
    rewrite wgAdd_nonneg in Hs by lia. injection Hs as <-.
    constructor; field_auto.
Qed.

Lemma kill_nil s :
  exists t', kill None s = setTomb t' s
    /\ dying t' = true /\ dead t' = dead (tomb s)
    /\ (reason (tomb s) = Some ErrStillAlive -> reason t' = None)
    /\ (reason (tomb s) <> Some ErrStillAlive -> reason t' = reason (tomb s)).
Proof.
  unfold kill. destruct (tombKill_nil (tomb s)) as (t' & -> & H).
  exists t'. split; [reflexivity|exact H].
Qed.

(** [Kill(nil)] keeps the invariant. *)
Lemma inv_kill_nil s : Inv s -> Inv (kill None s).
Proof.
  intros I.
  destruct (kill_nil s) as (t' & -> & Hd & Hdead & Halive & Hkeep).
  destruct I as [Ipanic Iwg Ialive Idead Ireason Ipinger Ispawned Iwatcher
                 Ihandlers Iwaited Ilis Icallers].
  assert (Hre : forall err, reason t' = Some err ->
                  reason (tomb s) = Some err /\ err <> ErrStillAlive).
  { intros err H.
    destruct (decide (reason (tomb s) = Some ErrStillAlive)) as [Ha|Hn].
    - rewrite (Halive Ha) in H. discriminate.
    - rewrite (Hkeep Hn) in H. split; [exact H|]. congruence. }
  constructor; simpl; try assumption.
  - rewrite Hd. split; [discriminate|]. intros H. apply Hre in H. tauto.
  - rewrite Hdead. exact Idead.
  - intros err H. apply Hre in H. destruct H as [H _]. apply Ireason. exact H.
  - destruct (pinger s); try assumption.
    + destruct Ipinger as [[-> _]|He]; [left; auto | right; exact He].
    + split; [exact Hd|]. destruct Ipinger as [_ [->|[He Hr]]]; [auto|].
      right. split; [exact He|]. rewrite Hkeep; [exact Hr|].
      destruct He as [e ->]. rewrite Hr. discriminate.
    + split; [exact Hd|]. destruct Ipinger as [_ [->|[He Hr]]]; [auto|].
      right. split; [exact He|]. rewrite Hkeep; [exact Hr|].
      destruct He as [e ->]. rewrite Hr. discriminate.
  - destruct (watcher s); auto.
  - intros H. destruct (Iwaited H) as (? & ? & ? & ?). auto.
  - eapply Forall_impl; [exact Icallers|]. simpl.
    intros c Hc r Hret. destruct (Hc r Hret) as [Hdd ->].
    rewrite Hdead. split; [exact Hdd|].
    symmetry. apply Hkeep. intros Ha. apply Ialive in Ha.
    destruct (Iwaited (or_intror (Idead Hdd))) as (_ & _ & Hdy & _). congruence.
Qed.

Lemma inv_add_caller s b :
  Inv s -> Inv (setCallers (callers s ++ [ {| stopper := b; cpc := CWaiting |} ]) s).
Proof.
  intros [Ipanic Iwg Ialive Idead Ireason Ipinger Ispawned Iwatcher
          Ihandlers Iwaited Ilis Icallers].
  constructor; simpl; try assumption.
  apply Forall_app. split; [assumption|].
  constructor; [|constructor]. simpl. discriminate.
Qed.

(** Calls of the exported methods. *)
Lemma step_inv_call a s s' :
  a = CallStop \/ a = CallKill \/ a = CallWait \/ (exists i, a = CallReturn i) ->
  Inv s -> step a s = Some s' -> Inv s'.
Proof.
  intros Ha I Hs.
  destruct Ha as [ -> | [ -> | [ -> | [i ->] ] ] ]; simpl in Hs.
  - injection Hs as <-.
    apply (inv_add_caller (kill None s) true). apply inv_kill_nil. exact I.
  - injection Hs as <-. apply inv_kill_nil. exact I.
  - injection Hs as <-. apply inv_add_caller. exact I.
  - destruct (callers s !! i) as [c|] eqn:Hc; [|discriminate].
    destruct (cpc c) eqn:Hpc; [|discriminate].
    destruct (dead (tomb s)) eqn:Hd; [|discriminate]. injection Hs as <-.
    destruct I as [Ipanic Iwg Ialive Idead Ireason Ipinger Ispawned Iwatcher
                   Ihandlers Iwaited Ilis Icallers].
    constructor; simpl; try assumption.
    apply Forall_insert; [assumption|]. simpl.
    intros r Hr. injection Hr as <-. auto.
Qed.

(** Steps of the goroutine that runs [mongoPinger]. *)
Lemma step_inv_ping a s s' :
  a = PingTimer \/ a = PingDying \/ (exists r, a = PingResult r)
  \/ a = PingKill \/ a = PingDone ->
  Inv s -> step a s = Some s' -> Inv s'.
Proof.
  intros Ha I Hs.
  pose proof (wgHandlers_nonneg (handlers s)) as Hnn.
  pose proof (wgWatcher_nonneg (watcher s)) as Hwn.
  pose proof I as [Ipanic Iwg Ialive Idead Ireason Ipinger Ispawned Iwatcher
                   Ihandlers Iwaited Ilis Icallers].
  destruct Ha as [ -> | [ -> | [ [r ->] | [ -> | -> ] ] ] ]; simpl in Hs.
  - destruct (pinger s) eqn:Hp; try discriminate. injection Hs as <-.
    constructor; field_auto.
  - destruct (pinger s) eqn:Hp; try discriminate.
    destruct (dying (tomb s)) eqn:Hd; try discriminate. injection Hs as <-.
    constructor; field_auto.
  - destruct (pinger s) eqn:Hp; try discriminate.
    destruct r as [err|]; injection Hs as <-; constructor; field_auto.
  - destruct (pinger s) eqn:Hp; try discriminate. injection Hs as <-.
    assert (Hnd : dead (tomb s) = false).
    { destruct (dead (tomb s)) eqn:Hdd; [|reflexivity].
      destruct (Iwaited (or_intror (Idead eq_refl))) as (_ & [x Hx] & _).
      discriminate. }
    assert (Hcallers : forall t', Forall (fun c => forall r, cpc c = CReturned r ->
                                     dead t' = true /\ r = reason t') (callers s)).
    { intros t'. eapply Forall_impl; [exact Icallers|]. simpl.
      intros c Hc r Hret. destruct (Hc r Hret) as [Hdd _]. congruence. }
    destruct Ipinger as [[-> Hd]|[e ->]].
    + assert (Hne : reason (tomb s) <> Some ErrStillAlive).
      { intros Hc. apply Ialive in Hc. congruence. }
      unfold kill. rewrite (tombKill_ErrDying _ Hne).
      constructor; field_auto.
    + assert (Hre : reason (tomb s) = None \/ reason (tomb s) = Some ErrStillAlive).
      { destruct (reason (tomb s)) as [x|] eqn:Hx; [|auto].
        destruct (Ireason x eq_refl) as [->|[_ [Hk|Hk]]]; [auto|discriminate..]. }
      unfold kill. rewrite (tombKill_pingError _ e Hre).
      constructor; simpl; use_pcs; simpl; try assumption.
      * split; discriminate.
      * intros err H. injection H as <-. right. split; [eauto|auto].
      * split; [reflexivity|]. right. split; [eauto|reflexivity].
      * destruct Ispawned as [H1 H2]. split; [exact H1|].
        intros H. specialize (H2 H). discriminate.
      * destruct (watcher s); auto.
      * intros H. destruct (Iwaited H) as (_ & [x Hx] & _). discriminate.
      * exact (Hcallers {| dying := true; dead := dead (tomb s);
                           reason := Some (pingError e) |}).
  - destruct (pinger s) eqn:Hp; try discriminate.
    unfold wgDone in Hs. simpl in Iwg.
    rewrite wgAdd_nonneg in Hs by lia. injection Hs as <-.
    constructor; field_auto.
Qed.

Lemma registered_le hs i h :
  hs !! i = Some h -> (registered h <= wgHandlers hs)%Z.
Proof.
  revert i. induction hs as [|x hs IH]; intros [|i] H; simpl in *; try discriminate.
  - injection H as ->. pose proof (wgHandlers_nonneg hs). lia.
  - specialize (IH i H). pose proof (registered_nonneg x). lia.
Qed.

(** Replacing the record of one handler keeps the invariant when the
    counter of the wait group follows the registration. *)
Lemma inv_update_handler s s' i h h' :
  Inv s -> handlers s !! i = Some h ->
  handlerOk h' ->
  (runner s = RunWaited \/ runner s = RunExit -> drained h') ->
  tomb s' = tomb s ->
  wg s' = (wg s + registered h' - registered h)%Z ->
  lisClosed s' = lisClosed s -> runner s' = runner s -> watcher s' = watcher s ->
  pinger s' = pinger s -> handlers s' = <[i := h']> (handlers s) ->
  callers s' = callers s -> panicked s' = panicked s ->
  Inv s'.
Proof.
  intros [Ipanic Iwg Ialive Idead Ireason Ipinger Ispawned Iwatcher
          Ihandlers Iwaited Ilis Icallers] Hi Hok Hdr Et Ew El Er Ewa Ep Eh Ec Epa.
  constructor; rewrite ?Et, ?El, ?Er, ?Ewa, ?Ep, ?Eh, ?Ec, ?Epa; try assumption.
  - rewrite Ew, Iwg, (wgHandlers_insert _ _ _ _ Hi). lia.
  - apply Forall_insert; assumption.
  - intros H. destruct (Iwaited H) as (H1 & H2 & H3 & H4).
    split; [exact H1|]. split; [exact H2|]. split; [exact H3|].
    apply Forall_insert; [exact H4|]. apply Hdr. exact H.
Qed.

Lemma not_stillAlive_dying s :
  Inv s -> dying (tomb s) = true -> stillAlive (tomb s) = false.
Proof.
  intros I Hd. unfold stillAlive, tombErr. apply bool_decide_eq_false.
  intros Hc. apply (inv_alive s I) in Hc. congruence.
Qed.

(** A handler that is still at work when [wg.Wait()] has returned does
    not exist. *)
Lemma waited_handler_exited s i h :
  Inv s -> runner s = RunWaited \/ runner s = RunExit ->
  handlers s !! i = Some h -> foundAlive h -> hpc h = HExited.
Proof.
  intros I Hrun Hi Hsv.
  destruct (inv_waited s I Hrun) as (_ & _ & _ & Hall).
  destruct (Forall_lookup_1 _ _ _ _ Hall Hi Hsv) as [Hex _]. exact Hex.
Qed.

(** A handler that found the tomb alive and has not exited shows
    that [wg.Wait()] has not returned. *)
Ltac drained_by_pc I Hi Hfa :=
  let Hrun := fresh "Hrun" in
  intros Hrun;
  pose proof (waited_handler_exited _ _ _ I Hrun Hi Hfa); congruence.

(** Steps of a connection handler. *)
Lemma step_inv_handler a s s' i :
  a = HandlerAdd i \/ a = HandlerCheck i \/ a = HandlerStart i
  \/ a = HandlerRequest i
  \/ a = HandlerReply i \/ a = HandlerConnDead i \/ a = HandlerDying i
  \/ a = HandlerCloseReturn i \/ a = HandlerDone i ->
  Inv s -> step a s = Some s' -> Inv s'.
Proof.
  intros Ha I Hs.
  pose proof (wgHandlers_nonneg (handlers s)) as Hnn.
  pose proof (wgWatcher_nonneg (watcher s)) as Hwn.
  pose proof (wgPinger_nonneg (pinger s)) as Hpn.
  pose proof (inv_wg s I) as Iwg.
  pose proof (inv_handlers s I) as Ihandlers.
  destruct Ha as [ -> | [ -> | [ -> | [ -> | [ -> | [ -> | [ -> | [ -> | -> ] ] ] ] ] ] ] ];
    simpl in Hs.
  - (* HandlerAdd *)
    destruct (handlerStep_inv _ _ _ _ _ _ _ Hs) as (h & Hi & Hpc & _ & ->).
    pose proof (Forall_lookup_1 _ _ _ _ Ihandlers Hi) as Hok.
    unfold handlerOk in Hok. rewrite Hpc in Hok.
    rewrite wgAdd_nonneg by (simpl; lia).
    eapply (inv_update_handler s _ i h (setHpc HChecking h));
      try reflexivity; try exact I; try exact Hi.
    + unfold handlerOk. simpl. exact Hok.
    + intros _. unfold drained, foundAlive. simpl. destruct Hok as [Hf _].
      intros [H|H]; [discriminate|congruence].
    + simpl. unfold registered. simpl. rewrite Hpc. lia.
  - (* HandlerCheck *)
    destruct (handlerStep_inv _ _ _ _ _ _ _ Hs) as (h & Hi & Hpc & _ & ->).
    pose proof (Forall_lookup_1 _ _ _ _ Ihandlers Hi) as Hok.
    unfold handlerOk in Hok. rewrite Hpc in Hok. destruct Hok as (Hf & Hst & Hco).
    destruct (stillAlive (tomb s)) eqn:Hal.
    + eapply (inv_update_handler s _ i h (setHpc HStarting h));
        try reflexivity; try exact I; try exact Hi.
      * unfold handlerOk. simpl. auto.
      * intros Hrun. destruct (inv_waited s I Hrun) as (_ & _ & Hdy & _).
        rewrite (not_stillAlive_dying s I Hdy) in Hal. discriminate.
      * simpl. unfold registered. simpl. rewrite Hpc. lia.
    + eapply (inv_update_handler s _ i h (setHpc HLeaving h));
        try reflexivity; try exact I; try exact Hi.
      * unfold handlerOk. simpl. split; [lia|auto].
      * intros _. unfold drained, foundAlive. simpl.
        intros [H|H]; [discriminate|congruence].
      * simpl. unfold registered. simpl. rewrite Hpc. lia.
  - (* HandlerStart *)
    destruct (handlerStep_inv _ _ _ _ _ _ _ Hs) as (h & Hi & Hpc & _ & ->).
    pose proof (Forall_lookup_1 _ _ _ _ Ihandlers Hi) as Hok.
    unfold handlerOk in Hok. rewrite Hpc in Hok. destruct Hok as (Hf & Hst & Hco).
    assert (Hfa : foundAlive h) by (left; exact Hpc).
    eapply (inv_update_handler s _ i h); try reflexivity; try exact I; try exact Hi.
    + unfold handlerOk. simpl. split; [reflexivity|lia].
    + drained_by_pc I Hi Hfa.
    + simpl. unfold registered. simpl. rewrite Hpc. lia.
  - (* HandlerRequest *)
    destruct (handlerStep_inv _ _ _ _ _ _ _ Hs) as (h & Hi & Hpc & _ & ->).
    pose proof (Forall_lookup_1 _ _ _ _ Ihandlers Hi) as Hok.
    unfold handlerOk in Hok. rewrite Hpc in Hok.
    assert (Hfa : foundAlive h) by (right; tauto).
    eapply (inv_update_handler s _ i h); try reflexivity; try exact I; try exact Hi.
    + unfold handlerOk. simpl. rewrite Hpc. split; [tauto|lia].
    + drained_by_pc I Hi Hfa.
    + simpl. unfold registered. simpl. lia.
  - (* HandlerReply *)
    destruct (handlers s !! i) as [h|] eqn:Hi; [|discriminate].
    destruct (connInFlight h) eqn:Hlt; [|discriminate].
    unfold connInFlight in Hlt.
    apply Nat.ltb_lt in Hlt. injection Hs as <-.
    pose proof (Forall_lookup_1 _ _ _ _ Ihandlers Hi) as Hok.
    eapply (inv_update_handler s _ i h); try reflexivity; try exact I; try exact Hi.
    + unfold handlerOk in *. simpl. destruct (hpc h); simpl in *; intuition lia.
    + intros Hrun. unfold drained, foundAlive. simpl. intros Hsv.
      destruct (inv_waited s I Hrun) as (_ & _ & _ & Hall).
      destruct (Forall_lookup_1 _ _ _ _ Hall Hi Hsv) as [_ Heq]. lia.
    + simpl. unfold registered. simpl. lia.
  - (* HandlerConnDead *)
    destruct (handlerStep_inv _ _ _ _ _ _ _ Hs) as (h & Hi & Hpc & _ & ->).
    pose proof (Forall_lookup_1 _ _ _ _ Ihandlers Hi) as Hok.
    unfold handlerOk in Hok. rewrite Hpc in Hok.
    assert (Hfa : foundAlive h) by (right; tauto).
    eapply (inv_update_handler s _ i h (setHpc HClosing h));
      try reflexivity; try exact I; try exact Hi.
    + unfold handlerOk. simpl. exact Hok.
    + drained_by_pc I Hi Hfa.
    + simpl. unfold registered. simpl. rewrite Hpc. lia.
  - (* HandlerDying *)
    destruct (handlerStep_inv _ _ _ _ _ _ _ Hs) as (h & Hi & Hpc & _ & ->).
    pose proof (Forall_lookup_1 _ _ _ _ Ihandlers Hi) as Hok.
    unfold handlerOk in Hok. rewrite Hpc in Hok.
    assert (Hfa : foundAlive h) by (right; tauto).
    eapply (inv_update_handler s _ i h (setHpc HClosing h));
      try reflexivity; try exact I; try exact Hi.
    + unfold handlerOk. simpl. exact Hok.
    + drained_by_pc I Hi Hfa.
    + simpl. unfold registered. simpl. rewrite Hpc. lia.
  - (* HandlerCloseReturn *)
    destruct (handlerStep_inv _ _ _ _ _ _ _ Hs) as (h & Hi & Hpc & Hg & ->).
    unfold connCloseReturns in Hg. apply Nat.eqb_eq in Hg.
    pose proof (Forall_lookup_1 _ _ _ _ Ihandlers Hi) as Hok.
    unfold handlerOk in Hok. rewrite Hpc in Hok.
    assert (Hfa : foundAlive h) by (right; tauto).
    eapply (inv_update_handler s _ i h (setHpc HLeaving h));
      try reflexivity; try exact I; try exact Hi.
    + unfold handlerOk. simpl. split; [exact Hg|]. destruct Hok. congruence.
    + drained_by_pc I Hi Hfa.
    + simpl. unfold registered. simpl. rewrite Hpc. lia.
  - (* HandlerDone *)
    destruct (handlerStep_inv _ _ _ _ _ _ _ Hs) as (h & Hi & Hpc & _ & ->).
    pose proof (Forall_lookup_1 _ _ _ _ Ihandlers Hi) as Hok.
    unfold handlerOk in Hok. rewrite Hpc in Hok.
    pose proof (registered_le _ _ _ Hi) as Hle.
    unfold registered in Hle. rewrite Hpc in Hle.
    unfold wgDone. rewrite wgAdd_nonneg by (simpl; lia).
    eapply (inv_update_handler s _ i h (setHpc HExited h));
      try reflexivity; try exact I; try exact Hi.
    + unfold handlerOk. simpl. exact Hok.
    + intros _. unfold drained. simpl. intros _. split; [reflexivity|tauto].
    + simpl. unfold registered. simpl. rewrite Hpc. lia.
Qed.

(** Every step keeps the invariant. *)
Lemma server_step_inv a s s' : Inv s -> step a s = Some s' -> Inv s'.
Proof.
  destruct a;
    first [ solve [ apply step_inv_run; auto 10 ]
          | solve [ apply step_inv_watch; auto 10 ]
          | solve [ apply step_inv_ping; eauto 10 ]
          | solve [ eapply step_inv_handler; auto 10 ]
          | solve [ apply step_inv_call; eauto 10 ] ].
Qed.

Lemma server_exec_app es1 es2 s :
  exec (es1 ++ es2) s
  = match exec es1 s with
    | Some s1 => exec es2 s1
    | None => None
    end.
Proof.
  revert s. induction es1 as [|a es1 IH]; intros s; simpl; [reflexivity|].
  destruct (step a s); [apply IH|reflexivity].
Qed.

Lemma server_exec_inv es : forall s s', Inv s -> exec es s = Some s' -> Inv s'.
Proof.
  induction es as [|a es IH]; intros s s' I H; simpl in H.
  - injection H as <-. exact I.
  - destruct (step a s) as [s1|] eqn:Hs; [|discriminate].
    eapply IH; [|exact H]. eapply server_step_inv; eauto.
Qed.

Lemma reachable_inv es s : exec es init = Some s -> Inv s.
Proof. apply server_exec_inv. apply init_inv. Qed.

End LifecycleInvariant.

Section LifecycleTraces.
Import Lifecycle.

Lemma later_refl h : later h h.
Proof. unfold later. auto. Qed.

Lemma later_trans h1 h2 h3 : later h1 h2 -> later h2 h3 -> later h1 h3.
Proof. unfold later. intros (?&?&?&?) (?&?&?&?). repeat split; try lia; auto. Qed.

Lemma wgAdd_fields d s :
  tomb (wgAdd d s) = tomb s /\ handlers (wgAdd d s) = handlers s.
Proof. unfold wgAdd. destruct (wg s + d <? 0)%Z; split; reflexivity. Qed.

Lemma kill_handlers r s : handlers (kill r s) = handlers s.
Proof. unfold kill. destruct (tombKill r (tomb s)); reflexivity. Qed.

Lemma tombKill_keeps_dying r t t' :
  tombKill r t = Some t' -> dying t = true -> dying t' = true.
Proof.
  unfold tombKill. destruct (decide (r = Some ErrDying)).
  - destruct (decide _); [discriminate|]. intros H. injection H as <-. auto.
  - intros H. injection H as <-. reflexivity.
Qed.

Lemma kill_keeps_dying r s :
  dying (tomb s) = true -> dying (tomb (kill r s)) = true.
Proof.
  unfold kill. destruct (tombKill r (tomb s)) as [t'|] eqn:H; simpl; [|auto].
  eauto using tombKill_keeps_dying.
Qed.

(** What a step does to the list of handlers: nothing, or a new
    connection is appended, or the record of one handler moves on; a
    handler passes the check only when it finds the tomb alive. *)
Lemma step_handlers a s s' :
  step a s = Some s' ->
  handlers s' = handlers s
  \/ handlers s' = handlers s ++ [newHandler]
  \/ exists j h h', handlers s !! j = Some h
       /\ handlers s' = <[j := h']> (handlers s) /\ later h h'
       /\ (foundAlive h' -> foundAlive h \/ stillAlive (tomb s) = true).
Proof.
  intros Hs.
  assert (Hupd : forall j from guard f g,
            handlerStep j from guard f g s = Some s' ->
            (forall x, handlers (g x) = handlers x) ->
            (forall h, hpc h = from -> later h (f h)
               /\ (foundAlive (f h) -> foundAlive h \/ stillAlive (tomb s) = true)) ->
            exists j h h', handlers s !! j = Some h
              /\ handlers s' = <[j := h']> (handlers s) /\ later h h'
              /\ (foundAlive h' -> foundAlive h \/ stillAlive (tomb s) = true)).
  { intros j from guard f g Hst Hg Hf.
    destruct (handlerStep_inv _ _ _ _ _ _ _ Hst) as (h & Hi & Hpc & _ & ->).
    exists j, h, (f h). rewrite Hg. simpl.
    destruct (Hf h Hpc) as [Hl Hsv]. auto. }
  assert (Hset : forall pc h, pc <> HStarting -> hpc h <> HStarting ->
            later h (setHpc pc h)
            /\ (foundAlive (setHpc pc h) ->
                foundAlive h \/ stillAlive (tomb s) = true)).
  { intros pc h Hpc Hfrom. split.
    - unfold later, foundAlive. simpl. repeat split; auto.
      intros [H|H]; [congruence|auto].
    - unfold foundAlive. simpl. intros [H|H]; [contradiction|auto]. }
  assert (Hsame : forall x, handlers x = handlers s ->
            handlers x = handlers s
            \/ handlers x = handlers s ++ [newHandler]
            \/ exists j h h', handlers s !! j = Some h
                 /\ handlers x = <[j := h']> (handlers s) /\ later h h'
                 /\ (foundAlive h' ->
                     foundAlive h \/ stillAlive (tomb s) = true))
    by (intros; left; assumption).
  destruct a; simpl in Hs;
    repeat match type of Hs with
      | match ?x with _ => _ end = Some _ => destruct x eqn:?; try discriminate
      end;
    try (injection Hs as <-; apply Hsame; simpl;
         unfold wgDone; rewrite ?(proj2 (wgAdd_fields _ _)), ?kill_handlers; simpl;
         rewrite ?(proj2 (wgAdd_fields _ _)), ?kill_handlers; reflexivity).
  - (* RunAccept *)
    injection Hs as <-. right. left. reflexivity.
  - (* HandlerAdd *)
    right. right. eapply Hupd; [exact Hs| |].
    + intros x. apply wgAdd_fields.
    + intros h Hpc. apply Hset; [discriminate|rewrite Hpc; discriminate].
  - (* HandlerCheck *)
    right. right. eapply Hupd; [exact Hs|reflexivity|].
    intros h Hpc. destruct (stillAlive (tomb s)).
    + split; [|auto]. unfold later, foundAlive. simpl. repeat split; auto.
    + apply Hset; [discriminate|rewrite Hpc; discriminate].
  - (* HandlerStart *)
    right. right. eapply Hupd; [exact Hs|reflexivity|].
    intros h Hpc. split.
    + unfold later, foundAlive. simpl. repeat split; auto.
    + intros _. left. left. exact Hpc.
  - (* HandlerRequest *)
    right. right. eapply Hupd; [exact Hs|reflexivity|].
    intros h _. split; [|unfold foundAlive; simpl; auto].
    unfold later, foundAlive. simpl. repeat split; auto; lia.
  - (* HandlerReply *)
    injection Hs as <-. right. right. eexists i, _, _.
    split; [eassumption|]. split; [reflexivity|].
    split; [|unfold foundAlive; simpl; auto].
    unfold later, foundAlive. simpl. repeat split; auto; lia.
  - (* HandlerConnDead *)
    right. right. eapply Hupd; [exact Hs|reflexivity|].
    intros h Hpc. apply Hset; [discriminate|rewrite Hpc; discriminate].
  - (* HandlerDying *)
    right. right. eapply Hupd; [exact Hs|reflexivity|].
    intros h Hpc. apply Hset; [discriminate|rewrite Hpc; discriminate].
  - (* HandlerCloseReturn *)
    right. right. eapply Hupd; [exact Hs|reflexivity|].
    intros h Hpc. apply Hset; [discriminate|rewrite Hpc; discriminate].
  - (* HandlerDone *)
    right. right. eapply Hupd; [exact Hs| |].
    + intros x. apply wgAdd_fields.
    + intros h Hpc. apply Hset; [discriminate|rewrite Hpc; discriminate].
Qed.

Lemma tombDone_dying_true t : dying (tombDone t) = true.
Proof.
  unfold tombDone. destruct (tombKill_nil t) as (t' & -> & Hd & _). exact Hd.
Qed.

Lemma handlerStep_tomb i from guard f g s s' :
  handlerStep i from guard f g s = Some s' ->
  (forall x, tomb (g x) = tomb x) -> tomb s' = tomb s.
Proof.
  intros H Hg. destruct (handlerStep_inv _ _ _ _ _ _ _ H) as (h & _ & _ & _ & ->).
  rewrite Hg. reflexivity.
Qed.

(** A dying tomb stays dying. *)
Lemma step_keeps_dying a s s' :
  step a s = Some s' -> dying (tomb s) = true -> dying (tomb s') = true.
Proof.
  intros Hs Hd.
  assert (Hsame : forall x, tomb x = tomb s -> dying (tomb x) = true)
    by (intros x ->; exact Hd).
  destruct a; simpl in Hs;
    try (rewrite (handlerStep_tomb _ _ _ _ _ _ _ Hs); [exact Hd|];
         first [ reflexivity | intros x; apply wgAdd_fields ]);
    repeat match type of Hs with
      | match ?x with _ => _ end = Some _ => destruct x eqn:?; try discriminate
      end;
    injection Hs as <-; simpl;
    try (apply Hsame; simpl; unfold wgDone;
         rewrite ?(proj1 (wgAdd_fields _ _)); reflexivity).
  all: first [ reflexivity
             | apply tombDone_dying_true
             | apply kill_keeps_dying; exact Hd
             | rewrite ?(proj1 (wgAdd_fields _ _)); simpl;
               apply kill_keeps_dying; exact Hd ].
Qed.

Lemma exec_keeps_dying es : forall s s',
  exec es s = Some s' -> dying (tomb s) = true -> dying (tomb s') = true.
Proof.
  induction es as [|a es IH]; intros s s' H Hd; simpl in H.
  - injection H as <-. exact Hd.
  - destruct (step a s) as [s1|] eqn:Hs; [|discriminate].
    eapply IH; [exact H|]. eapply step_keeps_dying; eauto.
Qed.

(** The record of a handler only moves forward. *)
Lemma step_later a s s' i h :
  step a s = Some s' -> handlers s !! i = Some h ->
  exists h', handlers s' !! i = Some h' /\ later h h'.
Proof.
  intros Hs Hi.
  destruct (step_handlers a s s' Hs) as [->|[->|(j & h0 & h' & Hj & -> & Hl & _)]].
  - exists h. split; [exact Hi|apply later_refl].
  - exists h. split; [|apply later_refl].
    rewrite lookup_app_l; [exact Hi|]. eapply lookup_lt_Some. exact Hi.
  - destruct (decide (j = i)) as [->|Hne].
    + exists h'. split.
      * apply list_lookup_insert_eq. eapply lookup_lt_Some. exact Hi.
      * assert (h0 = h) by congruence. subst. exact Hl.
    + exists h. split; [|apply later_refl].
      rewrite list_lookup_insert_ne by exact Hne. exact Hi.
Qed.

Lemma exec_later es : forall s s' i h,
  exec es s = Some s' -> handlers s !! i = Some h ->
  exists h', handlers s' !! i = Some h' /\ later h h'.
Proof.
  induction es as [|a es IH]; intros s s' i h H Hi; simpl in H.
  - injection H as <-. exists h. split; [exact Hi|apply later_refl].
  - destruct (step a s) as [s1|] eqn:Hs; [|discriminate].
    destruct (step_later a s s1 i h Hs Hi) as (h1 & Hi1 & Hl1).
    destruct (IH s1 s' i h1 H Hi1) as (h' & Hi' & Hl').
    exists h'. split; [exact Hi'|]. eapply later_trans; eauto.
Qed.

(** Once the tomb is dying no handler passes the check of the tomb:
    a handler that has found it alive had found it alive before. *)
Lemma step_no_new_serving a s s' i h' :
  Inv s -> dying (tomb s) = true ->
  step a s = Some s' -> handlers s' !! i = Some h' -> foundAlive h' ->
  exists h, handlers s !! i = Some h /\ foundAlive h.
Proof.
  intros I Hd Hs Hi Hsv.
  destruct (step_handlers a s s' Hs) as [Heq|[Heq|(j & h0 & h1 & Hj & Heq & _ & Hnew)]];
    rewrite Heq in Hi.
  - eauto.
  - apply lookup_app_Some in Hi. destruct Hi as [Hi|[_ Hi]]; [eauto|].
    destruct (i - length (handlers s))%nat; simpl in Hi; [|discriminate].
    injection Hi as <-. destruct Hsv as [H|H]; discriminate.
  - destruct (decide (j = i)) as [->|Hne].
    + rewrite list_lookup_insert_eq in Hi by (eapply lookup_lt_Some; exact Hj).
      injection Hi as ->.
      destruct (Hnew Hsv) as [Hold|Hal]; [eauto|].
      rewrite (not_stillAlive_dying s I Hd) in Hal. discriminate.
    + rewrite list_lookup_insert_ne in Hi by exact Hne. eauto.
Qed.

Lemma exec_no_new_serving es : forall s s' i h',
  Inv s -> dying (tomb s) = true ->
  exec es s = Some s' -> handlers s' !! i = Some h' -> foundAlive h' ->
  exists h, handlers s !! i = Some h /\ foundAlive h.
Proof.
  induction es as [|a es IH]; intros s s' i h' I Hd H Hi Hsv; simpl in H.
  - injection H as <-. eauto.
  - destruct (step a s) as [s1|] eqn:Hs; [|discriminate].
    destruct (IH s1 s' i h' (server_step_inv a s s1 I Hs)
                (step_keeps_dying a s s1 Hs Hd) H Hi Hsv) as (h1 & Hi1 & Hsv1).
    eapply step_no_new_serving; eauto.
Qed.

End LifecycleTraces.

Section LifecycleTheorems.
Import Lifecycle.

Lemma kill_nil_dying s : dying (tomb (kill None s)) = true.
Proof. destruct (kill_nil s) as (t' & -> & Hd & _). exact Hd. Qed.

Lemma exec_split pre post s0 s :
  exec (pre ++ post) s0 = Some s ->
  exists s1, exec pre s0 = Some s1 /\ exec post s1 = Some s.
Proof.
  rewrite server_exec_app. destruct (exec pre s0) as [s1|]; [|discriminate]. eauto.
Qed.

(** In a dead server every handler that found the tomb alive has
    exited with all its requests finished; a handler that has not
    exited has not served and never dispatched a request. *)
Lemma dead_handlers_drained s h :
  Inv s -> dead (tomb s) = true -> h ∈ handlers s ->
  drained h /\ completed h = started h
  /\ (hpc h = HNew \/ hpc h = HChecking \/ hpc h = HLeaving \/ hpc h = HExited)
  /\ (hpc h <> HExited -> served h = false /\ started h = 0%nat).
Proof.
  intros I Hdead Hin.
  destruct (inv_waited s I (or_intror (inv_dead s I Hdead))) as (_ & _ & _ & Hall).
  pose proof (proj1 (Forall_forall _ _) Hall h Hin) as Hdr.
  pose proof (proj1 (Forall_forall _ _) (inv_handlers s I) h Hin) as Hok.
  split; [exact Hdr|].
  unfold drained, foundAlive, handlerOk in *.
  destruct (hpc h) eqn:Hpc.
  - destruct Hok as (Hs & H1 & H2). repeat split; auto; congruence.
  - destruct Hok as (Hs & H1 & H2). repeat split; auto; congruence.
  - destruct (Hdr (or_introl eq_refl)) as [Hc _]. discriminate.
  - destruct Hok as [Hs _]. destruct (Hdr (or_intror Hs)) as [Hc _]. discriminate.
  - destruct Hok as [Hs _]. destruct (Hdr (or_intror Hs)) as [Hc _]. discriminate.
  - destruct Hok as [Heq Hz].
    assert (Hs : served h = false).
    { destruct (served h); [|reflexivity].
      destruct (Hdr (or_intror eq_refl)) as [Hc _]. discriminate. }
    repeat split; auto.
  - destruct Hok as [Heq Hz]. repeat split; auto; congruence.
Qed.

End LifecycleTheorems.

(** C1, as stated, fails in three ways.  A handler that has passed the
    check of the tomb before [Stop()] is called goes on to
    [conn.Start()] after it: it begins to serve, and a request is
    dispatched on its connection, while the tomb is dying.  A handler
    that reaches [srv.wg.Add(1)] after [srv.wg.Wait()] has returned is
    still running, between its [Add] and its [Done], when the server
    is dead and [Stop()] has returned.  And a request that the mux gave
    to the handler of the log, charms or tools path, which knows
    neither the tomb nor the wait group, is still being served when
    the server is dead and [Stop()] has returned. *)
Lemma C1_counterexample_handlers_after_stop :
  let view := fun s => (Lifecycle.dying (Lifecycle.tomb s),
                        Lifecycle.dead (Lifecycle.tomb s),
                        Lifecycle.callers s, Lifecycle.handlers s,
                        Lifecycle.wg s, Lifecycle.others s) in
  let start := [ Lifecycle.RunSpawnWatcher; Lifecycle.RunSpawnPinger ] in
  let stop := [ Lifecycle.CallStop ] in
  let shutdown := [ Lifecycle.WatchDying; Lifecycle.WatchCloseListener;
                    Lifecycle.WatchDone; Lifecycle.PingDying; Lifecycle.PingKill;
                    Lifecycle.PingDone; Lifecycle.RunServeReturn;
                    Lifecycle.RunWaitReturn; Lifecycle.RunTombDone;
                    Lifecycle.CallReturn 0 ] in
  let waiting := {| Lifecycle.stopper := true; Lifecycle.cpc := Lifecycle.CWaiting |} in
  let returned := {| Lifecycle.stopper := true;
                     Lifecycle.cpc := Lifecycle.CReturned None |} in
  let checked := [ Lifecycle.RunAccept; Lifecycle.HandlerAdd 0;
                   Lifecycle.HandlerCheck 0 ] in
  (option_map view (Lifecycle.exec (start ++ checked ++ stop) Lifecycle.init)
   = Some (true, false, [waiting],
           [ {| Lifecycle.hpc := Lifecycle.HStarting; Lifecycle.served := false;
                Lifecycle.started := 0; Lifecycle.completed := 0 |} ], 3%Z, 0%nat)
   /\ option_map view
        (Lifecycle.exec (start ++ checked ++ stop
                         ++ [ Lifecycle.HandlerStart 0; Lifecycle.HandlerRequest 0 ])
           Lifecycle.init)
      = Some (true, false, [waiting],
              [ {| Lifecycle.hpc := Lifecycle.HServing; Lifecycle.served := true;
                   Lifecycle.started := 1; Lifecycle.completed := 0 |} ], 3%Z, 0%nat))
  /\ option_map view
       (Lifecycle.exec (start ++ [Lifecycle.RunAccept] ++ stop ++ shutdown
                        ++ [Lifecycle.HandlerAdd 0]) Lifecycle.init)
     = Some (true, true, [returned],
             [ {| Lifecycle.hpc := Lifecycle.HChecking; Lifecycle.served := false;
                  Lifecycle.started := 0; Lifecycle.completed := 0 |} ], 1%Z, 0%nat)
  /\ option_map view
       (Lifecycle.exec (start ++ [Lifecycle.RunAcceptOther] ++ stop ++ shutdown)
          Lifecycle.init)
     = Some (true, true, [returned], [], 0%Z, 1%nat).
Proof.
  cbv zeta. split; [split|split]; reflexivity.
Qed.

(** C1 (amended): in every state the server reaches,
    - a caller of [Stop()] (or [Wait()]) has returned only if the server is
      dead;
    - if the server is dead then [run] has left the accept loop and
      exited, the listener is closed, the goroutine of the mongo pinger
      and the one closing the listener have exited, and every handler of
      an API connection that found the tomb alive has exited with every
      request dispatched on its connection finished; a handler that has
      not exited then has not served and has no request;
    - no handler passes the check of the tomb after [Stop()] was called:
      a handler that has found the tomb alive at the end (and so every
      handler that has served) had found it alive when [Stop()] was
      called;
    - requests are not dropped: the requests dispatched on a connection at
      any earlier moment are among those it has finished once the server
      is dead;
    - a handler that is still running when the server is dead never
      serves: a handler that has found the tomb alive at the end had
      exited, with its requests finished, when the server died;
    - no thread has panicked. *)
Theorem C1_stop_drains_before_dead
    (sched : list Lifecycle.Action) (s : Lifecycle.ServerState) :
  Lifecycle.exec sched Lifecycle.init = Some s ->
  (forall c r, c ∈ Lifecycle.callers s -> Lifecycle.cpc c = Lifecycle.CReturned r ->
     Lifecycle.dead (Lifecycle.tomb s) = true)
  /\ (Lifecycle.dead (Lifecycle.tomb s) = true ->
      Lifecycle.runner s = Lifecycle.RunExit
      /\ Lifecycle.lisClosed s = true
      /\ Lifecycle.watcher s = Lifecycle.WExit
      /\ (exists err, Lifecycle.pinger s = Lifecycle.PExit err)
      /\ forall h, h ∈ Lifecycle.handlers s ->
           (Lifecycle.foundAlive h -> Lifecycle.hpc h = Lifecycle.HExited)
           /\ Lifecycle.completed h = Lifecycle.started h
           /\ (Lifecycle.hpc h = Lifecycle.HNew \/ Lifecycle.hpc h = Lifecycle.HChecking
               \/ Lifecycle.hpc h = Lifecycle.HLeaving
               \/ Lifecycle.hpc h = Lifecycle.HExited)
           /\ (Lifecycle.hpc h <> Lifecycle.HExited ->
               Lifecycle.served h = false /\ Lifecycle.started h = 0%nat))
  /\ (forall pre post, sched = pre ++ Lifecycle.CallStop :: post ->
        exists s1, Lifecycle.exec (pre ++ [Lifecycle.CallStop]) Lifecycle.init = Some s1
          /\ Lifecycle.dying (Lifecycle.tomb s1) = true
          /\ forall i h, Lifecycle.handlers s !! i = Some h ->
               Lifecycle.foundAlive h ->
               exists h1, Lifecycle.handlers s1 !! i = Some h1
                          /\ Lifecycle.foundAlive h1)
  /\ (forall pre post s1, sched = pre ++ post ->
        Lifecycle.exec pre Lifecycle.init = Some s1 ->
        forall i h1, Lifecycle.handlers s1 !! i = Some h1 ->
          exists h, Lifecycle.handlers s !! i = Some h
            /\ Lifecycle.later h1 h
            /\ (Lifecycle.dead (Lifecycle.tomb s) = true ->
                (Lifecycle.started h1 <= Lifecycle.completed h)%nat))
  /\ (forall pre post s1, sched = pre ++ post ->
        Lifecycle.exec pre Lifecycle.init = Some s1 ->
        Lifecycle.dead (Lifecycle.tomb s1) = true ->
        forall i h, Lifecycle.handlers s !! i = Some h -> Lifecycle.foundAlive h ->
          exists h1, Lifecycle.handlers s1 !! i = Some h1
            /\ Lifecycle.hpc h1 = Lifecycle.HExited
            /\ Lifecycle.completed h1 = Lifecycle.started h1)
  /\ Lifecycle.panicked s = false.
Proof.
  intros Hex.
  pose proof (reachable_inv sched s Hex) as I.
  split; [|split; [|split; [|split; [|split]]]].
  - intros c r Hin Hret.
    destruct (proj1 (Forall_forall _ _) (Lifecycle.inv_callers s I) c Hin r Hret) as [H _].
    exact H.
  - intros Hdead.
    pose proof (Lifecycle.inv_dead s I Hdead) as Hrun.
    destruct (Lifecycle.inv_waited s I (or_intror Hrun)) as (Hw & Hp & _ & _).
    split; [exact Hrun|].
    split; [apply (Lifecycle.inv_lis s I); auto|].
    split; [exact Hw|]. split; [exact Hp|].
    intros h Hin.
    destruct (dead_handlers_drained s h I Hdead Hin) as (Hdr & Heq & Hpc & Hrest).
    split; [intros Hfa; exact (proj1 (Hdr Hfa))|].
    split; [exact Heq|]. split; [exact Hpc|exact Hrest].
  - intros pre post ->.
    replace (pre ++ Lifecycle.CallStop :: post)
      with ((pre ++ [Lifecycle.CallStop]) ++ post) in Hex
      by (rewrite <- app_assoc; reflexivity).
    destruct (exec_split _ _ _ _ Hex) as (s1 & H1 & H2).
    exists s1. split; [exact H1|].
    assert (Hd : Lifecycle.dying (Lifecycle.tomb s1) = true).
    { destruct (exec_split _ _ _ _ H1) as (s0 & _ & H0). simpl in H0.
      injection H0 as <-. exact (kill_nil_dying s0). }
    split; [exact Hd|].
    intros i h Hi Hsv.
    exact (exec_no_new_serving post s1 s i h (reachable_inv _ _ H1) Hd H2 Hi Hsv).
  - intros pre post s1 -> H1 i h1 Hi.
    destruct (exec_split _ _ _ _ Hex) as (s1' & H1' & H2).
    assert (s1' = s1) by congruence. subst s1'.
    destruct (exec_later post s1 s i h1 H2 Hi) as (h & Hih & Hl).
    exists h. split; [exact Hih|]. split; [exact Hl|].
    intros Hdead.
    assert (Hin : h ∈ Lifecycle.handlers s) by (eapply list_elem_of_lookup_2; eauto).
    destruct (dead_handlers_drained s h I Hdead Hin) as (_ & Heq & _).
    destruct Hl as (Hst & _). lia.
  - intros pre post s1 -> H1 Hdead i h Hi Hfa.
    destruct (exec_split _ _ _ _ Hex) as (s1' & H1' & H2).
    assert (s1' = s1) by congruence. subst s1'.
    pose proof (reachable_inv pre s1 H1) as I1.
    destruct (Lifecycle.inv_waited s1 I1 (or_intror (Lifecycle.inv_dead s1 I1 Hdead)))
      as (_ & _ & Hd & _).
    destruct (exec_no_new_serving post s1 s i h I1 Hd H2 Hi Hfa) as (h1 & Hi1 & Hfa1).
    assert (Hin : h1 ∈ Lifecycle.handlers s1) by (eapply list_elem_of_lookup_2; eauto).
    destruct (dead_handlers_drained s1 h1 I1 Hdead Hin) as (Hdr & Heq & _).
    exists h1. split; [exact Hi1|]. split; [exact (proj1 (Hdr Hfa1))|exact Heq].
  - exact (Lifecycle.inv_panic s I).
Qed.

Lemma C1_stop_drains_witness :
  Lifecycle.exec Lifecycle.drainRun Lifecycle.init = Some Lifecycle.drainFinal
  /\ Lifecycle.runner Lifecycle.drainFinal = Lifecycle.RunExit
  /\ Lifecycle.panicked Lifecycle.drainFinal = false.
Proof.
  assert (Hex : Lifecycle.exec Lifecycle.drainRun Lifecycle.init
                = Some Lifecycle.drainFinal) by reflexivity.
  destruct (C1_stop_drains_before_dead Lifecycle.drainRun Lifecycle.drainFinal Hex)
    as (_ & Hdead & _ & _ & _ & Hpanic).
  split; [exact Hex|]. split; [|exact Hpanic].
  exact (proj1 (Hdead eq_refl)).
Defined.

Section PingerTraces.
Import Lifecycle.

Lemma wgAdd_pinger d s : pinger (wgAdd d s) = pinger s.
Proof. unfold wgAdd. destruct (wg s + d <? 0)%Z; reflexivity. Qed.

Lemma kill_pinger r s : pinger (kill r s) = pinger s.
Proof. unfold kill. destruct (tombKill r (tomb s)); reflexivity. Qed.

Lemma handlerStep_pinger i from guard f g s s' :
  handlerStep i from guard f g s = Some s' ->
  (forall x, pinger (g x) = pinger x) -> pinger s' = pinger s.
Proof.
  intros H Hg. destruct (handlerStep_inv _ _ _ _ _ _ _ H) as (h & _ & _ & _ & ->).
  rewrite Hg. reflexivity.
Qed.

Lemma pingError_inj e e' : pingError e = pingError e' -> e = e'.
Proof. unfold pingError. intros H. injection H as ->. reflexivity. Qed.

(** How the program counter of the pinger moves in one step. *)
Lemma step_pinger a s s' :
  Inv s -> step a s = Some s' ->
  pinger s' = pinger s
  \/ (pinger s = PNone /\ pinger s' = PSelect)
  \/ (pinger s = PSelect /\ pinger s' = PPing)
  \/ (pinger s = PSelect /\ pinger s' = PReturned ErrDying)
  \/ (pinger s = PPing /\ pinger s' = PSelect)
  \/ (exists e, a = PingResult (Some e) /\ pinger s = PPing
                /\ pinger s' = PReturned (pingError e))
  \/ (exists err, pinger s = PReturned err /\ pinger s' = PKilled err)
  \/ (exists err, pinger s = PKilled err /\ pinger s' = PExit err).
Proof.
  intros I Hs.
  pose proof (proj2 (inv_spawned s I)) as Hsp.
  destruct a; simpl in Hs;
    try (left; apply (handlerStep_pinger _ _ _ _ _ _ _ Hs);
         first [ reflexivity | intros x; apply wgAdd_pinger ]);
    repeat match type of Hs with
      | match ?x with _ => _ end = Some _ => destruct x eqn:?; try discriminate
      end;
    injection Hs as <-; simpl; unfold wgDone;
    rewrite ?wgAdd_pinger, ?kill_pinger; simpl;
    rewrite ?wgAdd_pinger, ?kill_pinger; eauto 12.
  all: try (right; right; right; right; right; left; eauto; fail).
  all: try (right; right; right; right; right; right; eauto; fail).
Qed.

Lemma step_keeps_pingFailed a s s' e :
  Inv s -> step a s = Some s' -> pingFailed (pinger s) e -> pingFailed (pinger s') e.
Proof.
  intros I Hs Hf. unfold pingFailed in *.
  destruct (step_pinger a s s' I Hs)
    as [->|[[H _]|[[H _]|[[H _]|[[H _]|[(x & _ & H & _)|[(x & H & ->)|(x & H & ->)]]]]]]];
    try exact Hf; rewrite H in Hf;
    try (destruct Hf as [Hf|[Hf|Hf]]; discriminate).
  - destruct Hf as [Hf|[Hf|Hf]]; try discriminate. injection Hf as ->. auto.
  - destruct Hf as [Hf|[Hf|Hf]]; try discriminate. injection Hf as ->. auto.
Qed.

Lemma step_pingFailed_origin a s s' e :
  Inv s -> step a s = Some s' -> pingFailed (pinger s') e ->
  pingFailed (pinger s) e \/ a = PingResult (Some e).
Proof.
  intros I Hs Hf. unfold pingFailed in *.
  destruct (step_pinger a s s' I Hs)
    as [Heq|[[_ H]|[[_ H]|[[_ H]|[[_ H]|[(x & -> & _ & H)|[(x & H0 & H)|(x & H0 & H)]]]]]]];
    rewrite ?Heq in Hf; auto; rewrite H in Hf.
  - destruct Hf as [Hf|[Hf|Hf]]; discriminate.
  - destruct Hf as [Hf|[Hf|Hf]]; discriminate.
  - destruct Hf as [Hf|[Hf|Hf]]; discriminate.
  - destruct Hf as [Hf|[Hf|Hf]]; discriminate.
  - destruct Hf as [Hf|[Hf|Hf]]; try discriminate.
    injection Hf as Hf. subst. auto.
  - destruct Hf as [Hf|[Hf|Hf]]; try discriminate. injection Hf as ->. auto.
  - destruct Hf as [Hf|[Hf|Hf]]; try discriminate. injection Hf as ->. auto.
Qed.

Lemma exec_pingFailed es e : forall s s',
  Inv s -> exec es s = Some s' ->
  pingFailed (pinger s) e \/ In (PingResult (Some e)) es ->
  pingFailed (pinger s') e.
Proof.
  induction es as [|a es IH]; intros s s' I H Hor; simpl in H.
  - injection H as <-. destruct Hor as [Hf|[]]. exact Hf.
  - destruct (step a s) as [s1|] eqn:Hs; [|discriminate].
    apply (IH s1 s' (server_step_inv a s s1 I Hs) H).
    destruct Hor as [Hf|[->|Hin]].
    + left. eapply step_keeps_pingFailed; eauto.
    + left. simpl in Hs. destruct (pinger s) eqn:Hp; try discriminate.
      injection Hs as <-. simpl. unfold pingFailed. auto.
    + right. exact Hin.
Qed.

Lemma exec_pingFailed_origin es e : forall s s',
  Inv s -> exec es s = Some s' -> pingFailed (pinger s') e ->
  pingFailed (pinger s) e \/ In (PingResult (Some e)) es.
Proof.
  induction es as [|a es IH]; intros s s' I H Hf; simpl in H.
  - injection H as <-. auto.
  - destruct (step a s) as [s1|] eqn:Hs; [|discriminate].
    destruct (IH s1 s' (server_step_inv a s s1 I Hs) H Hf) as [Hf1|Hin];
      [|right; right; exact Hin].
    destruct (step_pingFailed_origin a s s1 e I Hs Hf1) as [Hf0| ->]; [auto|].
    right. left. reflexivity.
Qed.

End PingerTraces.

Section PingerTheorems.
Import Lifecycle.

(** An error made of another with [fmt.Errorf] is not that error. *)
Lemma ErrorfV_neq format e : ErrorfV format e <> e.
Proof.
  revert format. induction e; intros fmt H; try discriminate.
  injection H as _ H. exact (IHe _ H).
Qed.

Lemma pingKilled_reason s e :
  Inv s -> pingKilled (pinger s) e ->
  dying (tomb s) = true /\ tombErr (tomb s) = Some (pingError e).
Proof.
  intros I Hk. pose proof (inv_pinger s I) as Hp. unfold pingKilled in Hk.
  destruct Hk as [Hk|Hk]; rewrite Hk in Hp; destruct Hp as [Hd [Hc|[_ Hr]]];
    try discriminate; auto.
Qed.

Lemma pingKill_enabled s e :
  Inv s -> pinger s = PReturned (pingError e) ->
  exists s', step PingKill s = Some s'
             /\ dying (tomb s') = true /\ tombErr (tomb s') = Some (pingError e).
Proof.
  intros I Hp.
  assert (Hre : reason (tomb s) = None \/ reason (tomb s) = Some ErrStillAlive).
  { destruct (reason (tomb s)) as [x|] eqn:Hx; [|auto].
    destruct (inv_reason s I x Hx) as [->|[_ [Hk|Hk]]]; [auto|congruence..]. }
  simpl. rewrite Hp. eexists. split; [reflexivity|].
  unfold kill. rewrite (tombKill_pingError _ e Hre). simpl. auto.
Qed.

Lemma dead_pingFailed_killed s e :
  Inv s -> dead (tomb s) = true -> pingFailed (pinger s) e ->
  pingKilled (pinger s) e.
Proof.
  intros I Hdead Hf.
  destruct (inv_waited s I (or_intror (inv_dead s I Hdead))) as (_ & [x Hx] & _).
  unfold pingFailed, pingKilled in *. rewrite Hx in *.
  destruct Hf as [Hf|[Hf|Hf]]; try discriminate. auto.
Qed.

End PingerTheorems.

(** C5, as stated, fails: the error that [Wait()] and [Stop()] return
    after a ping has failed with [e] is not [e].  [mongoPinger] makes a
    new error of it, [fmt.Errorf("error pinging mongo: %v", err)], and
    that one is the reason of the tomb. *)
Lemma C5_counterexample_not_the_ping_error :
  let e := ExternalError "EOF" in
  let view := fun s => (Lifecycle.dead (Lifecycle.tomb s),
                        Lifecycle.tombErr (Lifecycle.tomb s),
                        map Lifecycle.cpc (Lifecycle.callers s)) in
  option_map view (Lifecycle.exec (Lifecycle.pingFailureRun e) Lifecycle.init)
  = Some (true, Some (ErrorfV "error pinging mongo: %v" e),
          [ Lifecycle.CReturned (Some (ErrorfV "error pinging mongo: %v" e));
            Lifecycle.CReturned (Some (ErrorfV "error pinging mongo: %v" e)) ])
  /\ Some (ErrorfV "error pinging mongo: %v" e) <> Some e.
Proof.
  cbv zeta. split; [reflexivity|discriminate].
Qed.

(** C5 (amended): when a ping of the backing store fails with [e],
    [mongoPinger] returns the error it makes of [e],
    [fmt.Errorf("error pinging mongo: %v", e)], which carries [e] and
    is never [e] itself; the goroutine then kills the tomb with it,
    which is always possible and leaves the server dying with that
    error as its reason, whatever [Stop()] or [Kill()] did before.
    Once the server is dead that error is the reason of the tomb, and
    it is what every returned [Wait()] and [Stop()] has returned.
    Conversely a reason that is an error always is the error made of
    a failed ping, put there by the pinger. *)
Theorem C5_ping_failure_is_terminal_cause
    (sched : list Lifecycle.Action) (s : Lifecycle.ServerState) :
  Lifecycle.exec sched Lifecycle.init = Some s ->
  (forall e, In (Lifecycle.PingResult (Some e)) sched ->
     let cause := ErrorfV "error pinging mongo: %v" e in
     cause <> e
     /\ (Lifecycle.pinger s = Lifecycle.PReturned cause
         \/ Lifecycle.pinger s = Lifecycle.PKilled cause
         \/ Lifecycle.pinger s = Lifecycle.PExit cause)
     /\ (Lifecycle.pinger s = Lifecycle.PReturned cause ->
         exists s', Lifecycle.step Lifecycle.PingKill s = Some s'
           /\ Lifecycle.dying (Lifecycle.tomb s') = true
           /\ Lifecycle.tombErr (Lifecycle.tomb s') = Some cause)
     /\ (Lifecycle.pinger s = Lifecycle.PKilled cause
         \/ Lifecycle.pinger s = Lifecycle.PExit cause ->
         Lifecycle.dying (Lifecycle.tomb s) = true
         /\ Lifecycle.tombErr (Lifecycle.tomb s) = Some cause)
     /\ (Lifecycle.dead (Lifecycle.tomb s) = true ->
         Lifecycle.tombErr (Lifecycle.tomb s) = Some cause)
     /\ (forall c r, c ∈ Lifecycle.callers s ->
           Lifecycle.cpc c = Lifecycle.CReturned r ->
           r = Some cause))
  /\ (forall err, Lifecycle.tombErr (Lifecycle.tomb s) = Some err ->
        err <> ErrStillAlive ->
        exists e, err = ErrorfV "error pinging mongo: %v" e
          /\ (Lifecycle.pinger s = Lifecycle.PKilled err
              \/ Lifecycle.pinger s = Lifecycle.PExit err)
          /\ In (Lifecycle.PingResult (Some e)) sched).
Proof.
  intros Hex.
  pose proof (reachable_inv sched s Hex) as I.
  split.
  - intros e Hin. cbv zeta.
    change (ErrorfV "error pinging mongo: %v" e) with (Lifecycle.pingError e).
    assert (Hf : Lifecycle.pingFailed (Lifecycle.pinger s) e).
    { eapply exec_pingFailed; [apply init_inv|exact Hex|]. right. exact Hin. }
    assert (Hdead : Lifecycle.dead (Lifecycle.tomb s) = true ->
                    Lifecycle.tombErr (Lifecycle.tomb s) = Some (Lifecycle.pingError e)).
    { intros Hd. apply (pingKilled_reason s e I).
      apply dead_pingFailed_killed; assumption. }
    split; [apply ErrorfV_neq|].
    split; [exact Hf|]. split; [apply pingKill_enabled; exact I|].
    split; [apply pingKilled_reason; exact I|]. split; [exact Hdead|].
    intros c r Hc Hret.
    destruct (proj1 (Forall_forall _ _) (Lifecycle.inv_callers s I) c Hc r Hret)
      as [Hd ->].
    apply Hdead. exact Hd.
  - intros err Hr Hne.
    destruct (Lifecycle.inv_reason s I err Hr) as [->|[[e ->] Hk]]; [contradiction|].
    exists e. split; [reflexivity|]. split; [exact Hk|].
    assert (Hf : Lifecycle.pingFailed (Lifecycle.pinger s) e).
    { unfold Lifecycle.pingFailed. tauto. }
    destruct (exec_pingFailed_origin sched e _ _ init_inv Hex Hf) as [H0|Hin];
      [|exact Hin].
    unfold Lifecycle.pingFailed in H0. simpl in H0.
    destruct H0 as [H0|[H0|H0]]; discriminate.
Qed.

Lemma C5_ping_failure_witness :
  let e := ExternalError "EOF" in
  Lifecycle.exec (Lifecycle.pingFailureRun e) Lifecycle.init
  = Some (Lifecycle.pingFailureFinal e)
  /\ Lifecycle.tombErr (Lifecycle.tomb (Lifecycle.pingFailureFinal e))
     = Some (ErrorfV "error pinging mongo: %v" e)
  /\ Lifecycle.callers (Lifecycle.pingFailureFinal e)
     = [ {| Lifecycle.stopper := false;
            Lifecycle.cpc := Lifecycle.CReturned
                               (Some (ErrorfV "error pinging mongo: %v" e)) |};
         {| Lifecycle.stopper := true;
            Lifecycle.cpc := Lifecycle.CReturned
                               (Some (ErrorfV "error pinging mongo: %v" e)) |} ].
Proof.
  intros e.
  assert (Hex : Lifecycle.exec (Lifecycle.pingFailureRun e) Lifecycle.init
                = Some (Lifecycle.pingFailureFinal e)) by reflexivity.
  destruct (C5_ping_failure_is_terminal_cause _ _ Hex) as [Hfail _].
  assert (Hin : In (Lifecycle.PingResult (Some e)) (Lifecycle.pingFailureRun e)).
  { simpl. tauto. }
  destruct (Hfail e Hin) as (_ & _ & _ & _ & Hdead & _).
  split; [exact Hex|]. split; [apply Hdead; reflexivity|reflexivity].
Defined.

(* ===================================================================== *)
(** * Further properties *)
(* ===================================================================== *)

(** ** The API server *)

Section ScopeValidation.
Import ApiServer.
Context {State : Type}.

Lemma validate_cached_eq (env : State -> result string)
    (srv : Server State) (envUUID : string) :
  environUUID srv <> "" ->
  validateEnvironUUID env srv envUUID
  = (if String.eqb envUUID "" then None
     else if String.eqb envUUID (environUUID srv) then None
          else Some (UnknownEnvironmentError envUUID), srv).
Proof.
  intros Hc. unfold validateEnvironUUID.
  destruct (String.eqb envUUID "") eqn:He; [reflexivity|].
  rewrite (proj2 (String.eqb_neq _ _) Hc).
  destruct (String.eqb envUUID (environUUID srv)); reflexivity.
Qed.

(** X11: once the environment UUID is cached, [validateEnvironUUID]
    no longer consults the state: its result is the same whatever the
    state would answer, the server is unchanged, it accepts exactly
    the empty UUID and the cached one, and the only error it returns
    is the unknown environment error for the UUID given. *)
Theorem validate_with_cache (env1 env2 : State -> result string)
    (srv : Server State) (envUUID : string) :
  environUUID srv <> "" ->
  validateEnvironUUID env1 srv envUUID = validateEnvironUUID env2 srv envUUID
  /\ snd (validateEnvironUUID env1 srv envUUID) = srv
  /\ (fst (validateEnvironUUID env1 srv envUUID) = None
      <-> envUUID = "" \/ envUUID = environUUID srv)
  /\ (forall e, fst (validateEnvironUUID env1 srv envUUID) = Some e ->
        e = UnknownEnvironmentError envUUID).
Proof.
  intros Hc.
  rewrite !(validate_cached_eq _ srv envUUID Hc).
  split; [reflexivity|]. split; [reflexivity|]. simpl.
  destruct (String.eqb envUUID "") eqn:He.
  - apply String.eqb_eq in He. split; [tauto|]. discriminate.
  - apply String.eqb_neq in He.
    destruct (String.eqb envUUID (environUUID srv)) eqn:Hm.
    + apply String.eqb_eq in Hm. split; [tauto|]. discriminate.
    + apply String.eqb_neq in Hm. split.
      * split; [discriminate|]. intros [H|H]; contradiction.
      * intros e H. injection H as <-. reflexivity.
Qed.

(** X12: with no cached UUID, the first validation of a non-empty
    UUID resolves the environment of the state and caches its UUID,
    also when the validation itself fails; it succeeds exactly for
    that UUID; an empty UUID is accepted without resolving anything;
    and afterwards validation is decided by the cache alone. *)
Theorem validate_resolves_once (env : State -> result string)
    (srv : Server State) (envUUID uuid : string) :
  environUUID srv = "" -> env (state srv) = Ok uuid -> envUUID <> "" ->
  snd (validateEnvironUUID env srv envUUID) = setEnvironUUID srv uuid
  /\ (fst (validateEnvironUUID env srv envUUID) = None <-> envUUID = uuid)
  /\ snd (validateEnvironUUID env srv "") = srv
  /\ (uuid <> "" ->
      forall env' u,
        validateEnvironUUID env' (setEnvironUUID srv uuid) u
        = (if String.eqb u "" then None
           else if String.eqb u uuid then None
                else Some (UnknownEnvironmentError u), setEnvironUUID srv uuid)).
Proof.
  intros Hc He Hne.
  assert (Hlast : uuid <> "" ->
            forall env' u,
              validateEnvironUUID env' (setEnvironUUID srv uuid) u
              = (if String.eqb u "" then None
                 else if String.eqb u uuid then None
                      else Some (UnknownEnvironmentError u), setEnvironUUID srv uuid)).
  { intros Hu env' u. apply (validate_cached_eq env' (setEnvironUUID srv uuid) u). exact Hu. }
  unfold validateEnvironUUID at 1 2.
  rewrite (proj2 (String.eqb_neq _ _) Hne), Hc. simpl. rewrite He. simpl.
  destruct (String.eqb envUUID uuid) eqn:Hm; simpl.
  - apply String.eqb_eq in Hm. split; [reflexivity|]. split; [tauto|].
    split; [reflexivity|exact Hlast].
  - apply String.eqb_neq in Hm. split; [reflexivity|].
    split; [split; [discriminate|contradiction]|]. split; [reflexivity|exact Hlast].
Qed.

(** X13: when the environment cannot be resolved, the resolution
    error is returned as it is, [serveConn] serves the error root
    made of it, the cache stays empty, and a later validation
    resolves again. *)
Theorem validate_resolution_failure (env : State -> result string)
    (srv : Server State) (envUUID : string) (e : error) :
  environUUID srv = "" -> env (state srv) = Err e -> envUUID <> "" ->
  validateEnvironUUID env srv envUUID = (Some e, srv)
  /\ serveConn env srv envUUID = (errRoot e, srv)
  /\ (forall uuid env', env' (state srv) = Ok uuid ->
        snd (validateEnvironUUID env' (snd (validateEnvironUUID env srv envUUID)) envUUID)
        = setEnvironUUID srv uuid).
Proof.
  intros Hc He Hne.
  assert (Hv : validateEnvironUUID env srv envUUID = (Some e, srv)).
  { unfold validateEnvironUUID.
    rewrite (proj2 (String.eqb_neq _ _) Hne), Hc. simpl. rewrite He. reflexivity. }
  split; [exact Hv|]. split.
  - unfold serveConn. rewrite Hv. reflexivity.
  - intros uuid env' He'. rewrite Hv. simpl.
    unfold validateEnvironUUID.
    rewrite (proj2 (String.eqb_neq _ _) Hne), Hc. simpl. rewrite He'. simpl.
    destruct (String.eqb envUUID uuid); reflexivity.
Qed.

End ScopeValidation.

Lemma validate_with_cache_witness :
  let srv := {| ApiServer.state := tt; ApiServer.environUUID := "env-1";
                ApiServer.addr := "localhost:17070"; ApiServer.dataDir := "/d";
                ApiServer.logDir := "/l"; ApiServer.limiter := 10 |} in
  ApiServer.validateEnvironUUID (fun _ : unit => Ok "env-2") srv "env-1"
  = ApiServer.validateEnvironUUID (fun _ : unit => Err ErrPerm) srv "env-1"
  /\ fst (ApiServer.validateEnvironUUID (fun _ : unit => Ok "env-2") srv "env-1") = None.
Proof.
  intros srv.
  assert (H : ApiServer.environUUID srv <> "") by discriminate.
  destruct (validate_with_cache (fun _ : unit => Ok "env-2")
              (fun _ : unit => Err ErrPerm) srv "env-1" H) as (H1 & _ & H2 & _).
  split; [exact H1|]. apply (proj2 H2). right. reflexivity.
Defined.

Lemma validate_resolves_once_witness :
  let env := fun _ : unit => Ok "env-1" in
  let srv := {| ApiServer.state := tt; ApiServer.environUUID := "";
                ApiServer.addr := "localhost:17070"; ApiServer.dataDir := "/d";
                ApiServer.logDir := "/l"; ApiServer.limiter := 10 |} in
  snd (ApiServer.validateEnvironUUID env srv "env-2")
  = ApiServer.setEnvironUUID srv "env-1"
  /\ snd (ApiServer.validateEnvironUUID env srv "") = srv.
Proof.
  intros env srv.
  assert (H1 : ApiServer.environUUID srv = "") by reflexivity.
  assert (H2 : env (ApiServer.state srv) = Ok "env-1") by reflexivity.
  assert (H3 : "env-2" <> "") by discriminate.
  destruct (validate_resolves_once env srv "env-2" "env-1" H1 H2 H3)
    as (Ha & _ & Hb & _).
  split; [exact Ha|exact Hb].
Defined.

Lemma validate_resolution_failure_witness :
  let env := fun _ : unit => Err ErrPerm in
  let srv := {| ApiServer.state := tt; ApiServer.environUUID := "";
                ApiServer.addr := "localhost:17070"; ApiServer.dataDir := "/d";
                ApiServer.logDir := "/l"; ApiServer.limiter := 10 |} in
  ApiServer.validateEnvironUUID env srv "env-1" = (Some ErrPerm, srv)
  /\ ApiServer.serveConn env srv "env-1" = (ApiServer.errRoot ErrPerm, srv).
Proof.
  intros env srv.
  assert (H1 : ApiServer.environUUID srv = "") by reflexivity.
  assert (H2 : env (ApiServer.state srv) = Err ErrPerm) by reflexivity.
  assert (H3 : "env-1" <> "") by discriminate.
  destruct (validate_resolution_failure env srv "env-1" ErrPerm H1 H2 H3)
    as (Ha & Hb & _).
  split; [exact Ha|exact Hb].
Defined.

Section ServerStart.
Import ApiServer.
Context {Listener Certificate State : Type}.
Variable netListen : string -> result Listener.
Variable lisAddr : Listener -> string.
Variable X509KeyPair : list Byte.byte -> list Byte.byte -> result Certificate.

(** X14: the outcomes of [NewServer]: a failure to listen is returned
    with nothing logged; a bad key pair is found only after the
    listener is bound and "listening on" is logged, and its error is
    returned; [run] is started exactly when a server is returned;
    something is logged exactly when the address could be bound; and
    the server returned holds the listener's address, the arguments,
    a limiter of [loginRateLimit] and no cached UUID. *)
Theorem NewServer_outcomes (s : State) address cert key datadir logdir :
  let r := NewServer netListen lisAddr X509KeyPair s address cert key datadir logdir in
  (forall e, netListen address = Err e ->
     r = (None, Some e, {| logged := []; running := None |}))
  /\ (forall lis e, netListen address = Ok lis -> X509KeyPair cert key = Err e ->
        fst r = (None, Some e) /\ running _ _ _ (snd r) = None
        /\ logged _ _ _ (snd r) = [ {| level := INFO; logFormat := "listening on %q";
                                 logArgs := [lisAddr lis] |} ])
  /\ (is_Some (running _ _ _ (snd r)) <-> is_Some (fst (fst r)))
  /\ (logged _ _ _ (snd r) <> [] <-> bindable netListen address)
  /\ (forall srv, fst (fst r) = Some srv ->
        exists lis c, netListen address = Ok lis /\ X509KeyPair cert key = Ok c
          /\ running _ _ _ (snd r) = Some (srv, lis, c)
          /\ addr srv = lisAddr lis /\ environUUID srv = ""
          /\ limiter srv = loginRateLimit /\ state srv = s
          /\ dataDir srv = datadir /\ logDir srv = logdir).
Proof.
  cbv zeta. unfold NewServer, bindable.
  destruct (netListen address) as [lis|e0] eqn:Hl.
  - destruct (X509KeyPair cert key) as [c|e1] eqn:Hc; simpl.
    + split; [discriminate|]. split; [discriminate|].
      split; [split; eauto|]. split; [split; [eauto|discriminate]|].
      intros srv H. injection H as <-. exists lis, c. repeat split.
    + split; [discriminate|].
      split; [intros l e H1 H2; injection H1 as <-; injection H2 as <-; auto|].
      split; [split; intros [x H]; discriminate|].
      split; [split; [eauto|discriminate]|]. discriminate.
  - simpl. split; [intros e H; injection H as <-; reflexivity|].
    split; [discriminate|]. split; [split; intros [x H]; discriminate|].
    split; [split; [congruence|intros [x H]; discriminate]|]. discriminate.
Qed.

End ServerStart.

Section RequestIds.
Import Notifier.

(** X15: the id of the n-th request notifier created since the start
    of the process is a 64-bit integer; it is n itself up to
    2^63 - 1; ids repeat with period 2^64; and the id 0 is given
    exactly to the notifiers whose number is a multiple of 2^64. *)
Theorem ids_count_up (n : N) :
  (1 <= n)%N ->
  (minInt64 <= nthId n <= maxInt64)
  /\ ((n <= 2^63 - 1)%N -> nthId n = Z.of_N n)
  /\ nthId (n + 2^64) = nthId n
  /\ (nthId n = 0 <-> exists k : N, n = (k * 2^64)%N).
Proof.
  intros Hn. rewrite !nthId_spec by lia.
  split; [apply wrap64_range|]. split.
  - intros Hle. apply wrap64_small. unfold minInt64, maxInt64. lia.
  - split.
    + rewrite N2Z.inj_add. change (Z.of_N (2^64)) with (2^64). apply wrap64_period.
    + unfold wrap64. split.
      * intros H.
        assert (Hm : (Z.of_N n + 2^63) mod 2^64 = 2^63) by lia.
        pose proof (Z.div_mod (Z.of_N n + 2^63) (2^64) ltac:(lia)) as Hd.
        rewrite Hm in Hd.
        exists (Z.to_N ((Z.of_N n + 2^63) / 2^64)).
        assert (0 <= (Z.of_N n + 2^63) / 2^64).
        { apply Z.div_pos; lia. }
        apply N2Z.inj. rewrite N2Z.inj_mul, Z2N.id by lia.
        change (Z.of_N (2^64)) with (2^64). lia.
      * intros [k ->]. rewrite N2Z.inj_mul. change (Z.of_N (2^64)) with (2^64).
        rewrite Z.add_comm, Z_mod_plus_full. reflexivity.
Qed.

End RequestIds.

Lemma ids_count_up_witness :
  Notifier.nthId 3 = 3 /\ Notifier.nthId (3 + 2^64) = Notifier.nthId 3.
Proof.
  assert (H : (1 <= 3)%N) by lia.
  destruct (ids_count_up 3 H) as (_ & Hsmall & Hperiod & _).
  split; [|exact Hperiod].
  apply Hsmall. vm_compute. discriminate.
Defined.

(** ** Documents of the [state] package *)

Section DocOps.
Import Txn StatePkg StateVocabulary.

Variable env : nat -> gmap (string * string) (gmap string Value)
               -> gmap (string * string) (gmap string Value).
Variable fault : nat -> option error.


Lemma applyOps_single (s : gmap (string * string) (gmap string Value)) op :
  applyOps s [op] = if checkAssert s op then Ok (applyChange s op) else Err ErrAborted.
Proof.
  unfold applyOps. simpl. rewrite andb_true_r. reflexivity.
Qed.

Lemma create_networks_applies (s : gmap (string * string) (gmap string Value)) st id nets :
  applyOps s [createRequestedNetworksOp st id nets]
  = match s !! (requestedNetworks st, id) with
    | None => Ok (<[(requestedNetworks st, id) := {[ "networks" := VStrs nets ]}]> s)
    | Some _ => Err ErrAborted
    end.
Proof.
  rewrite applyOps_single. unfold checkAssert, applyChange. simpl.
  destruct (s !! (requestedNetworks st, id)) eqn:H.
  - rewrite bool_decide_eq_false_2 by discriminate. reflexivity.
  - rewrite bool_decide_eq_true_2 by reflexivity. reflexivity.
Qed.

Lemma remove_networks_applies (s : gmap (string * string) (gmap string Value)) st id :
  applyOps s [removeRequestedNetworksOp st id]
  = Ok (delete (requestedNetworks st, id) s).
Proof. rewrite applyOps_single. reflexivity. Qed.

Lemma read_networks_sees st id w :
  fault (tick w) = None ->
  fst (readRequestedNetworks env fault st id w)
  = match seen env w !! (requestedNetworks st, id) with
    | Some d => (getStrs d "networks", None)
    | None => ([], None)
    end.
Proof.
  intros Hf. unfold readRequestedNetworks, FindId, seen. rewrite Hf. simpl.
  destruct (env (tick w) (store w) !! (requestedNetworks st, id)); reflexivity.
Qed.


Lemma commit_done ops w w1 :
  commit env fault ops w = (None, w1) ->
  fault (tick w) = None /\ applyOps (seen env w) ops = Ok (store w1)
  /\ tick w1 = S (tick w).
Proof.
  unfold commit, seen. destruct (fault (tick w)); [discriminate|]. simpl.
  destruct (applyOps (env (tick w) (store w)) ops); [|discriminate].
  intros H. injection H as <-. auto.
Qed.

Lemma commit_no_fault ops w :
  fault (tick w) = None ->
  commit env fault ops w
  = match applyOps (seen env w) ops with
    | Ok s' => (None, {| store := s'; tick := S (tick w);
                         submitted := submitted w ++ [ops]; log := log w |})
    | Err e => (Some e, {| store := seen env w; tick := S (tick w);
                           submitted := submitted w ++ [ops]; log := log w |})
    end.
Proof.
  intros Hf. unfold commit, seen. rewrite Hf. simpl.
  destruct (applyOps (env (tick w) (store w)) ops); reflexivity.
Qed.

(** X6: when the transaction of [createRequestedNetworksOp] commits,
    there was no document under the id; a following
    [readRequestedNetworks] (nobody writing in between) returns the
    networks that were given, and a second creation under the same id
    is aborted and leaves the store as it is: the networks are
    immutable. *)
Theorem networks_create_then_read st id nets w w1 :
  commit env fault [createRequestedNetworksOp st id nets] w = (None, w1) ->
  fault (tick w1) = None -> seen env w1 = store w1 ->
  seen env w !! (requestedNetworks st, id) = None
  /\ fst (readRequestedNetworks env fault st id w1) = (nets, None)
  /\ (forall nets',
        fst (commit env fault [createRequestedNetworksOp st id nets'] w1)
        = Some ErrAborted
        /\ store (snd (commit env fault [createRequestedNetworksOp st id nets'] w1))
           = store w1).
Proof.
  intros Hc Hf Hq.
  destruct (commit_done _ _ _ Hc) as (_ & Happ & _).
  rewrite create_networks_applies in Happ.
  destruct (seen env w !! (requestedNetworks st, id)) eqn:Hm; [discriminate|].
  injection Happ as Hs.
  split; [reflexivity|]. split.
  - rewrite read_networks_sees by exact Hf. rewrite Hq, <- Hs.
    rewrite lookup_insert_eq. unfold getStrs. rewrite lookup_singleton_eq. reflexivity.
  - intros nets'. rewrite commit_no_fault by exact Hf.
    rewrite create_networks_applies, Hq, <- Hs, lookup_insert_eq. simpl. auto.
Qed.

(** X7: the transaction of [removeRequestedNetworksOp] asserts
    nothing, so it commits whether or not the document exists; after
    it [readRequestedNetworks] returns no networks and no error, and
    removing after creating gives back the store before the
    creation. *)
Theorem networks_remove_then_read st id w :
  fault (tick w) = None ->
  let r := commit env fault [removeRequestedNetworksOp st id] w in
  fst r = None
  /\ store (snd r) = delete (requestedNetworks st, id) (seen env w)
  /\ (fault (tick (snd r)) = None -> seen env (snd r) = store (snd r) ->
      fst (readRequestedNetworks env fault st id (snd r)) = ([], None))
  /\ (forall nets (s0 s1 : gmap (string * string) (gmap string Value)),
        s0 !! (requestedNetworks st, id) = None ->
        applyOps s0 [createRequestedNetworksOp st id nets] = Ok s1 ->
        applyOps s1 [removeRequestedNetworksOp st id] = Ok s0).
Proof.
  intros Hf. cbv zeta. rewrite commit_no_fault by exact Hf.
  rewrite remove_networks_applies. simpl.
  split; [reflexivity|]. split; [reflexivity|]. split.
  - intros Hf1 Hq. rewrite read_networks_sees by exact Hf1.
    rewrite Hq. simpl. rewrite lookup_delete_eq. reflexivity.
  - intros nets s0 s1 Hm Hc. rewrite create_networks_applies, Hm in Hc.
    injection Hc as <-. rewrite remove_networks_applies, delete_insert_eq.
    rewrite delete_id by exact Hm. reflexivity.
Qed.

(** X8: the only errors [readRequestedNetworks] returns are the
    failures of the store other than [mgo.ErrNotFound], they are
    returned as they are and with no networks; the call makes one
    access to the store and submits nothing. *)
Theorem networks_read_errors st id w :
  let r := readRequestedNetworks env fault st id w in
  (forall e, snd (fst r) = Some e ->
     fault (tick w) = Some e /\ e <> ErrNotFound /\ fst (fst r) = [])
  /\ (forall e, fault (tick w) = Some e -> e <> ErrNotFound ->
        fst r = ([], Some e))
  /\ tick (snd r) = S (tick w) /\ submitted (snd r) = submitted w.
Proof.
  cbv zeta. unfold readRequestedNetworks, FindId.
  destruct (fault (tick w)) as [e0|] eqn:Hf.
  - destruct e0; simpl; repeat split; try congruence; try discriminate;
      try (intros e H; injection H as <-; repeat split; try reflexivity; discriminate);
      try (intros e H Hne; injection H as <-; try reflexivity; contradiction).
  - destruct (store (access env w) !! (requestedNetworks st, id)); simpl;
      repeat split; try discriminate.
Qed.


Lemma create_meter_applies (s : gmap (string * string) (gmap string Value)) st gk m :
  applyOps s [createMeterStatusOp st gk m]
  = match s !! (meterStatusC, docID st gk) with
    | None => Ok (<[(meterStatusC, docID st gk)
                    := encodeMeterStatus (setEnvUUID m (EnvironUUID st))]> s)
    | Some _ => Err ErrAborted
    end.
Proof.
  rewrite applyOps_single. unfold checkAssert, applyChange. simpl.
  destruct (s !! (meterStatusC, docID st gk)) eqn:H.
  - rewrite bool_decide_eq_false_2 by discriminate. reflexivity.
  - rewrite bool_decide_eq_true_2 by reflexivity. reflexivity.
Qed.

Lemma decode_encode_meter m : decodeMeterStatus (encodeMeterStatus m) = m.
Proof.
  destruct m as [i e c n]. unfold decodeMeterStatus, encodeMeterStatus, getStr. simpl.
  repeat (rewrite ?lookup_insert_eq; rewrite ?lookup_insert_ne by discriminate).
  rewrite ?lookup_singleton_eq. reflexivity.
Qed.

Lemma getMeterStatusDoc_sees u w :
  fault (tick w) = None ->
  fst (getMeterStatusDoc env fault u w)
  = match seen env w !! (meterStatusC, docID (st u) (globalKey u)) with
    | Some d => Ok (decodeMeterStatus d)
    | None => Err (Trace ErrNotFound)
    end.
Proof.
  intros Hf. unfold getMeterStatusDoc, envFindId, FindId, seen. rewrite Hf. simpl.
  destruct (env (tick w) (store w) !! (meterStatusC, docID (st u) (globalKey u)));
    reflexivity.
Qed.

(** X9: when the transaction of [createMeterStatusOp] commits, there
    was no meter status document for the key; the document a
    following [getMeterStatusDoc] reads carries the code and info of
    the given document and the environment UUID of the state,
    whatever UUID the given document had; [GetMeterStatus] returns
    that code and info; a second creation for the key is aborted. *)
Theorem meter_create_then_get u m w w1 :
  commit env fault [createMeterStatusOp (st u) (globalKey u) m] w = (None, w1) ->
  fault (tick w1) = None -> seen env w1 = store w1 ->
  seen env w !! (meterStatusC, docID (st u) (globalKey u)) = None
  /\ (exists md, fst (getMeterStatusDoc env fault u w1) = Ok md
        /\ Code md = Code m /\ Info md = Info m
        /\ EnvUUID md = EnvironUUID (st u))
  /\ fst (GetMeterStatus env fault u w1) = (Code m, Info m, None)
  /\ (forall m',
        fst (commit env fault [createMeterStatusOp (st u) (globalKey u) m'] w1)
        = Some ErrAborted).
Proof.
  intros Hc Hf Hq.
  destruct (commit_done _ _ _ Hc) as (_ & Happ & _).
  rewrite create_meter_applies in Happ.
  destruct (seen env w !! (meterStatusC, docID (st u) (globalKey u))) eqn:Hm;
    [discriminate|].
  injection Happ as Hs.
  assert (Hdoc : fst (getMeterStatusDoc env fault u w1)
                 = Ok (setEnvUUID m (EnvironUUID (st u)))).
  { rewrite getMeterStatusDoc_sees by exact Hf. rewrite Hq, <- Hs.
    rewrite lookup_insert_eq, decode_encode_meter. reflexivity. }
  split; [reflexivity|]. split; [|split].
  - exists (setEnvUUID m (EnvironUUID (st u))). split; [exact Hdoc|].
    destruct m; repeat split.
  - unfold GetMeterStatus.
    destruct (getMeterStatusDoc env fault u w1) as [r w2]. simpl in Hdoc. subst r.
    destruct m; reflexivity.
  - intros m'. rewrite commit_no_fault by exact Hf.
    rewrite create_meter_applies, Hq, <- Hs, lookup_insert_eq. reflexivity.
Qed.

(** X10: the transaction of [removeMeterStatusOp] asserts nothing and
    commits; after it [GetMeterStatus] returns NOT AVAILABLE, no info
    and the annotated not-found error, and [SetMeterStatus] with a
    valid code fails on its first read, with the annotated error and
    without submitting a transaction. *)
Theorem meter_remove_then_get nrRetries u w code info :
  fault (tick w) = None ->
  let r := commit env fault [removeMeterStatusOp (st u) (globalKey u)] w in
  fst r = None
  /\ store (snd r) = delete (meterStatusC, docID (st u) (globalKey u)) (seen env w)
  /\ (fault (tick (snd r)) = None -> seen env (snd r) = store (snd r) ->
      fst (GetMeterStatus env fault u (snd r))
      = (MeterNotAvailable, "",
         Some (Annotatef (Trace ErrNotFound)
                 "cannot retrieve meter status for unit %s" [Name u]))
      /\ (validCode code = true ->
          fst (fst (SetMeterStatus env fault nrRetries code info u (snd r)))
          = Some (Annotatef (Trace ErrNotFound)
                    "cannot update meter status for unit %s" [Name u])
          /\ submitted (snd (SetMeterStatus env fault nrRetries code info u (snd r)))
             = submitted (snd r))).
Proof.
  intros Hf. cbv zeta. rewrite commit_no_fault by exact Hf.
  rewrite applyOps_single. simpl.
  split; [reflexivity|]. split; [reflexivity|].
  intros Hf1 Hq.
  set (w1 := {| store := _; tick := _; submitted := _; log := _ |}) in *.
  assert (Hdoc : fst (getMeterStatusDoc env fault u w1) = Err (Trace ErrNotFound)).
  { rewrite getMeterStatusDoc_sees by exact Hf1. rewrite Hq. unfold w1. simpl.
    unfold applyChange. simpl. rewrite lookup_delete_eq. reflexivity. }
  pose proof (getMeterStatusDoc_submitted env fault u w1) as Hsub.
  split.
  - unfold GetMeterStatus.
    destruct (getMeterStatusDoc env fault u w1) as [r w2]. simpl in Hdoc. subst r.
    reflexivity.
  - intros Hvalid. unfold SetMeterStatus. rewrite Hvalid. simpl.
    destruct (getMeterStatusDoc env fault u w1) as [r w2]. simpl in Hdoc, Hsub. subst r.
    simpl. split; [reflexivity|exact Hsub].
Qed.

End DocOps.

Lemma networks_create_then_read_witness :
  let op := StatePkg.createRequestedNetworksOp StatePkg.sampleState "s#wordpress"
              ["net1"; "net2"] in
  let w1 := snd (Txn.commit StatePkg.quiet StatePkg.noFault [op] StatePkg.emptyWorld) in
  fst (StatePkg.readRequestedNetworks StatePkg.quiet StatePkg.noFault
         StatePkg.sampleState "s#wordpress" w1)
  = (["net1"; "net2"], None)
  /\ fst (Txn.commit StatePkg.quiet StatePkg.noFault
            [StatePkg.createRequestedNetworksOp StatePkg.sampleState "s#wordpress" []] w1)
     = Some ErrAborted.
Proof.
  intros op w1.
  assert (Hc : Txn.commit StatePkg.quiet StatePkg.noFault [op] StatePkg.emptyWorld
               = (None, w1)) by (vm_compute; reflexivity).
  assert (Hf : StatePkg.noFault (Txn.tick w1) = None) by reflexivity.
  assert (Hq : StateVocabulary.seen StatePkg.quiet w1 = Txn.store w1) by reflexivity.
  destruct (networks_create_then_read StatePkg.quiet StatePkg.noFault
              StatePkg.sampleState "s#wordpress" ["net1"; "net2"]
              StatePkg.emptyWorld w1 Hc Hf Hq) as (_ & Hread & Hagain).
  split; [exact Hread|]. exact (proj1 (Hagain [])).
Defined.

Lemma networks_remove_then_read_witness :
  let w := StatePkg.emptyWorld in
  let r := Txn.commit StatePkg.quiet StatePkg.noFault
             [StatePkg.removeRequestedNetworksOp StatePkg.sampleState "s#wordpress"] w in
  fst r = None
  /\ fst (StatePkg.readRequestedNetworks StatePkg.quiet StatePkg.noFault
            StatePkg.sampleState "s#wordpress" (snd r)) = ([], None).
Proof.
  intros w r.
  assert (Hf : StatePkg.noFault (Txn.tick w) = None) by reflexivity.
  destruct (networks_remove_then_read StatePkg.quiet StatePkg.noFault
              StatePkg.sampleState "s#wordpress" w Hf) as (Hres & _ & Hread & _).
  split; [exact Hres|]. apply Hread; reflexivity.
Defined.

Lemma meter_create_then_get_witness :
  let m := {| StatePkg.DocID := ""; StatePkg.EnvUUID := "other";
              StatePkg.Code := "NOT SET"; StatePkg.Info := "" |} in
  let u := StatePkg.sampleUnit in
  let op := StatePkg.createMeterStatusOp (StatePkg.st u) (StatePkg.globalKey u) m in
  let w1 := snd (Txn.commit StatePkg.quiet StatePkg.noFault [op] StatePkg.emptyWorld) in
  fst (StatePkg.GetMeterStatus StatePkg.quiet StatePkg.noFault u w1)
  = ("NOT SET", "", None)
  /\ exists md, fst (StatePkg.getMeterStatusDoc StatePkg.quiet StatePkg.noFault u w1)
                = Ok md /\ StatePkg.EnvUUID md = "env-1".
Proof.
  intros m u op w1.
  assert (Hc : Txn.commit StatePkg.quiet StatePkg.noFault [op] StatePkg.emptyWorld
               = (None, w1)) by (vm_compute; reflexivity).
  assert (Hf : StatePkg.noFault (Txn.tick w1) = None) by reflexivity.
  assert (Hq : StateVocabulary.seen StatePkg.quiet w1 = Txn.store w1) by reflexivity.
  destruct (meter_create_then_get StatePkg.quiet StatePkg.noFault u m
              StatePkg.emptyWorld w1 Hc Hf Hq) as (_ & (md & Hmd & _ & _ & Henv) & Hget & _).
  split; [exact Hget|]. exists md. split; [exact Hmd|exact Henv].
Defined.

Lemma meter_remove_then_get_witness :
  let u := StatePkg.sampleUnit in
  let w := StatePkg.worldOf (StatePkg.sampleStore StatePkg.Alive "AMBER" "") in
  let r := Txn.commit StatePkg.quiet StatePkg.noFault
             [StatePkg.removeMeterStatusOp (StatePkg.st u) (StatePkg.globalKey u)] w in
  fst r = None
  /\ fst (StatePkg.GetMeterStatus StatePkg.quiet StatePkg.noFault u (snd r))
     = ("NOT AVAILABLE", "",
        Some (Annotatef (Trace ErrNotFound)
                "cannot retrieve meter status for unit %s" ["wordpress/0"])).
Proof.
  intros u w r.
  assert (Hf : StatePkg.noFault (Txn.tick w) = None) by reflexivity.
  destruct (meter_remove_then_get StatePkg.quiet StatePkg.noFault 3 u w "GREEN" "" Hf)
    as (Hres & _ & Hafter).
  split; [exact Hres|].
  destruct Hafter as [Hget _]; [reflexivity|reflexivity|exact Hget].
Defined.

(** ** [SetMeterStatus] *)

Section QuietStore.
Import Txn StatePkg StateVocabulary.

Variable nrRetries : nat.

Lemma quiet_FindId c id w :
  FindId quiet noFault c id w
  = (match store w !! (c, id) with Some d => Ok d | None => Err ErrNotFound end,
     access quiet w).
Proof.
  unfold FindId, noFault. simpl. unfold quiet.
  destruct (store w !! (c, id)); reflexivity.
Qed.

Lemma quiet_commit ops w :
  commit quiet noFault ops w
  = match applyOps (store w) ops with
    | Ok s' => (None, {| store := s'; tick := S (tick w);
                         submitted := submitted w ++ [ops]; log := log w |})
    | Err e => (Some e, {| store := store w; tick := S (tick w);
                           submitted := submitted w ++ [ops]; log := log w |})
    end.
Proof.
  unfold commit, noFault. simpl. unfold quiet.
  destruct (applyOps (store w) ops); reflexivity.
Qed.

Lemma decode_updated d code info :
  Code (decodeMeterStatus (<["info" := VStr info]> (<["code" := VStr code]> d))) = code
  /\ Info (decodeMeterStatus (<["info" := VStr info]> (<["code" := VStr code]> d))) = info.
Proof.
  unfold decodeMeterStatus, getStr. simpl.
  rewrite lookup_insert_ne by discriminate.
  rewrite !lookup_insert_eq. split; reflexivity.
Qed.

Lemma sameStatus_true m code info :
  sameStatus m code info = true -> Code m = code /\ Info m = info.
Proof.
  unfold sameStatus. intros H. apply andb_true_iff in H. destruct H as [H1 H2].
  apply String.eqb_eq in H1, H2. auto.
Qed.


Lemma quiet_getMeterStatusDoc u w :
  getMeterStatusDoc quiet noFault u w
  = (match store w !! (meterStatusC, docID (st u) (globalKey u)) with
     | Some d => Ok (decodeMeterStatus d)
     | None => Err (Trace ErrNotFound)
     end, access quiet w).
Proof.
  unfold getMeterStatusDoc, envFindId. rewrite quiet_FindId.
  destruct (store w !! (meterStatusC, docID (st u) (globalKey u))); reflexivity.
Qed.

Lemma quiet_GetMeterStatus u w d :
  store w !! (meterStatusC, docID (st u) (globalKey u)) = Some d ->
  fst (GetMeterStatus quiet noFault u w) = (getStr d "code", getStr d "info", None).
Proof.
  intros Hd. unfold GetMeterStatus. rewrite quiet_getMeterStatusDoc, Hd. reflexivity.
Qed.

Lemma runFrom_committed {S : Type} env fault
    (buildOps : nat -> S -> World -> result (list Op) * S * World)
    fuel attempt s w ops s' w' w'' :
  buildOps attempt s w = (Ok ops, s', w') ->
  runTransaction env fault ops w' = (None, w'') ->
  runFrom env fault buildOps (Datatypes.S fuel) attempt s w = (None, s', w'').
Proof. intros Hb Hr. simpl. rewrite Hb, Hr. reflexivity. Qed.


Lemma quiet_submit_alive code info u w d :
  store w !! (meterStatusC, docID (st u) (globalKey u)) = Some d ->
  unitAlive (store w) u ->
  runTransaction quiet noFault (setMeterStatusOp u (st u) (globalKey u) code info) w
  = (None, {| store := <[(meterStatusC, docID (st u) (globalKey u))
                          := updated d code info]> (store w);
              tick := S (tick w);
              submitted := submitted w
                           ++ [setMeterStatusOp u (st u) (globalKey u) code info];
              log := log w |}).
Proof.
  intros Hd Halive.
  change (runTransaction quiet noFault (setMeterStatusOp u (st u) (globalKey u) code info) w)
    with (commit quiet noFault (setMeterStatusOp u (st u) (globalKey u) code info) w).
  rewrite quiet_commit.
  destruct (applyOps_setMeterStatusOp u (st u) (globalKey u) code info (store w))
    as [(_ & d' & Hd' & ->)|[[Hbad|Hbad] _]];
    [| contradiction | exfalso; apply Hbad; exists d; exact Hd ].
  assert (d' = d) by congruence. subst d'. reflexivity.
Qed.

(** X1: in a store nobody else writes to and whose accesses do not
    fail, [SetMeterStatus] with a valid code on a unit that is alive
    and has a meter status document returns no error, a following
    [GetMeterStatus] of the unit returns the code and the info that
    were set, and at most one transaction was submitted. *)
Theorem set_then_get code info u w :
  validCode code = true -> (1 <= nrRetries)%nat ->
  unitAlive (store w) u ->
  meterDocExists (store w) (st u) (globalKey u) ->
  let r := SetMeterStatus quiet noFault nrRetries code info u w in
  fst (fst r) = None
  /\ fst (GetMeterStatus quiet noFault (snd (fst r)) (snd r)) = (code, info, None)
  /\ (length (submitted (snd r)) <= S (length (submitted w)))%nat.
Proof.
  intros Hvalid Hn Halive [d Hd]. cbv zeta.
  unfold SetMeterStatus. rewrite Hvalid. cbn [negb].
  rewrite quiet_getMeterStatusDoc, Hd.
  destruct (sameStatus (decodeMeterStatus d) code info) eqn:Hsame.
  - cbn [fst snd].
    apply sameStatus_true in Hsame. destruct Hsame as [Hc Hi].
    rewrite (quiet_GetMeterStatus u (access quiet w) d Hd).
    unfold decodeMeterStatus in Hc, Hi. simpl in Hc, Hi. rewrite Hc, Hi.
    repeat split; simpl; lia.
  - unfold run. destruct nrRetries as [|n]; [lia|].
    rewrite (runFrom_committed quiet noFault _ n 0 u (access quiet w)
               (setMeterStatusOp u (st u) (globalKey u) code info) u (access quiet w) _
               eq_refl (quiet_submit_alive code info u (access quiet w) d Hd Halive)).
    cbn [fst snd annotatef].
    rewrite (quiet_GetMeterStatus u _ (updated d code info)).
    + destruct (decode_updated d code info) as [Hc Hi].
      unfold decodeMeterStatus in Hc, Hi. simpl in Hc, Hi. unfold updated.
      rewrite Hc, Hi. split; [reflexivity|]. split; [reflexivity|].
      simpl. rewrite length_app. simpl. lia.
    + simpl. apply lookup_insert_eq.
Qed.


Lemma quiet_Refresh u w :
  Refresh quiet noFault u w
  = match store w !! (unitsC, uDocID (doc u)) with
    | Some d => (None, {| st := st u; doc := decodeUnit (uDocID (doc u)) d |},
                 access quiet w)
    | None => (Some ErrNotFound, u, access quiet w)
    end.
Proof.
  unfold Refresh. rewrite quiet_FindId.
  destruct (store w !! (unitsC, uDocID (doc u))); reflexivity.
Qed.

Lemma quiet_submit_not_alive code info u w :
  ~ unitAlive (store w) u ->
  runTransaction quiet noFault (setMeterStatusOp u (st u) (globalKey u) code info) w
  = (Some ErrAborted,
     {| store := store w; tick := S (tick w);
        submitted := submitted w ++ [setMeterStatusOp u (st u) (globalKey u) code info];
        log := log w |}).
Proof.
  intros Hdead.
  change (runTransaction quiet noFault (setMeterStatusOp u (st u) (globalKey u) code info) w)
    with (commit quiet noFault (setMeterStatusOp u (st u) (globalKey u) code info) w).
  rewrite quiet_commit.
  destruct (applyOps_setMeterStatusOp u (st u) (globalKey u) code info (store w))
    as [(Ha & _)|[_ ->]]; [contradiction|reflexivity].
Qed.

Section NotAlive.
Variable u : Unit.
Variable code info : string.
Variable sigma : Store.
Variable du d : Doc.
Hypothesis Hunit : sigma !! (unitsC, uDocID (doc u)) = Some du.
Hypothesis Hname : getStr du "name" = uName (doc u).
Hypothesis Hlife : du !! "life" <> Some (VInt Alive).
Hypothesis Hmeter : sigma !! (meterStatusC, docID (st u) (globalKey u)) = Some d.
Hypothesis Hdiff : sameStatus (decodeMeterStatus d) code info = false.

Lemma not_alive_like u0 :
  uDocID (doc u0) = uDocID (doc u) -> ~ unitAlive sigma u0.
Proof.
  intros Hid (d0 & H0 & Hl). rewrite Hid, Hunit in H0. injection H0 as <-.
  contradiction.
Qed.

Lemma quiet_runFrom_not_alive fuel :
  forall attempt u0 w0,
    st u0 = st u -> uDocID (doc u0) = uDocID (doc u) ->
    uName (doc u0) = uName (doc u) -> store w0 = sigma ->
    let r := runFrom quiet noFault (buildTxn quiet noFault code info) fuel attempt u0 w0 in
    fst (fst r) = Some ErrExcessiveContention
    /\ store (snd r) = sigma
    /\ length (submitted (snd r)) = (length (submitted w0) + fuel)%nat
    /\ uName (doc (snd (fst r))) = uName (doc u).
Proof.
  induction fuel as [|fuel IH]; intros attempt u0 w0 Hst Hid Hnm Hw; cbv zeta.
  - simpl. repeat split; auto.
  - assert (Hbuild : exists u1 w1,
              buildTxn quiet noFault code info attempt u0 w0
              = (Ok (setMeterStatusOp u1 (st u1) (globalKey u1) code info), u1, w1)
              /\ st u1 = st u /\ uDocID (doc u1) = uDocID (doc u)
              /\ uName (doc u1) = uName (doc u) /\ store w1 = sigma
              /\ submitted w1 = submitted w0).
    { destruct attempt as [|k].
      - exists u0, w0. simpl. repeat split; auto.
      - simpl. rewrite quiet_Refresh, Hw, Hid, Hunit.
        set (u1 := {| st := st u0; doc := decodeUnit (uDocID (doc u)) du |}).
        rewrite quiet_getMeterStatusDoc.
        assert (Hkey : docID (st u1) (globalKey u1) = docID (st u) (globalKey u)).
        { unfold u1, globalKey, Name. simpl. rewrite Hname, Hst. reflexivity. }
        rewrite Hkey.
        change (store (access quiet w0)) with (store w0).
        rewrite Hw, Hmeter, Hdiff.
        exists u1. eexists. split; [reflexivity|].
        unfold u1. simpl. repeat split; auto. }
    destruct Hbuild as (u1 & w1 & Hb & Hst1 & Hid1 & Hnm1 & Hw1 & Hsub1).
    assert (Hdead : ~ unitAlive (store w1) u1).
    { rewrite Hw1. apply not_alive_like. exact Hid1. }
    rewrite (runFrom_aborted quiet noFault _ fuel attempt u0 w0 _ u1 w1 _ Hb
               (quiet_submit_not_alive code info u1 w1 Hdead)).
    specialize (IH (S attempt) u1
                  {| store := store w1; tick := S (tick w1);
                     submitted := submitted w1
                       ++ [setMeterStatusOp u1 (st u1) (globalKey u1) code info];
                     log := log w1 |} Hst1 Hid1 Hnm1 Hw1).
    cbv zeta in IH.
    destruct IH as (H1 & H2 & H3 & H4).
    split; [exact H1|]. split; [exact H2|]. split; [|exact H4].
    rewrite H3. simpl. rewrite length_app, Hsub1. simpl. lia.
Qed.

(** X2: in a store nobody else writes to and whose accesses do not
    fail, [SetMeterStatus] with a valid code on a unit whose document
    says it is not alive (and whose meter status differs from the
    requested one) never changes the store: every attempt the engine
    makes is aborted by the assertion on the unit, and the error is
    the excessive contention of the engine, annotated with the unit's
    name. *)
Theorem set_on_unit_not_alive w :
  validCode code = true -> store w = sigma ->
  let r := SetMeterStatus quiet noFault nrRetries code info u w in
  fst (fst r)
  = Some (Annotatef ErrExcessiveContention
            "cannot set meter state for unit %s" [Name u])
  /\ store (snd r) = sigma
  /\ length (submitted (snd r)) = (length (submitted w) + nrRetries)%nat.
Proof.
  intros Hvalid Hw. cbv zeta. unfold SetMeterStatus.
  rewrite Hvalid. cbn [negb].
  rewrite quiet_getMeterStatusDoc, Hw, Hmeter, Hdiff.
  unfold run.
  pose proof (quiet_runFrom_not_alive nrRetries 0%nat u (access quiet w)
                eq_refl eq_refl eq_refl Hw) as H.
  cbv zeta in H.
  destruct (runFrom quiet noFault (buildTxn quiet noFault code info) nrRetries 0 u
              (access quiet w)) as [[e u'] w'].
  simpl in H. destruct H as (-> & H2 & H3 & H4).
  cbn [fst snd annotatef]. unfold Name. rewrite H4.
  split; [reflexivity|]. split; [exact H2|exact H3].
Qed.

End NotAlive.

End QuietStore.

Lemma set_then_get_witness :
  let u := StatePkg.sampleUnit in
  let w := StatePkg.worldOf (StatePkg.sampleStore StatePkg.Alive "AMBER" "") in
  let r := StatePkg.SetMeterStatus StatePkg.quiet StatePkg.noFault 3 "GREEN" "ok" u w in
  fst (fst r) = None
  /\ fst (StatePkg.GetMeterStatus StatePkg.quiet StatePkg.noFault (snd (fst r)) (snd r))
     = ("GREEN", "ok", None).
Proof.
  intros u w r.
  assert (Hv : StatePkg.validCode "GREEN" = true) by reflexivity.
  assert (Hn : (1 <= 3)%nat) by lia.
  assert (Ha : StatePkg.unitAlive (Txn.store w) u).
  { exists {[ "name" := Txn.VStr "wordpress/0"; "life" := Txn.VInt StatePkg.Alive ]}.
    split; vm_compute; reflexivity. }
  assert (Hm : StatePkg.meterDocExists (Txn.store w) (StatePkg.st u) (StatePkg.globalKey u)).
  { exists {[ "code" := Txn.VStr "AMBER"; "info" := Txn.VStr "" ]}.
    vm_compute; reflexivity. }
  destruct (set_then_get 3 "GREEN" "ok" u w Hv Hn Ha Hm) as (H1 & H2 & _).
  split; [exact H1|exact H2].
Defined.

Lemma set_on_unit_not_alive_witness :
  let u := StatePkg.sampleUnit in
  let sigma := StatePkg.sampleStore StatePkg.Dying "AMBER" "" in
  let r := StatePkg.SetMeterStatus StatePkg.quiet StatePkg.noFault 3 "GREEN" ""
             u (StatePkg.worldOf sigma) in
  fst (fst r)
  = Some (Annotatef ErrExcessiveContention "cannot set meter state for unit %s"
            ["wordpress/0"])
  /\ Txn.store (snd r) = sigma
  /\ length (Txn.submitted (snd r)) = 3%nat.
Proof.
  intros u sigma r.
  set (du := {[ "name" := Txn.VStr "wordpress/0"; "life" := Txn.VInt StatePkg.Dying ]}
             : gmap string Txn.Value).
  set (d := {[ "code" := Txn.VStr "AMBER"; "info" := Txn.VStr "" ]}
            : gmap string Txn.Value).
  assert (H1 : sigma !! (StatePkg.unitsC, StatePkg.uDocID (StatePkg.doc u)) = Some du)
    by (vm_compute; reflexivity).
  assert (H2 : Txn.getStr du "name" = StatePkg.uName (StatePkg.doc u))
    by (vm_compute; reflexivity).
  assert (H3 : du !! "life" <> Some (Txn.VInt StatePkg.Alive))
    by (vm_compute; discriminate).
  assert (H4 : sigma !! (StatePkg.meterStatusC,
                         StatePkg.docID (StatePkg.st u) (StatePkg.globalKey u)) = Some d)
    by (vm_compute; reflexivity).
  assert (H5 : StatePkg.sameStatus (StatePkg.decodeMeterStatus d) "GREEN" "" = false)
    by (vm_compute; reflexivity).
  assert (H6 : StatePkg.validCode "GREEN" = true) by reflexivity.
  exact (set_on_unit_not_alive 3 u "GREEN" "" sigma du d H1 H2 H3 H4 H5
           (StatePkg.worldOf sigma) H6 eq_refl).
Defined.

Section Submissions.
Import Txn StatePkg StateVocabulary.

Variable env : nat -> gmap (string * string) (gmap string Value)
               -> gmap (string * string) (gmap string Value).
Variable fault : nat -> option error.

Lemma Refresh_keeps u w :
  st (snd (fst (Refresh env fault u w))) = st u
  /\ uDocID (doc (snd (fst (Refresh env fault u w)))) = uDocID (doc u).
Proof.
  unfold Refresh.
  destruct (FindId env fault unitsC (uDocID (doc u)) w) as [[d|e] w']; split; reflexivity.
Qed.

Lemma buildTxn_keeps code info attempt u w :
  let r := buildTxn env fault code info attempt u w in
  st (snd (fst r)) = st u
  /\ uDocID (doc (snd (fst r))) = uDocID (doc u)
  /\ submitted (snd r) = submitted w
  /\ (forall ops, fst (fst r) = Ok ops ->
        ops = setMeterStatusOp (snd (fst r)) (st (snd (fst r)))
                (globalKey (snd (fst r))) code info).
Proof.
  cbv zeta. destruct attempt as [|n]; simpl.
  - repeat split. intros ops H. injection H as <-. reflexivity.
  - pose proof (Refresh_keeps u w) as [Hst Hid].
    pose proof (Refresh_submitted env fault u w) as Hsub.
    destruct (Refresh env fault u w) as [[[e|] u1] w1]; simpl in *.
    + repeat split; auto; try discriminate.
    + pose proof (getMeterStatusDoc_submitted env fault u1 w1) as Hsub2.
      destruct (getMeterStatusDoc env fault u1 w1) as [[m|e] w2]; simpl in *.
      * destruct (sameStatus m code info); simpl; repeat split; auto; try congruence;
          try discriminate.
        all: try (intros ops H; injection H as <-; reflexivity).
      * repeat split; auto; try congruence; try discriminate.
Qed.

Lemma runTransaction_submitted ops w :
  exists new, submitted (snd (runTransaction env fault ops w)) = submitted w ++ new
              /\ (new = [] \/ new = [ops]).
Proof.
  destruct ops as [|op ops]; simpl.
  - exists []. rewrite app_nil_r. auto.
  - exists [op :: ops]. split; [apply commit_submitted|auto].
Qed.

Lemma runFrom_submissions code info fuel :
  forall attempt u w,
    let r := runFrom env fault (buildTxn env fault code info) fuel attempt u w in
    st (snd (fst r)) = st u /\ uDocID (doc (snd (fst r))) = uDocID (doc u)
    /\ exists new, submitted (snd r) = submitted w ++ new
         /\ (length new <= fuel)%nat
         /\ Forall (setsStatusOf u code info) new.
Proof.
  induction fuel as [|fuel IH]; intros attempt u w; cbv zeta.
  - simpl. split; [reflexivity|]. split; [reflexivity|].
    exists []. rewrite app_nil_r. split; [reflexivity|]. split; [simpl; lia|constructor].
  - simpl.
    pose proof (buildTxn_keeps code info attempt u w) as Hb. cbv zeta in Hb.
    destruct (buildTxn env fault code info attempt u w) as [[[ops|e] u1] w1];
      simpl in Hb; destruct Hb as (Hst & Hid & Hsub & Hops).
    + specialize (Hops ops eq_refl).
      destruct (runTransaction_submitted ops w1) as (new1 & Hnew1 & Hcase).
      assert (Hall1 : Forall (setsStatusOf u code info) new1).
      { destruct Hcase as [->| ->]; constructor; [|constructor].
        exists u1. auto. }
      assert (Hlen1 : (length new1 <= 1)%nat) by (destruct Hcase as [->| ->]; simpl; lia).
      destruct (runTransaction env fault ops w1) as [[e|] w2]; simpl in Hnew1.
      * assert (Hstop : forall x : error, st (snd (fst (Some x, u1, w2))) = st u
                    /\ uDocID (doc (snd (fst (Some x, u1, w2)))) = uDocID (doc u)
                    /\ exists new, submitted (snd (Some x, u1, w2)) = submitted w ++ new
                         /\ (length new <= S fuel)%nat
                         /\ Forall (setsStatusOf u code info) new).
        { intros x. simpl. split; [exact Hst|]. split; [exact Hid|]. exists new1.
          split; [congruence|]. split; [lia|exact Hall1]. }
        destruct e; try apply Hstop.
        specialize (IH (S attempt) u1 w2). cbv zeta in IH.
        destruct IH as (Hst2 & Hid2 & new2 & Hnew2 & Hlen2 & Hall2).
        split; [congruence|]. split; [congruence|].
        exists (new1 ++ new2). split; [|split].
        -- rewrite Hnew2, Hnew1, Hsub, app_assoc. reflexivity.
        -- rewrite length_app. lia.
        -- apply Forall_app. split; [exact Hall1|].
           eapply Forall_impl; [exact Hall2|].
           intros o (u' & H1 & H2 & H3). exists u'. repeat split; congruence.
      * simpl. split; [exact Hst|]. split; [exact Hid|]. exists new1.
        split; [congruence|]. split; [lia|exact Hall1].
    + assert (Hstop : forall x : option error,
                st (snd (fst (x, u1, w1))) = st u
                /\ uDocID (doc (snd (fst (x, u1, w1)))) = uDocID (doc u)
                /\ exists new, submitted (snd (x, u1, w1)) = submitted w ++ new
                     /\ (length new <= S fuel)%nat
                     /\ Forall (setsStatusOf u code info) new).
      { intros x. simpl. split; [exact Hst|]. split; [exact Hid|]. exists [].
        rewrite app_nil_r. split; [exact Hsub|]. split; [simpl; lia|constructor]. }
      destruct e; apply Hstop.
Qed.

Variable nrRetries : nat.

(** X3: whatever the other writers and the failures of the store,
    [SetMeterStatus] submits at most as many transactions as the
    engine makes attempts, each of them is the one [setMeterStatusOp]
    builds for the unit (as refreshed) with the requested code and
    info, and none at all is submitted for an invalid code. *)
Theorem SetMeterStatus_submissions code info u w :
  let r := SetMeterStatus env fault nrRetries code info u w in
  exists new,
    submitted (snd r) = submitted w ++ new
    /\ (length new <= nrRetries)%nat
    /\ Forall (setsStatusOf u code info) new
    /\ (validCode code = false -> new = []).
Proof.
  cbv zeta. unfold SetMeterStatus.
  destruct (validCode code) eqn:Hv; cbn [negb].
  - pose proof (getMeterStatusDoc_submitted env fault u w) as Hsub.
    destruct (getMeterStatusDoc env fault u w) as [[m|e] w1]; simpl in Hsub.
    + destruct (sameStatus m code info).
      * exists []. simpl. rewrite app_nil_r. split; [exact Hsub|].
        split; [lia|]. split; [constructor|reflexivity].
      * unfold run.
        pose proof (runFrom_submissions code info nrRetries 0%nat u w1) as H.
        cbv zeta in H.
        destruct (runFrom env fault (buildTxn env fault code info) nrRetries 0 u w1)
          as [[e u'] w2].
        simpl in H. destruct H as (_ & _ & new & Hnew & Hlen & Hall).
        exists new. simpl. split; [congruence|]. split; [exact Hlen|].
        split; [exact Hall|discriminate].
    + exists []. simpl. rewrite app_nil_r. split; [exact Hsub|].
      split; [lia|]. split; [constructor|reflexivity].
  - exists []. simpl. rewrite app_nil_r. split; [reflexivity|].
    split; [lia|]. split; [constructor|reflexivity].
Qed.

End Submissions.

(** ** [SetMeterStatusOnAllUnits] *)

Section AllUnitsRuns.
Import Txn StatePkg.

Variable env : nat -> gmap (string * string) (gmap string Value)
               -> gmap (string * string) (gmap string Value).
Variable fault : nat -> option error.
Variable servicesOf : State -> gmap (string * string) (gmap string Value)
                      -> result (list Service).
Variable unitsOf : Service -> gmap (string * string) (gmap string Value)
                   -> result (list Unit).

Lemma gatherOps_submitted st code info services :
  forall ops w,
    submitted (snd (gatherOps env fault unitsOf st code info services ops w))
    = submitted w.
Proof.
  induction services as [|svc rest IH]; intros ops w; simpl; [reflexivity|].
  pose proof (AllUnits_submitted env fault unitsOf svc w) as Hs.
  destruct (AllUnits env fault unitsOf svc w) as [[units|e] w1]; simpl in *.
  - rewrite IH. exact Hs.
  - exact Hs.
Qed.

(** X4: when listing the services, or listing the units of one of
    them, fails, [SetMeterStatusOnAllUnits] returns that error as it
    is (not annotated) and submits no transaction, also for the units
    it had already visited. *)
Theorem all_units_read_failure st code info w e :
  let r := SetMeterStatusOnAllUnits env fault servicesOf unitsOf st code info w in
  fst (AllServices env fault servicesOf st w) = Err e
  \/ (exists services w1,
        AllServices env fault servicesOf st w = (Ok services, w1)
        /\ fst (gatherOps env fault unitsOf st code info services [] w1) = Err e) ->
  fst r = Some e /\ submitted (snd r) = submitted w.
Proof.
  cbv zeta. unfold SetMeterStatusOnAllUnits.
  pose proof (AllServices_submitted env fault servicesOf st w) as Hs.
  intros [Hfail|(services & w1 & Hok & Hfail)].
  - destruct (AllServices env fault servicesOf st w) as [[svcs|e0] w1]; simpl in *;
      [discriminate|]. injection Hfail as ->. auto.
  - rewrite Hok in *. simpl in Hs.
    pose proof (gatherOps_submitted st code info services [] w1) as Hg.
    destruct (gatherOps env fault unitsOf st code info services [] w1) as [[ops|e0] w2];
      simpl in *; [discriminate|]. injection Hfail as ->. split; [reflexivity|congruence].
Qed.

Lemma forallb_false_elem {A} (f : A -> bool) l x :
  In x l -> f x = false -> forallb f l = false.
Proof.
  intros Hin Hf. destruct (forallb f l) eqn:H; [|reflexivity].
  rewrite forallb_forall in H. rewrite (H x Hin) in Hf. discriminate.
Qed.

(** X5: [SetMeterStatusOnAllUnits] is all or nothing: one unit among
    those visited that is not alive when the single transaction is
    applied aborts it for every unit; the error is the annotated
    [txn.ErrAborted], the store is as the other writers left it, and
    no retry is made. *)
Theorem all_units_all_or_nothing st code info w services w1 ops w2 u :
  AllServices env fault servicesOf st w = (Ok services, w1) ->
  gatherOps env fault unitsOf st code info services [] w1 = (Ok ops, w2) ->
  In u (visitedUnits env fault unitsOf services w1) ->
  fault (tick w2) = None ->
  ~ unitAlive (env (tick w2) (store w2)) u ->
  let r := SetMeterStatusOnAllUnits env fault servicesOf unitsOf st code info w in
  fst r = Some (Annotatef ErrAborted "cannot set meter state for all units" [])
  /\ store (snd r) = env (tick w2) (store w2)
  /\ submitted (snd r) = submitted w ++ [ops].
Proof.
  intros Hsvc Hg Hin Hf Hdead. cbv zeta.
  destruct (gatherOps_spec env fault unitsOf st code info services [] w1 ops w2 Hg)
    as [Hops Hsub].
  simpl in Hops.
  pose proof (AllServices_submitted env fault servicesOf st w) as Hs1.
  rewrite Hsvc in Hs1. simpl in Hs1.
  set (dead_op := {| C := unitsC; Id := uDocID (doc u); Assert := Some isAliveDoc;
                     Insert := None; Update := None; Remove := false |}).
  assert (Hop : In dead_op ops).
  { rewrite Hops. apply in_flat_map. exists u. split; [exact Hin|]. left. reflexivity. }
  assert (Hcheck : checkAssert (env (tick w2) (store w2)) dead_op = false).
  { destruct (checkAssert (env (tick w2) (store w2)) dead_op) eqn:Hc; [|reflexivity].
    exfalso. apply Hdead. apply (proj1 (check_alive u _)). exact Hc. }
  assert (Happ : applyOps (env (tick w2) (store w2)) ops = Err ErrAborted).
  { unfold applyOps. rewrite (forallb_false_elem _ _ _ Hop Hcheck). reflexivity. }
  unfold SetMeterStatusOnAllUnits. rewrite Hsvc, Hg.
  destruct ops as [|op ops']; [destruct Hop|].
  unfold runTransaction, commit. rewrite Hf. cbn [access store tick].
  rewrite Happ. simpl. repeat split. congruence.
Qed.

End AllUnitsRuns.

Lemma all_units_read_failure_witness :
  let fault := fun _ : nat => Some ErrPerm in
  let r := StatePkg.SetMeterStatusOnAllUnits StatePkg.quiet fault
             (fun _ _ => Ok [ {| StatePkg.svcName := "wordpress" |} ])
             (fun _ _ => Ok [StatePkg.sampleUnit])
             StatePkg.sampleState "GREEN" "" StatePkg.emptyWorld in
  fst r = Some ErrPerm /\ Txn.submitted (snd r) = [].
Proof.
  intros fault r.
  apply (all_units_read_failure StatePkg.quiet fault
           (fun _ _ => Ok [ {| StatePkg.svcName := "wordpress" |} ])
           (fun _ _ => Ok [StatePkg.sampleUnit])
           StatePkg.sampleState "GREEN" "" StatePkg.emptyWorld ErrPerm).
  left. reflexivity.
Defined.

Lemma all_units_all_or_nothing_witness :
  let servicesOf := fun (_ : StatePkg.State) (_ : gmap (string * string) (gmap string Txn.Value))
                    => Ok [ {| StatePkg.svcName := "wordpress" |} ] in
  let unitsOf := fun (_ : StatePkg.Service) (_ : gmap (string * string) (gmap string Txn.Value))
                 => Ok [StatePkg.sampleUnit] in
  let sigma := StatePkg.sampleStore StatePkg.Dying "AMBER" "" in
  let r := StatePkg.SetMeterStatusOnAllUnits StatePkg.quiet StatePkg.noFault
             servicesOf unitsOf StatePkg.sampleState "GREEN" "" (StatePkg.worldOf sigma) in
  fst r = Some (Annotatef ErrAborted "cannot set meter state for all units" [])
  /\ Txn.store (snd r) = sigma.
Proof.
  intros servicesOf unitsOf sigma r.
  set (w := StatePkg.worldOf sigma).
  set (w1 := Txn.access StatePkg.quiet w).
  set (w2 := Txn.access StatePkg.quiet w1).
  set (ops := StatePkg.setMeterStatusOp StatePkg.sampleUnit StatePkg.sampleState
                (StatePkg.globalKey StatePkg.sampleUnit) "GREEN" "").
  assert (H1 : StatePkg.AllServices StatePkg.quiet StatePkg.noFault servicesOf
                 StatePkg.sampleState w
               = (Ok [ {| StatePkg.svcName := "wordpress" |} ], w1)) by reflexivity.
  assert (H2 : StatePkg.gatherOps StatePkg.quiet StatePkg.noFault unitsOf
                 StatePkg.sampleState "GREEN" ""
                 [ {| StatePkg.svcName := "wordpress" |} ] [] w1
               = (Ok ops, w2)) by reflexivity.
  assert (H3 : In StatePkg.sampleUnit
                 (StatePkg.visitedUnits StatePkg.quiet StatePkg.noFault unitsOf
                    [ {| StatePkg.svcName := "wordpress" |} ] w1))
    by (left; reflexivity).
  assert (H4 : StatePkg.noFault (Txn.tick w2) = None) by reflexivity.
  assert (H5 : ~ StatePkg.unitAlive (StatePkg.quiet (Txn.tick w2) (Txn.store w2))
                   StatePkg.sampleUnit).
  { intros (d & Hd & Hl). vm_compute in Hd. injection Hd as <-.
    vm_compute in Hl. discriminate. }
  destruct (all_units_all_or_nothing StatePkg.quiet StatePkg.noFault servicesOf unitsOf
              StatePkg.sampleState "GREEN" "" w _ w1 ops w2 StatePkg.sampleUnit
              H1 H2 H3 H4 H5) as (Ha & Hb & _).
  split; [exact Ha|exact Hb].
Defined.

(** ** The life cycle of the server *)

Section LifecycleFrames.
Import Lifecycle Termination.

Lemma wgAdd_frame d s :
  tomb (wgAdd d s) = tomb s /\ lisClosed (wgAdd d s) = lisClosed s
  /\ runner (wgAdd d s) = runner s /\ watcher (wgAdd d s) = watcher s
  /\ pinger (wgAdd d s) = pinger s /\ handlers (wgAdd d s) = handlers s
  /\ callers (wgAdd d s) = callers s.
Proof. unfold wgAdd. destruct (wg s + d <? 0)%Z; repeat split. Qed.

Lemma kill_frame r s :
  lisClosed (kill r s) = lisClosed s
  /\ runner (kill r s) = runner s /\ watcher (kill r s) = watcher s
  /\ pinger (kill r s) = pinger s /\ handlers (kill r s) = handlers s
  /\ callers (kill r s) = callers s.
Proof. unfold kill. destruct (tombKill r (tomb s)); repeat split. Qed.

(** A step of a handler touches only the handlers and the wait group. *)
Lemma handlerStep_frame i from guard f g s s' :
  handlerStep i from guard f g s = Some s' ->
  (g = (fun x => x) \/ exists d, g = wgAdd d) ->
  tomb s' = tomb s /\ lisClosed s' = lisClosed s /\ runner s' = runner s
  /\ watcher s' = watcher s /\ pinger s' = pinger s /\ callers s' = callers s
  /\ length (handlers s') = length (handlers s).
Proof.
  intros H Hg. destruct (handlerStep_inv _ _ _ _ _ _ _ H) as (h & _ & _ & _ & ->).
  destruct Hg as [->|[d ->]].
  - simpl. rewrite length_insert. repeat split.
  - destruct (wgAdd_frame d (setHandlers (<[i:=f h]> (handlers s)) s))
      as (-> & -> & -> & -> & -> & -> & ->).
    simpl. rewrite length_insert. repeat split.
Qed.


Lemma handler_action_frame a s s' :
  step a s = Some s' -> isHandlerAction a ->
  tomb s' = tomb s /\ lisClosed s' = lisClosed s /\ runner s' = runner s
  /\ watcher s' = watcher s /\ pinger s' = pinger s /\ callers s' = callers s
  /\ length (handlers s') = length (handlers s).
Proof.
  intros Hs Ha. destruct a; try contradiction; simpl in Hs;
    try (eapply handlerStep_frame; [exact Hs|]; first [left; reflexivity | right; eexists; reflexivity]).
  destruct (handlers s !! i) as [h|]; [|discriminate].
  destruct (connInFlight h); [|discriminate].
  injection Hs as <-. simpl. rewrite length_insert. repeat split.
Qed.

End LifecycleFrames.

Section LifecycleMonotone.
Import Lifecycle Termination.

Lemma tombDone_dead t : dead (tombDone t) = true.
Proof.
  unfold tombDone. destruct (tombKill_nil t) as (t' & -> & _). reflexivity.
Qed.

Lemma init_inv2 : Inv2 init.
Proof.
  constructor; simpl.
  - split; [discriminate|]. intros [H|H]; discriminate.
  - discriminate.
Qed.

Lemma step_inv2 a s s' : Inv s -> Inv2 s -> step a s = Some s' -> Inv2 s'.
Proof.
  intros HI [Hc He] Hs.
  pose proof (inv_spawned s HI) as [Hsp _].
  pose proof (inv_dead s HI) as Hdead.
  destruct a;
    try (destruct (handler_action_frame _ s s' Hs Logic.I) as (Et & El & Er & Ew & _);
         constructor; rewrite ?Et, ?El, ?Er, ?Ew; assumption);
    simpl in Hs;
    repeat match type of Hs with
      | match ?x with _ => _ end = Some _ => destruct x eqn:?; try discriminate
      end;
    injection Hs as <-; constructor; simpl; unfold wgDone;
    rewrite ?(proj1 (proj2 (wgAdd_frame _ _))),
            ?(proj1 (proj2 (proj2 (wgAdd_frame _ _)))),
            ?(proj1 (proj2 (proj2 (proj2 (wgAdd_frame _ _))))),
            ?(proj1 (wgAdd_frame _ _)),
            ?(proj1 (kill_frame _ _)),
            ?(proj1 (proj2 (kill_frame _ _))),
            ?(proj1 (proj2 (proj2 (kill_frame _ _))));
    simpl;
    try solve [ assumption | discriminate | tauto | congruence
              | intuition (try discriminate; try congruence) ].
  intros Hr. destruct (inv_waited s HI (or_intror Hr)) as (_ & [x Hx] & _). congruence.
Qed.

Lemma exec_inv2 es : forall s s', Inv s -> Inv2 s -> exec es s = Some s' -> Inv2 s'.
Proof.
  induction es as [|a es IH]; intros s s' HI H2 H; simpl in H.
  - injection H as <-. exact H2.
  - destruct (step a s) as [s1|] eqn:Hs; [|discriminate].
    eapply IH; [| |exact H].
    + eapply server_step_inv; eauto.
    + eapply step_inv2; eauto.
Qed.

Lemma reachable_inv2 es s : exec es init = Some s -> Inv2 s.
Proof. apply exec_inv2; [apply init_inv|apply init_inv2]. Qed.

(** A dead server stays dead, with the same reason. *)
Lemma step_keeps_dead a s s' :
  Inv s -> dead (tomb s) = true -> step a s = Some s' ->
  dead (tomb s') = true /\ reason (tomb s') = reason (tomb s).
Proof.
  intros HI Hd Hs.
  pose proof (inv_dead s HI Hd) as Hr.
  destruct (inv_waited s HI (or_intror Hr)) as (Hw & [x Hp] & Hdy & _).
  assert (Hne : reason (tomb s) <> Some ErrStillAlive).
  { intros Hc. apply (inv_alive s HI) in Hc. congruence. }
  assert (Hk : dead (tomb (kill None s)) = true
               /\ reason (tomb (kill None s)) = reason (tomb s)).
  { destruct (kill_nil s) as (t' & -> & _ & Hdd & _ & Hkeep). simpl.
    rewrite Hdd, (Hkeep Hne). auto. }
  destruct a;
    try (destruct (handler_action_frame _ s s' Hs Logic.I) as (-> & _); auto);
    simpl in Hs; rewrite ?Hr, ?Hw, ?Hp in Hs; try discriminate;
    repeat match type of Hs with
      | match ?x with _ => _ end = Some _ => destruct x eqn:?; try discriminate
      end;
    injection Hs as <-; simpl; auto.
Qed.

(** Once the listener is closed it stays closed and no connection is
    accepted. *)
Lemma step_keeps_closed a s s' :
  lisClosed s = true -> step a s = Some s' ->
  lisClosed s' = true /\ length (handlers s') = length (handlers s).
Proof.
  intros Hl Hs.
  destruct a;
    try (destruct (handler_action_frame _ s s' Hs Logic.I)
           as (_ & -> & _ & _ & _ & _ & ->); auto);
    simpl in Hs; rewrite ?Hl in Hs;
    repeat match type of Hs with
      | match ?x with _ => _ end = Some _ => destruct x eqn:?; try discriminate
      end;
    injection Hs as <-; simpl; unfold wgDone;
    rewrite ?(proj1 (proj2 (wgAdd_frame _ _))),
            ?(proj1 (proj2 (proj2 (proj2 (proj2 (proj2 (wgAdd_frame _ _))))))),
            ?(proj1 (kill_frame _ _)),
            ?(proj1 (proj2 (proj2 (proj2 (proj2 (kill_frame _ _))))));
    simpl;
    rewrite ?(proj1 (proj2 (wgAdd_frame _ _))),
            ?(proj1 (proj2 (proj2 (proj2 (proj2 (proj2 (wgAdd_frame _ _))))))),
            ?(proj1 (kill_frame _ _)),
            ?(proj1 (proj2 (proj2 (proj2 (proj2 (kill_frame _ _))))));
    auto.
Qed.

Lemma wgAdd_others d s : others (wgAdd d s) = others s.
Proof. unfold wgAdd. destruct (wg s + d <? 0)%Z; reflexivity. Qed.

Lemma kill_others r s : others (kill r s) = others s.
Proof. unfold kill. destruct (tombKill r (tomb s)); reflexivity. Qed.

Lemma handlerStep_others i from guard f g s s' :
  handlerStep i from guard f g s = Some s' ->
  (forall x, others (g x) = others x) -> others s' = others s.
Proof.
  intros H Hg. destruct (handlerStep_inv _ _ _ _ _ _ _ H) as (h & _ & _ & _ & ->).
  rewrite Hg. reflexivity.
Qed.

(** The requests in the handlers of the log, charms and tools paths:
    one more is accepted only while the listener is open. *)
Lemma step_others a s s' :
  step a s = Some s' ->
  others s' = others s
  \/ (lisClosed s = false /\ others s' = S (others s))
  \/ S (others s') = others s.
Proof.
  intros Hs.
  destruct a; simpl in Hs;
    try (left; eapply handlerStep_others; [exact Hs|];
         first [ reflexivity | intros x; apply wgAdd_others ]);
    repeat match type of Hs with
      | match ?x with _ => _ end = Some _ => destruct x eqn:?; try discriminate
      end;
    injection Hs as <-; simpl; unfold wgDone;
    rewrite ?wgAdd_others, ?kill_others; simpl; rewrite ?wgAdd_others, ?kill_others;
    auto.
Qed.

Lemma step_keeps_closed_others a s s' :
  lisClosed s = true -> step a s = Some s' -> (others s' <= others s)%nat.
Proof.
  intros Hl Hs. destruct (step_others a s s' Hs) as [H|[[H _]|H]]; [lia|congruence|lia].
Qed.

End LifecycleMonotone.

Section HandlerProgress.
Import Lifecycle Termination.

Lemma workHandler_nonneg h : handlerOk h -> (0 <= workHandler h)%Z.
Proof.
  unfold handlerOk, workHandler. destruct (hpc h); intros H; lia.
Qed.

Lemma workHandlers_insert hs i h h' :
  hs !! i = Some h ->
  workHandlers (<[i := h']> hs) = (workHandlers hs - workHandler h + workHandler h')%Z.
Proof.
  revert i. induction hs as [|x hs IH]; intros [|i] H; simpl in *; try discriminate.
  - injection H as ->. lia.
  - rewrite (IH i H). lia.
Qed.

Lemma workHandlers_nonneg hs : Forall handlerOk hs -> (0 <= workHandlers hs)%Z.
Proof.
  induction 1 as [|h hs Hh _ IH]; simpl; [lia|].
  pose proof (workHandler_nonneg h Hh). lia.
Qed.

Lemma registered_exists hs :
  (0 < wgHandlers hs)%Z -> exists i h, hs !! i = Some h /\ registered h = 1%Z.
Proof.
  induction hs as [|x hs IH]; simpl; [lia|].
  intros H. destruct (decide (registered x = 1%Z)) as [Hx|Hx].
  - exists 0%nat, x. auto.
  - assert (registered x = 0%Z) by (unfold registered in *; destruct (hpc x); lia).
    destruct IH as (i & h & Hi & Hr); [lia|]. exists (S i), h. auto.
Qed.

Lemma work_nonneg s : Inv s -> (0 <= work s)%Z.
Proof.
  intros HI. unfold work.
  pose proof (workHandlers_nonneg _ (inv_handlers s HI)).
  destruct (runner s), (watcher s), (pinger s); simpl; lia.
Qed.

(** A registered handler of a dying server can take a step that
    brings it nearer to its exit. *)
Lemma handler_progress s i h :
  Inv s -> dying (tomb s) = true ->
  handlers s !! i = Some h -> registered h = 1%Z ->
  exists a s', step a s = Some s' /\ isHandlerAction a
               /\ (workHandlers (handlers s') < workHandlers (handlers s))%Z.
Proof.
  intros HI Hd Hi Hreg.
  pose proof (Forall_lookup_1 _ _ _ _ (inv_handlers s HI) Hi) as Hok.
  pose proof (wgHandlers_nonneg (handlers s)) as Hnn.
  pose proof (wgWatcher_nonneg (watcher s)) as Hwn.
  pose proof (wgPinger_nonneg (pinger s)) as Hpn.
  pose proof (registered_le _ _ _ Hi) as Hle.
  pose proof (inv_wg s HI) as Hwg.
  unfold handlerOk in Hok. unfold registered in Hreg.
  destruct (hpc h) eqn:Hpc; try discriminate.
  - (* HChecking *)
    exists (HandlerCheck i). simpl. unfold handlerStep. rewrite Hi, Hpc. simpl.
    rewrite (not_stillAlive_dying s HI Hd).
    eexists. split; [reflexivity|]. split; [exact Logic.I|]. simpl.
    rewrite (workHandlers_insert _ _ _ _ Hi). unfold workHandler. simpl. rewrite Hpc. lia.
  - (* HStarting *)
    exists (HandlerStart i). simpl. unfold handlerStep. rewrite Hi, Hpc. simpl.
    eexists. split; [reflexivity|]. split; [exact Logic.I|]. simpl.
    rewrite (workHandlers_insert _ _ _ _ Hi). unfold workHandler. simpl. rewrite Hpc. lia.
  - (* HServing *)
    exists (HandlerDying i). simpl. unfold handlerStep. rewrite Hi, Hpc, Hd. simpl.
    eexists. split; [reflexivity|]. split; [exact Logic.I|]. simpl.
    rewrite (workHandlers_insert _ _ _ _ Hi). unfold workHandler. simpl. rewrite Hpc. lia.
  - (* HClosing *)
    destruct (completed h <? started h)%nat eqn:Hlt.
    + exists (HandlerReply i). simpl. unfold connInFlight. rewrite Hi, Hlt.
      eexists. split; [reflexivity|]. split; [exact Logic.I|]. simpl.
      rewrite (workHandlers_insert _ _ _ _ Hi). unfold workHandler. simpl. rewrite Hpc.
      apply Nat.ltb_lt in Hlt. lia.
    + apply Nat.ltb_ge in Hlt.
      exists (HandlerCloseReturn i). simpl.
      unfold handlerStep, connCloseReturns. rewrite Hi, Hpc. simpl.
      replace (completed h =? started h)%nat with true
        by (symmetry; apply Nat.eqb_eq; lia).
      eexists. split; [reflexivity|]. split; [exact Logic.I|]. simpl.
      rewrite (workHandlers_insert _ _ _ _ Hi). unfold workHandler. simpl. rewrite Hpc. lia.
  - (* HLeaving *)
    exists (HandlerDone i). simpl. unfold handlerStep. rewrite Hi, Hpc. simpl.
    eexists. split; [reflexivity|]. split; [exact Logic.I|].
    unfold wgDone. rewrite (proj1 (proj2 (proj2 (proj2 (proj2 (proj2 (wgAdd_frame _ _))))))).
    simpl. rewrite (workHandlers_insert _ _ _ _ Hi). unfold workHandler. simpl.
    rewrite Hpc. lia.
Qed.

End HandlerProgress.

Section ShutdownProgress.
Import Lifecycle Termination.

Lemma wgAdd_work d s : work (wgAdd d s) = work s /\ callers (wgAdd d s) = callers s.
Proof. unfold wgAdd, work. destruct (wg s + d <? 0)%Z; split; reflexivity. Qed.

Lemma kill_work r s : work (kill r s) = work s /\ callers (kill r s) = callers s.
Proof. unfold kill, work. destruct (tombKill r (tomb s)); split; reflexivity. Qed.

(** A dying server that is not dead yet can take a step that leaves
    less work and does not touch the callers. *)
Lemma progress s :
  Inv s -> Inv2 s -> dying (tomb s) = true -> dead (tomb s) = false ->
  exists a s', step a s = Some s' /\ (work s' < work s)%Z /\ callers s' = callers s.
Proof.
  intros HI H2 Hd Hnd.
  pose proof (inv_spawned s HI) as [Hsw Hsp].
  pose proof (inv_watcher s HI) as Hw.
  pose proof (inv_pinger s HI) as Hp.
  pose proof (inv_wg s HI) as Hwg.
  pose proof (wgHandlers_nonneg (handlers s)) as Hnn.
  assert (Hwatch : watcher s <> WNone -> watcher s <> WExit ->
            exists a s', step a s = Some s' /\ (work s' < work s)%Z
                         /\ callers s' = callers s).
  { intros H0 H1. destruct (watcher s) eqn:Ew; try congruence.
    - exists WatchDying. simpl. rewrite Ew, Hd. eexists. split; [reflexivity|].
      unfold work. simpl. rewrite Ew. simpl. split; [lia|reflexivity].
    - exists WatchCloseListener. simpl. rewrite Ew. eexists. split; [reflexivity|].
      unfold work. simpl. rewrite Ew. simpl. split; [lia|reflexivity].
    - exists WatchDone. simpl. rewrite Ew. eexists. split; [reflexivity|].
      unfold wgDone. unfold work at 1. simpl.
      destruct (wgAdd_frame (-1) s) as (_ & _ & -> & _ & -> & -> & ->).
      unfold work. rewrite Ew. simpl. split; [lia|reflexivity]. }
  assert (Hping : pinger s <> PNone -> (forall x, pinger s <> PExit x) ->
            exists a s', step a s = Some s' /\ (work s' < work s)%Z
                         /\ callers s' = callers s).
  { intros H0 H1. destruct (pinger s) eqn:Ep; try congruence.
    - exists PingDying. simpl. rewrite Ep, Hd. eexists. split; [reflexivity|].
      unfold work. simpl. rewrite Ep. simpl. split; [lia|reflexivity].
    - exists (PingResult None). simpl. rewrite Ep. eexists. split; [reflexivity|].
      unfold work. simpl. rewrite Ep. simpl. split; [lia|reflexivity].
    - exists PingKill. simpl. rewrite Ep. eexists. split; [reflexivity|].
      unfold work at 1. simpl.
      destruct (kill_frame (Some err) s) as (_ & -> & -> & _ & -> & ->).
      unfold work. rewrite Ep. simpl. split; [lia|reflexivity].
    - exists PingDone. simpl. rewrite Ep. eexists. split; [reflexivity|].
      unfold wgDone. unfold work at 1. simpl.
      destruct (wgAdd_frame (-1) s) as (_ & _ & -> & -> & _ & -> & ->).
      unfold work. rewrite Ep. simpl. split; [lia|reflexivity]. }
  destruct (runner s) eqn:Er.
  - (* RunStart *)
    exists RunSpawnWatcher. simpl. rewrite Er. eexists. split; [reflexivity|].
    unfold work at 1. simpl.
    destruct (wgAdd_frame 1 s) as (_ & _ & _ & _ & -> & -> & ->).
    unfold work. rewrite Er, (Hsw eq_refl). simpl. split; [lia|reflexivity].
  - (* RunSpawned *)
    exists RunSpawnPinger. simpl. rewrite Er. eexists. split; [reflexivity|].
    unfold work at 1. simpl.
    destruct (wgAdd_frame 1 s) as (_ & _ & _ & -> & _ & -> & ->).
    unfold work. rewrite Er, (Hsp (or_intror eq_refl)). simpl. split; [lia|reflexivity].
  - (* RunServe *)
    assert (watcher s = WExit \/ watcher s <> WExit) as [Ew|Ew]
      by (destruct (watcher s); auto; right; discriminate).
    + destruct (pinger s) eqn:Ep;
        try (apply Hping; [rewrite ?Ep; discriminate|rewrite ?Ep; discriminate]).
      * destruct Hp; congruence.
      * exists RunServeReturn. simpl. rewrite Er.
        rewrite (proj2 (inv2_closed s H2) (or_intror Ew)).
        eexists. split; [reflexivity|]. unfold work. simpl. rewrite Er. simpl.
        split; [lia|reflexivity].
    + apply Hwatch; [|exact Ew]. intros E0. rewrite E0 in Hw. congruence.
  - (* RunWait *)
    assert (watcher s = WExit \/ watcher s <> WExit) as [Ew|Ew]
      by (destruct (watcher s); auto; right; discriminate).
    + destruct (pinger s) eqn:Ep;
        try (apply Hping; [rewrite ?Ep; discriminate|rewrite ?Ep; discriminate]).
      * destruct Hp; congruence.
      * rewrite Ew in Hwg. simpl in Hwg.
        destruct (decide (wgHandlers (handlers s) = 0%Z)) as [Hz|Hz].
        -- exists RunWaitReturn. simpl. rewrite Er.
           replace (wg s =? 0)%Z with true by (symmetry; apply Z.eqb_eq; lia).
           eexists. split; [reflexivity|]. unfold work. simpl. rewrite Er. simpl.
           split; [lia|reflexivity].
        -- destruct (registered_exists (handlers s)) as (i & h & Hi & Hreg); [lia|].
           destruct (handler_progress s i h HI Hd Hi Hreg) as (a & s' & Hs & Ha & Hlt).
           destruct (handler_action_frame a s s' Hs Ha) as (_ & _ & Hr' & Hw' & Hp' & Hc' & _).
           exists a, s'. split; [exact Hs|]. split; [|exact Hc'].
           unfold work. rewrite Hr', Hw', Hp'. lia.
    + apply Hwatch; [|exact Ew]. intros E0. rewrite E0 in Hw. congruence.
  - (* RunWaited *)
    exists RunTombDone. simpl. rewrite Er. eexists. split; [reflexivity|].
    unfold work. simpl. rewrite Er. simpl. split; [lia|reflexivity].
  - (* RunExit *)
    rewrite (inv2_exit s H2 Er) in Hnd. discriminate.
Qed.

(** A dying server can always be driven to its death. *)
Lemma drain_exists n :
  forall s, Inv s -> Inv2 s -> dying (tomb s) = true -> (work s <= Z.of_nat n)%Z ->
    exists es s', exec es s = Some s' /\ dead (tomb s') = true
                  /\ callers s' = callers s.
Proof.
  induction n as [|n IH]; intros s HI H2 Hd Hwk.
  - destruct (dead (tomb s)) eqn:Hdead.
    + exists [], s. auto.
    + destruct (progress s HI H2 Hd Hdead) as (a & s' & Hs & Hlt & _).
      pose proof (work_nonneg s' (server_step_inv a s s' HI Hs)). lia.
  - destruct (dead (tomb s)) eqn:Hdead.
    + exists [], s. auto.
    + destruct (progress s HI H2 Hd Hdead) as (a & s1 & Hs & Hlt & Hc).
      destruct (IH s1 (server_step_inv a s s1 HI Hs) (step_inv2 a s s1 HI H2 Hs)
                  (step_keeps_dying a s s1 Hs Hd) ltac:(lia))
        as (es & s' & Hex & Hdd & Hcc).
      exists (a :: es), s'. simpl. rewrite Hs. split; [exact Hex|].
      split; [exact Hdd|congruence].
Qed.

End ShutdownProgress.

Section LifecycleFurther.
Import Lifecycle Termination.

Lemma exec_keeps_dead es : forall s s',
  Inv s -> dead (tomb s) = true -> exec es s = Some s' ->
  dead (tomb s') = true /\ reason (tomb s') = reason (tomb s).
Proof.
  induction es as [|a es IH]; intros s s' HI Hd H; simpl in H.
  - injection H as <-. auto.
  - destruct (step a s) as [s1|] eqn:Hs; [|discriminate].
    destruct (step_keeps_dead a s s1 HI Hd Hs) as [Hd1 Hr1].
    destruct (IH s1 s' (server_step_inv a s s1 HI Hs) Hd1 H) as [Hd2 Hr2].
    split; [exact Hd2|congruence].
Qed.

Lemma exec_keeps_closed es : forall s s',
  lisClosed s = true -> exec es s = Some s' ->
  lisClosed s' = true /\ length (handlers s') = length (handlers s)
  /\ (others s' <= others s)%nat.
Proof.
  induction es as [|a es IH]; intros s s' Hl H; simpl in H.
  - injection H as <-. auto.
  - destruct (step a s) as [s1|] eqn:Hs; [|discriminate].
    destruct (step_keeps_closed a s s1 Hl Hs) as [Hl1 Hn1].
    pose proof (step_keeps_closed_others a s s1 Hl Hs) as Ho1.
    destruct (IH s1 s' Hl1 H) as (Hl2 & Hn2 & Ho2).
    split; [exact Hl2|]. split; [congruence|lia].
Qed.

(** X16: the life cycle of the server only moves forward: along any
    run, once the tomb is dying it stays dying; once it is dead it
    stays dead and the error [Wait] returns no longer changes; once
    the listener is closed it stays closed and no further connection
    is accepted, for the API or for the other handlers; a dead tomb
    is dying, the listener is closed only
    when the tomb is dying, and [tomb.Err()] is [ErrStillAlive]
    exactly when the tomb is not dying. *)
Theorem lifecycle_moves_forward (pre post : list Action) (s1 s : ServerState) :
  exec pre init = Some s1 -> exec post s1 = Some s ->
  (dying (tomb s1) = true -> dying (tomb s) = true)
  /\ (dead (tomb s1) = true ->
      dead (tomb s) = true /\ tombErr (tomb s) = tombErr (tomb s1))
  /\ (lisClosed s1 = true ->
      lisClosed s = true /\ length (handlers s) = length (handlers s1)
      /\ (others s <= others s1)%nat)
  /\ (dead (tomb s) = true -> dying (tomb s) = true)
  /\ (lisClosed s = true -> dying (tomb s) = true)
  /\ (stillAlive (tomb s) = true <-> dying (tomb s) = false).
Proof.
  intros H1 H.
  pose proof (reachable_inv pre s1 H1) as HI1.
  assert (Hs : exec (pre ++ post) init = Some s)
    by (rewrite server_exec_app, H1; exact H).
  pose proof (reachable_inv _ s Hs) as HI.
  pose proof (reachable_inv2 _ s Hs) as HI2.
  split; [intros Hd; exact (exec_keeps_dying post s1 s H Hd)|].
  split; [intros Hd; exact (exec_keeps_dead post s1 s HI1 Hd H)|].
  split; [intros Hl; exact (exec_keeps_closed post s1 s Hl H)|].
  split.
  { intros Hd. destruct (inv_waited s HI (or_intror (inv_dead s HI Hd))) as (_ & _ & H0 & _).
    exact H0. }
  split.
  { intros Hl. apply (inv2_closed s HI2) in Hl. pose proof (inv_watcher s HI) as Hw.
    destruct Hl as [Hl|Hl]; rewrite Hl in Hw; exact Hw. }
  unfold stillAlive, tombErr. rewrite bool_decide_eq_true.
  split; intros H0; apply (inv_alive s HI); exact H0.
Qed.

(** X17: all the calls of [Stop] and [Wait] that have returned, at
    any point of any run, returned the same value: the reason of the
    tomb, which is dead by then; it is never [ErrStillAlive] nor
    [ErrDying], but nil or the error of a failed ping. *)
Theorem callers_agree (sched : list Action) (s : ServerState)
    (c1 c2 : Caller) (r1 r2 : option error) :
  exec sched init = Some s ->
  c1 ∈ callers s -> c2 ∈ callers s ->
  cpc c1 = CReturned r1 -> cpc c2 = CReturned r2 ->
  r1 = r2 /\ r1 = tombErr (tomb s) /\ dead (tomb s) = true
  /\ r1 <> Some ErrStillAlive /\ r1 <> Some ErrDying
  /\ (r1 = None \/ exists e, r1 = Some (pingError e)).
Proof.
  intros Hex Hc1 Hc2 Hr1 Hr2.
  pose proof (reachable_inv sched s Hex) as HI.
  destruct (proj1 (Forall_forall _ _) (inv_callers s HI) c1 Hc1 r1 Hr1) as [Hd ->].
  destruct (proj1 (Forall_forall _ _) (inv_callers s HI) c2 Hc2 r2 Hr2) as [_ ->].
  split; [reflexivity|]. split; [reflexivity|]. split; [exact Hd|].
  destruct (inv_waited s HI (or_intror (inv_dead s HI Hd))) as (_ & _ & Hdy & _).
  assert (Hne : reason (tomb s) <> Some ErrStillAlive).
  { intros Hc. apply (inv_alive s HI) in Hc. congruence. }
  split; [exact Hne|].
  destruct (reason (tomb s)) as [err|] eqn:Hr; [|split; [discriminate|auto]].
  destruct (inv_reason s HI err Hr) as [->|[[e ->] _]]; [contradiction|].
  split; [discriminate|eauto].
Qed.

(** X18: in every reachable state the counter of the wait group is
    the number of goroutines between their [wg.Add(1)] and their
    [wg.Done()]: the watcher of the tomb, the pinger and the
    handlers of the API connections; it is never negative (no
    panic), at most two more than the API connections accepted, and
    when it is zero none of them is running. *)
Theorem wait_group_counts_registered (sched : list Action) (s : ServerState) :
  exec sched init = Some s ->
  wg s = (wgWatcher (watcher s) + wgPinger (pinger s) + wgHandlers (handlers s))%Z
  /\ (0 <= wg s <= 2 + Z.of_nat (length (handlers s)))%Z
  /\ (wg s = 0%Z ->
      (watcher s = WNone \/ watcher s = WExit)
      /\ (pinger s = PNone \/ exists err, pinger s = PExit err)
      /\ Forall (fun h => hpc h = HNew \/ hpc h = HExited) (handlers s))
  /\ panicked s = false.
Proof.
  intros Hex. pose proof (reachable_inv sched s Hex) as HI.
  pose proof (inv_wg s HI) as Hwg.
  pose proof (wgHandlers_nonneg (handlers s)) as Hnn.
  pose proof (wgWatcher_nonneg (watcher s)) as Hwn.
  pose proof (wgPinger_nonneg (pinger s)) as Hpn.
  assert (Hup : (wgHandlers (handlers s) <= Z.of_nat (length (handlers s)))%Z).
  { clear. induction (handlers s) as [|h hs IH]; [simpl; lia|].
    change (wgHandlers (h :: hs)) with (registered h + wgHandlers hs)%Z.
    change (length (h :: hs)) with (S (length hs)). rewrite Nat2Z.inj_succ.
    unfold registered. destruct (hpc h); lia. }
  assert (Hw1 : (wgWatcher (watcher s) <= 1)%Z)
    by (destruct (watcher s); simpl; lia).
  assert (Hp1 : (wgPinger (pinger s) <= 1)%Z)
    by (destruct (pinger s); simpl; lia).
  split; [exact Hwg|]. split; [lia|].
  split; [|exact (inv_panic s HI)].
  intros Hz.
  assert (Hw0 : wgWatcher (watcher s) = 0%Z) by lia.
  assert (Hp0 : wgPinger (pinger s) = 0%Z) by lia.
  split; [|split].
  - destruct (watcher s); simpl in Hw0; auto; lia.
  - destruct (pinger s); simpl in Hp0; eauto; lia.
  - assert (Hh : wgHandlers (handlers s) = 0%Z) by lia.
    apply wgHandlers_zero in Hh. eapply Forall_impl; [exact Hh|].
    intros h Hr. unfold registered in Hr. destruct (hpc h); auto; lia.
Qed.

(** X19: [Stop] can always return: from every reachable state, after
    a call of [Stop] there is a continuation of the run (in which the
    ping and the requests in flight return) after which the tomb is
    dead and that call has returned the reason of the tomb.  No
    reachable state blocks the shutdown for ever. *)
Theorem stop_can_always_return (sched : list Action) (s : ServerState) :
  exec sched init = Some s ->
  exists rest s',
    exec (CallStop :: rest) s = Some s'
    /\ dead (tomb s') = true
    /\ callers s' !! length (callers s)
       = Some {| stopper := true; cpc := CReturned (tombErr (tomb s')) |}.
Proof.
  intros Hex.
  pose proof (reachable_inv sched s Hex) as HI.
  pose proof (reachable_inv2 sched s Hex) as HI2.
  set (c := {| stopper := true; cpc := CWaiting |}).
  set (s1 := setCallers (callers s ++ [c]) (kill None s)).
  assert (Hs1 : step CallStop s = Some s1) by reflexivity.
  pose proof (server_step_inv _ _ _ HI Hs1) as HI1.
  pose proof (step_inv2 _ _ _ HI HI2 Hs1) as HI21.
  assert (Hd1 : dying (tomb s1) = true) by (exact (kill_nil_dying s)).
  destruct (drain_exists (Z.to_nat (work s1)) s1 HI1 HI21 Hd1)
    as (es & s2 & Hes & Hdead & Hcs).
  { pose proof (work_nonneg s1 HI1). lia. }
  assert (Hk : callers s2 !! length (callers s) = Some c).
  { rewrite Hcs. unfold s1. simpl.
    rewrite lookup_app_r by lia. rewrite Nat.sub_diag. reflexivity. }
  exists (es ++ [CallReturn (length (callers s))]).
  eexists. split.
  - cbn [exec]. rewrite Hs1, server_exec_app, Hes.
    cbn [exec step]. rewrite Hk. simpl. rewrite Hdead. reflexivity.
  - simpl. split; [exact Hdead|].
    apply list_lookup_insert_eq. eapply lookup_lt_Some. exact Hk.
Qed.

End LifecycleFurther.

Lemma lifecycle_moves_forward_witness :
  Lifecycle.exec [] Lifecycle.init = Some Lifecycle.init
  /\ Lifecycle.exec Lifecycle.drainRun Lifecycle.init = Some Lifecycle.drainFinal
  /\ Lifecycle.dying (Lifecycle.tomb Lifecycle.drainFinal) = true
  /\ Lifecycle.stillAlive (Lifecycle.tomb Lifecycle.drainFinal) = false.
Proof.
  assert (H1 : Lifecycle.exec [] Lifecycle.init = Some Lifecycle.init) by reflexivity.
  assert (H2 : Lifecycle.exec Lifecycle.drainRun Lifecycle.init
               = Some Lifecycle.drainFinal) by reflexivity.
  destruct (lifecycle_moves_forward [] Lifecycle.drainRun Lifecycle.init
              Lifecycle.drainFinal H1 H2) as (_ & _ & _ & Hd & _ & _).
  split; [exact H1|]. split; [exact H2|]. split; [exact (Hd eq_refl)|reflexivity].
Defined.

Lemma callers_agree_witness :
  let s := Lifecycle.pingFailureFinal ErrPerm in
  Lifecycle.exec (Lifecycle.pingFailureRun ErrPerm) Lifecycle.init = Some s
  /\ Some (Lifecycle.pingError ErrPerm) = Lifecycle.tombErr (Lifecycle.tomb s)
  /\ Lifecycle.dead (Lifecycle.tomb s) = true.
Proof.
  intros s.
  assert (Hex : Lifecycle.exec (Lifecycle.pingFailureRun ErrPerm) Lifecycle.init = Some s)
    by reflexivity.
  set (c1 := {| Lifecycle.stopper := false;
                Lifecycle.cpc := Lifecycle.CReturned (Some (Lifecycle.pingError ErrPerm)) |}).
  set (c2 := {| Lifecycle.stopper := true;
                Lifecycle.cpc := Lifecycle.CReturned (Some (Lifecycle.pingError ErrPerm)) |}).
  assert (H1 : c1 ∈ Lifecycle.callers s) by (apply list_elem_of_here).
  assert (H2 : c2 ∈ Lifecycle.callers s)
    by (apply list_elem_of_further, list_elem_of_here).
  destruct (callers_agree (Lifecycle.pingFailureRun ErrPerm) s c1 c2
              (Some (Lifecycle.pingError ErrPerm)) (Some (Lifecycle.pingError ErrPerm))
              Hex H1 H2 eq_refl eq_refl) as (_ & Hr & Hd & _).
  split; [exact Hex|]. split; [exact Hr|exact Hd].
Defined.

Lemma wait_group_counts_registered_witness :
  Lifecycle.exec Lifecycle.drainRun Lifecycle.init = Some Lifecycle.drainFinal
  /\ Lifecycle.wg Lifecycle.drainFinal = 0%Z
  /\ Forall (fun h => Lifecycle.hpc h = Lifecycle.HNew
                      \/ Lifecycle.hpc h = Lifecycle.HExited)
       (Lifecycle.handlers Lifecycle.drainFinal)
  /\ Lifecycle.panicked Lifecycle.drainFinal = false.
Proof.
  assert (H : Lifecycle.exec Lifecycle.drainRun Lifecycle.init
              = Some Lifecycle.drainFinal) by reflexivity.
  destruct (wait_group_counts_registered Lifecycle.drainRun Lifecycle.drainFinal H)
    as (_ & _ & Hz & Hp).
  split; [exact H|]. split; [reflexivity|]. split; [|exact Hp].
  exact (proj2 (proj2 (Hz eq_refl))).
Defined.

Lemma stop_can_always_return_witness :
  exists rest s',
    Lifecycle.exec (Lifecycle.CallStop :: rest) Lifecycle.init = Some s'
    /\ Lifecycle.dead (Lifecycle.tomb s') = true
    /\ Lifecycle.callers s' !! 0%nat
       = Some {| Lifecycle.stopper := true;
                 Lifecycle.cpc := Lifecycle.CReturned (Lifecycle.tombErr (Lifecycle.tomb s')) |}.
Proof.
  assert (H : Lifecycle.exec [] Lifecycle.init = Some Lifecycle.init) by reflexivity.
  exact (stop_can_always_return [] Lifecycle.init H).
Defined.

